(** * Zen website QA tools: the Structural Validator ([validate.mjs]) and the
    Behavioral Prober (the Playwright script) as Rocq functions.

    Conventions of the embedding.
    - A JavaScript string is the list of its UTF-16 code units ([JS.str]).
      ASCII literals of the source are written [js "..."]; other characters
      are given by their code unit.
    - The Reporter of both scripts (three counters and the console) is a
      record threaded through every check; the console is the list of the
      arguments of [console.log], in order.
    - The parsed document is a tree of nodes; the cheerio selectors that the
      source uses are values of a small selector syntax, evaluated on the
      tree in document order. The regular expressions of the source are
      values of a small pattern syntax, run by a backtracking matcher.
    - What the libraries decide and the validator only passes on is a
      parameter of its run: the HTML parser ([cheerio.load]), the selector
      parser on the one selector built at run time, and the default messages
      of zod.
    - The file system is an oracle: [readFile] and [existsSync] take the path
      relative to the directory of the script.
    - The browser behind the prober is a record that holds the result of
      every awaited call of a probe, a value or a thrown exception; an
      [async] function is a function on the state of the run that ends in a
      value or in an exception. The awaits that open and close a browsing
      context return in [Prober]; in [Session] they may reject. *)

From Stdlib Require Import List NArith ZArith Bool String Ascii Lia.
From Stdlib Require Import Permutation DecimalString QArith Qround.
Import ListNotations.

Set Warnings "-register-all".

Local Open Scope N_scope.
Local Open Scope list_scope.

(* ================================================================== *)
(** * JavaScript strings *)
(* ================================================================== *)

Module JS.

Definition str := list N.

(** An ASCII literal of the source. *)
Definition lit (s : string) : str :=
  map N_of_ascii (list_ascii_of_string s).

Fixpoint eqb (a b : str) : bool :=
  match a, b with
  | [], [] => true
  | x :: a', y :: b' => N.eqb x y && eqb a' b'
  | _, _ => false
  end.

(** [s.startsWith(p)] *)
Fixpoint startsWith (s p : str) {struct p} : bool :=
  match p, s with
  | [], _ => true
  | y :: p', x :: s' => N.eqb x y && startsWith s' p'
  | _ :: _, [] => false
  end.

(** [s.endsWith(p)] *)
Definition endsWith (s p : str) : bool := startsWith (rev s) (rev p).

(** [s.includes(p)] *)
Fixpoint includes (s p : str) : bool :=
  startsWith s p ||
  match s with
  | [] => false
  | _ :: s' => includes s' p
  end.

(** [p] occurs in [s]: what [s.includes(p)] decides. *)
Definition occursIn (p s : str) : Prop :=
  exists pre post, s = pre ++ p ++ post.

Definition eq_dec : forall a b : str, {a = b} + {a <> b} :=
  list_eq_dec N.eq_dec.

(** [arr.includes(x)] on an array of strings. *)
Definition arrayIncludes (arr : list str) (x : str) : bool :=
  existsb (eqb x) arr.

(** [arr.join(sep)] *)
Fixpoint join (sep : str) (arr : list str) : str :=
  match arr with
  | [] => []
  | [x] => x
  | x :: rest => x ++ sep ++ join sep rest
  end.

(** [s.substring(0, n)] *)
Definition substring0 (n : nat) (s : str) : str := firstn n s.

(** [s.slice(1)] *)
Definition slice1 (s : str) : str := tl s.

(** White space and line terminators of ECMAScript: the class [\s] of a
    regular expression and the characters [trim()] strips. *)
Definition isSpace (c : N) : bool :=
  (9 <=? c) && (c <=? 13) || (c =? 32) || (c =? 160) || (c =? 5760)
  || (8192 <=? c) && (c <=? 8202) || (c =? 8232) || (c =? 8233)
  || (c =? 8239) || (c =? 8287) || (c =? 12288) || (c =? 65279).

Fixpoint trimStart (s : str) : str :=
  match s with
  | c :: s' => if isSpace c then trimStart s' else s
  | [] => []
  end.

(** [s.trim()] *)
Definition trim (s : str) : str := rev (trimStart (rev (trimStart s))).

(** Truthiness of a string: [!s] is [negb (truthy s)]. *)
Definition truthy (s : str) : bool :=
  match s with [] => false | _ => true end.

(** [x || ''] where [x] is a string or [undefined]. *)
Definition orEmpty (x : option str) : str :=
  match x with
  | Some (c :: s) => c :: s
  | _ => []
  end.

(** Truthiness of a value that is a string or [undefined]. *)
Definition truthyOpt (x : option str) : bool :=
  match x with Some s => truthy s | None => false end.

(** A number in a template literal: [`${n}`]. *)
Definition ofN (n : N) : str := lit (NilZero.string_of_uint (N.to_uint n)).
Definition ofZ (z : Z) : str := lit (NilZero.string_of_int (Z.to_int z)).

(** ASCII letters to lower case. The words the scripts compare after
    [toLowerCase()] consist of ASCII letters, and no other character lowers
    to one of them. *)
Definition lowerChar (c : N) : N :=
  if (65 <=? c) && (c <=? 90) then c + 32 else c.
Definition toLowerCase (s : str) : str := map lowerChar s.

End JS.

Definition js : string -> JS.str := JS.lit.

(* ================================================================== *)
(** * The Reporter: [passed], [failed], [warnings] and the console *)
(* ================================================================== *)

Module Reporter.

Record reporter := mkReporter {
  passed : N;
  failed : N;
  warnings : N;
  console : list JS.str
}.

(** [let passed = 0; let failed = 0; let warnings = 0;] *)
Definition init : reporter := mkReporter 0 0 0 [].

(** [console.log(line)] *)
Definition log (line : JS.str) (r : reporter) : reporter :=
  mkReporter (passed r) (failed r) (warnings r) (console r ++ [line]).

Definition ESC : JS.str := [27].
Definition tick : JS.str := [10003].
Definition cross : JS.str := [10007].
Definition warnSign : JS.str := [9888].
Definition arrow : JS.str := [8594].

Definition passLine (label : JS.str) : JS.str :=
  js "  " ++ ESC ++ js "[32m" ++ tick ++ ESC ++ js "[0m " ++ label.
Definition failLine (label : JS.str) : JS.str :=
  js "  " ++ ESC ++ js "[31m" ++ cross ++ ESC ++ js "[0m " ++ label.
Definition warnLine (label : JS.str) : JS.str :=
  js "  " ++ ESC ++ js "[33m" ++ warnSign ++ ESC ++ js "[0m " ++ label.
Definition detailLine (detail : JS.str) : JS.str :=
  js "    " ++ arrow ++ js " " ++ detail.

(** [if (detail) console.log(...)]: the detail line, after an arrow. *)
Definition logDetail (detail : option JS.str) (r : reporter) : reporter :=
  match detail with
  | Some d => if JS.truthy d then log (detailLine d) r else r
  | None => r
  end.

(** [function pass(label)] *)
Definition pass (label : JS.str) (r : reporter) : reporter :=
  log (passLine label)
    (mkReporter (passed r + 1) (failed r) (warnings r) (console r)).

(** [function fail(label, detail)] *)
Definition fail (label : JS.str) (detail : option JS.str) (r : reporter)
  : reporter :=
  logDetail detail
    (log (failLine label)
       (mkReporter (passed r) (failed r + 1) (warnings r) (console r))).

(** [function warn(label, detail)] *)
Definition warn (label : JS.str) (detail : option JS.str) (r : reporter)
  : reporter :=
  logDetail detail
    (log (warnLine label)
       (mkReporter (passed r) (failed r) (warnings r + 1) (console r))).

(** [function check(label, condition, detail)] of the validator. *)
Definition check (label : JS.str) (condition : bool) (detail : option JS.str)
  (r : reporter) : reporter :=
  if condition then pass label r else fail label detail r.

(** [arr.forEach(x => f(x))] for a callback that only reports. *)
Definition forEach {A} (f : A -> reporter -> reporter) (arr : list A)
  (r : reporter) : reporter :=
  fold_left (fun acc x => f x acc) arr r.

(** The three final statuses the specification names. *)
Inductive status := Success | SuccessWithWarnings | Failure.

(** The specification's [summarize()]: [Failure] with one failure or more,
    [SuccessWithWarnings] with none and one warning or more, [Success]
    otherwise. The summary branch of each script is compared with it. *)
Definition summarize (r : reporter) : status :=
  if 0 <? failed r then Failure
  else if 0 <? warnings r then SuccessWithWarnings
  else Success.

(** The specification's exit codes: [Failure] is 1, all else 0. *)
Definition exitCode (s : status) : Z :=
  match s with
  | Failure => 1%Z
  | SuccessWithWarnings => 0%Z
  | Success => 0%Z
  end.

(** ['='.repeat(50)] *)
Definition rule50 : JS.str := repeat 61 50.

(** The two lines around the counts and the counts themselves. *)
Definition logResults (r : reporter) : reporter :=
  log rule50
    (log (ESC ++ js "[1mResults: " ++ JS.ofN (passed r) ++ js " passed, "
            ++ JS.ofN (failed r) ++ js " failed, "
            ++ JS.ofN (warnings r) ++ js " warnings" ++ ESC ++ js "[0m")
       (log ([10] ++ rule50) r)).

(** The three kinds of outcome, for statements about sequences of calls. *)
Inductive kind := KPass | KFail | KWarn.

Definition record (k : kind) (label : JS.str) (detail : option JS.str)
  (r : reporter) : reporter :=
  match k with
  | KPass => pass label r
  | KFail => fail label detail r
  | KWarn => warn label detail r
  end.

Definition recordAll (l : list (kind * JS.str * option JS.str))
  (r : reporter) : reporter :=
  fold_left (fun acc o => record (fst (fst o)) (snd (fst o)) (snd o) acc) l r.

(** The three counters of a reporter. *)
Definition counters (r : reporter) : N * N * N :=
  (passed r, failed r, warnings r).

(** What one call of kind [k] does to the counters. *)
Definition bump (k : kind) (c : N * N * N) : N * N * N :=
  match k, c with
  | KPass, (p, f, w) => (p + 1, f, w)
  | KFail, (p, f, w) => (p, f + 1, w)
  | KWarn, (p, f, w) => (p, f, w + 1)
  end.

(** Counters only grow from [r] to [r']. *)
Definition grows (r r' : reporter) : Prop :=
  passed r <= passed r' /\ failed r <= failed r'
  /\ warnings r <= warnings r'.

End Reporter.

(* ================================================================== *)
(** * The parsed document and the cheerio selectors of the source *)
(* ================================================================== *)

Module Dom.

Definition attrs := list (JS.str * JS.str).

Inductive node :=
| Text (data : JS.str)
| Comment (data : JS.str)
| Elem (name : JS.str) (attribs : attrs) (children : list node).

(** The document: the nodes at its top level. *)
Definition document := list node.

(** An element of a selection: its tag, its children, and the tags of its
    ancestors, the parent first. *)
Record element := mkElement {
  ancestors : list (JS.str * attrs);
  name : JS.str;
  attribs : attrs;
  children : list node
}.

Fixpoint lookup (a : JS.str) (l : attrs) : option JS.str :=
  match l with
  | [] => None
  | (k, v) :: l' => if JS.eqb k a then Some v else lookup a l'
  end.

(** [$(el).attr(a)]: [undefined] is [None]. None of the attributes the
    source reads is a boolean attribute or [value]. *)
Definition attr (a : JS.str) (e : element) : option JS.str :=
  lookup a (attribs e).

(** [$(sel).attr(a)] on a selection: the attribute of its first element. *)
Definition attrFirst (a : JS.str) (sel : list element) : option JS.str :=
  match sel with
  | [] => None
  | e :: _ => attr a e
  end.

(** Text content of a node: the text of its descendants, comments left out. *)
Fixpoint textOf (n : node) : JS.str :=
  match n with
  | Text d => d
  | Comment _ => []
  | Elem _ _ ch => flat_map textOf ch
  end.

(** [$(sel).text()]: the text of every element of the selection. *)
Definition text (sel : list element) : JS.str :=
  flat_map (fun e => flat_map textOf (children e)) sel.

(** [$(el).html()] of a [script] element, whose content the parser keeps as
    raw text. *)
Definition html (e : element) : JS.str := flat_map textOf (children e).

(** The elements below a node, the node first, in document order. *)
Fixpoint descendants (anc : list (JS.str * attrs)) (n : node)
  : list element :=
  match n with
  | Elem nm at_ ch =>
      mkElement anc nm at_ ch :: flat_map (descendants ((nm, at_) :: anc)) ch
  | _ => []
  end.

Definition allElements (doc : document) : list element :=
  flat_map (descendants []) doc.

(** The simple selectors the source uses. *)
Inductive simple :=
| Tag (n : JS.str)                  (* [img] *)
| Id (i : JS.str)                   (* [#hero] *)
| Class (c : JS.str)                (* [.sobre-card] *)
| HasAttr (a : JS.str)              (* [[src]] *)
| AttrEq (a v : JS.str)             (* [[name="viewport"]] *)
| AttrEqCI (a v : JS.str)           (* [[rel="icon"]]: [rel] ignores case *)
| AttrContains (a v : JS.str)       (* [[href*="privacidade"]] *)
| Not (s : simple).                 (* [:not(...)] *)

(** A compound selector is a conjunction; a selector is a chain of compound
    selectors under the descendant combinator, the outermost first. *)
Definition compound := list simple.
Definition selector := list compound.

(** The words of a [class] attribute. *)
Fixpoint wordsAux (cur : JS.str) (s : JS.str) : list JS.str :=
  match s with
  | [] => match cur with [] => [] | _ => [rev cur] end
  | c :: s' =>
      if JS.isSpace c
      then match cur with [] => wordsAux [] s' | _ => rev cur :: wordsAux [] s' end
      else wordsAux (c :: cur) s'
  end.
Definition words (s : JS.str) : list JS.str := wordsAux [] s.

Fixpoint matchSimple (nm : JS.str) (at_ : attrs) (s : simple) : bool :=
  match s with
  | Tag n => JS.eqb nm n
  | Id i => match lookup (js "id") at_ with Some v => JS.eqb v i | None => false end
  | Class c =>
      match lookup (js "class") at_ with
      | Some v => JS.arrayIncludes (words v) c
      | None => false
      end
  | HasAttr a => match lookup a at_ with Some _ => true | None => false end
  | AttrEq a v => match lookup a at_ with Some x => JS.eqb x v | None => false end
  | AttrEqCI a v =>
      match lookup a at_ with
      | Some x => JS.eqb (JS.toLowerCase x) (JS.toLowerCase v)
      | None => false
      end
  | AttrContains a v =>
      match lookup a at_ with
      | Some x => JS.truthy v && JS.includes x v
      | None => false
      end
  | Not s' => negb (matchSimple nm at_ s')
  end.

Definition matchCompound (t : JS.str * attrs) (c : compound) : bool :=
  forallb (matchSimple (fst t) (snd t)) c.

(** The rest of a chain, innermost first, against the ancestors, parent
    first. *)
Fixpoint matchAncestors (chain : list compound) (anc : list (JS.str * attrs))
  : bool :=
  match chain with
  | [] => true
  | c :: chain' =>
      (fix up (anc : list (JS.str * attrs)) : bool :=
         match anc with
         | [] => false
         | a :: anc' =>
             matchCompound a c && matchAncestors chain' anc' || up anc'
         end) anc
  end.

Definition matches (sel : selector) (e : element) : bool :=
  match rev sel with
  | [] => false
  | c :: chain =>
      matchCompound (name e, attribs e) c && matchAncestors chain (ancestors e)
  end.

(** [$(sel)]: the elements of the document that match, in document order. *)
Definition select (doc : document) (sel : selector) : list element :=
  filter (matches sel) (allElements doc).

(** [$(el).find(sel)]: the descendants of [el] that match. cheerio searches
    the subtrees of the children of [el] with [el] as the context of the
    selector, and css-select then reads [sel] as [:scope sel] with a first
    combinator that lets the element itself be the scope: the outermost
    compound of a chain is looked for among the descendants of [el] and on
    [el] itself, never above it. The elements found carry their ancestors up
    to [el], [el] included. *)
Definition find (sel : selector) (e : element) : list element :=
  filter (matches sel)
    (flat_map (descendants [(name e, attribs e)]) (children e)).

End Dom.

(* ================================================================== *)
(** * Regular expressions of the source, with ECMAScript's backtracking *)
(* ================================================================== *)

Module Regex.

Inductive re :=
| Eps
| Chr (p : N -> bool)           (* a character, a class or [.] *)
| Seq (a b : re)
| Alt (a b : re)
| Star (greedy : bool) (a : re) (* [a*] and [a*?] *)
| Group (a : re)                (* the capture group of the pattern *)
| Eos.                          (* [$] *)

Definition Plus (a : re) : re := Seq a (Star true a).
Definition Opt (a : re) : re := Alt a Eps.
Definition Char (c : N) : re := Chr (N.eqb c).
Fixpoint Lit (s : JS.str) : re :=
  match s with
  | [] => Eps
  | c :: s' => Seq (Char c) (Lit s')
  end.
(** A literal under the [i] flag; the patterns of the source use it on
    ASCII letters only. *)
Fixpoint LitI (s : JS.str) : re :=
  match s with
  | [] => Eps
  | c :: s' => Seq (Chr (fun x => N.eqb (JS.lowerChar x) (JS.lowerChar c))) (LitI s')
  end.

(** [Matches r s rest]: the pattern [r], read as a set of strings, has a
    member that is a prefix of [s] and leaves [rest]. *)
Inductive Matches : re -> JS.str -> JS.str -> Prop :=
| MEps s : Matches Eps s s
| MChr p c s : p c = true -> Matches (Chr p) (c :: s) s
| MSeq a b s s' s'' :
    Matches a s s' -> Matches b s' s'' -> Matches (Seq a b) s s''
| MAltL a b s s' : Matches a s s' -> Matches (Alt a b) s s'
| MAltR a b s s' : Matches b s s' -> Matches (Alt a b) s s'
| MStarStop g a s : Matches (Star g a) s s
| MStarStep g a s s' s'' :
    Matches a s s' -> (List.length s' < List.length s)%nat ->
    Matches (Star g a) s' s'' -> Matches (Star g a) s s''
| MGroup a s s' : Matches a s s' -> Matches (Group a) s s'
| MEos : Matches Eos [] [].

(** [r] matches somewhere in [s]. *)
Definition MatchesIn (r : re) (s : JS.str) : Prop :=
  exists pre tail rest, s = pre ++ tail /\ Matches r tail rest.

Definition anyChar : re := Chr (fun _ => true).                  (* [\s\S] *)
Definition space : re := Chr JS.isSpace.                         (* \s *)
Definition dot : re :=                                           (* . *)
  Chr (fun c => negb ((c =? 10) || (c =? 13) || (c =? 8232) || (c =? 8233))).

Section Matcher.
Context {R : Type}.

(** The iterations of [a*] ([greedy]) and [a*?], where [ma] matches [a]
    once. An iteration that consumes nothing is refused, so [fuel], the
    length of the input, bounds the number of iterations. *)
Fixpoint starLoop
  (ma : JS.str -> option JS.str -> (JS.str -> option JS.str -> option R) -> option R)
  (greedy : bool) (k : JS.str -> option JS.str -> option R)
  (fuel : nat) (s : JS.str) (cap : option JS.str) {struct fuel} : option R :=
  match fuel with
  | O => k s cap
  | S fuel' =>
      let again (_ : unit) :=
        ma s cap (fun s' cap' =>
          if (List.length s' <? List.length s)%nat
          then starLoop ma greedy k fuel' s' cap' else None) in
      if greedy then
        match again tt with
        | Some x => Some x
        | None => k s cap
        end
      else
        match k s cap with
        | Some x => Some x
        | None => again tt
        end
  end.

(** [m r s cap k]: match [r] at the head of [s], then continue with [k] on
    what is left and on the capture; [None] makes the matcher backtrack. *)
Fixpoint m (r : re) (s : JS.str) (cap : option JS.str)
  (k : JS.str -> option JS.str -> option R) {struct r} : option R :=
  match r with
  | Eps => k s cap
  | Chr p =>
      match s with
      | c :: s' => if p c then k s' cap else None
      | [] => None
      end
  | Seq a b => m a s cap (fun s' cap' => m b s' cap' k)
  | Alt a b =>
      match m a s cap k with
      | Some x => Some x
      | None => m b s cap k
      end
  | Star greedy a => starLoop (m a) greedy k (List.length s) s cap
  | Group a =>
      m a s cap (fun s' _ =>
        k s' (Some (firstn (List.length s - List.length s') s)))
  | Eos => match s with [] => k s cap | _ => None end
  end.
End Matcher.

(** One successful match: what precedes it, the match, the capture, and
    what follows. *)
Record found := mkFound {
  before : JS.str;
  matched : JS.str;
  capture : option JS.str;
  after : JS.str
}.

Fixpoint searchFrom (r : re) (pre : JS.str) (s : JS.str) : option found :=
  match m r s None (fun rest cap => Some (rest, cap)) with
  | Some (rest, cap) =>
      Some (mkFound (rev pre) (firstn (List.length s - List.length rest) s) cap rest)
  | None =>
      match s with
      | [] => None
      | c :: s' => searchFrom r (c :: pre) s'
      end
  end.

(** [s.match(r)] without the [g] flag: the leftmost match. *)
Definition exec (r : re) (s : JS.str) : option found := searchFrom r [] s.

(** [r.test(s)] *)
Definition test (r : re) (s : JS.str) : bool :=
  match exec r s with Some _ => true | None => false end.

(** [s.replace(r, by)] without the [g] flag. *)
Definition replace (r : re) (by_ : JS.str) (s : JS.str) : JS.str :=
  match exec r s with
  | Some f => before f ++ by_ ++ after f
  | None => s
  end.

Fixpoint matchAllFrom (fuel : nat) (r : re) (s : JS.str) : list JS.str :=
  match fuel with
  | O => []
  | S fuel' =>
      match exec r s with
      | None => []
      | Some f =>
          matched f ::
          match matched f, after f with
          | [], [] => []
          | [], _ :: rest => matchAllFrom fuel' r rest
          | _ :: _, rest => matchAllFrom fuel' r rest
          end
      end
  end.

(** [s.match(r) || []] with the [g] flag: every match, left to right. *)
Definition matchAll (r : re) (s : JS.str) : list JS.str :=
  matchAllFrom (S (List.length s)) r s.

End Regex.

(* ================================================================== *)
(** * Shape rules: the zod schemas of [validate.mjs] *)
(* ================================================================== *)

Module Zod.

Inductive value :=
| VStr (s : JS.str)
| VNum (n : N)
| VBool (b : bool).

Inductive rule :=
| LiteralStr (v : JS.str)       (* [z.literal('UTF-8')] *)
| LiteralTrue                   (* [z.literal(true)] *)
| StrIncludes (v : JS.str)      (* [z.string().includes(v)] *)
| StrMin (n : nat)              (* [z.string().min(n)] *)
| NumMin (n : N).               (* [z.number().min(n, message)] *)

Record field := mkField {
  key : JS.str;
  shape : rule;
  custom : option JS.str        (* the message given in the schema, if any *)
}.

Definition schema := list field.

Record issue := mkIssue {
  path : JS.str;                (* [issue.path.join('.')], a single key *)
  message : JS.str
}.

Definition conforms (r : rule) (v : value) : bool :=
  match r, v with
  | LiteralStr x, VStr s => JS.eqb s x
  | LiteralTrue, VBool b => b
  | StrIncludes x, VStr s => JS.includes s x
  | StrMin n, VStr s => (n <=? List.length s)%nat
  | NumMin n, VNum x => n <=? x
  | _, _ => false
  end.

Fixpoint get (k : JS.str) (obj : list (JS.str * value)) : option value :=
  match obj with
  | [] => None
  | (k', v) :: obj' => if JS.eqb k' k then Some v else get k obj'
  end.

(** A field of the schema has an issue on [obj]. *)
Definition violates (f : field) (obj : list (JS.str * value)) : bool :=
  match get (key f) obj with
  | Some v => negb (conforms (shape f) v)
  | None => true
  end.

Section Messages.
(** The text zod gives an issue when the schema has no message of its
    own; it depends on the version of the library. *)
Variable defaultMessage : rule -> option value -> JS.str.

Definition issueOf (f : field) (v : option value) : issue :=
  mkIssue (key f)
    (match custom f with
     | Some msg => msg
     | None => defaultMessage (shape f) v
     end).

(** [schema.safeParse(obj)]: the issues, in the order of the keys of the
    schema; [success] is the absence of issues. *)
Fixpoint safeParse (s : schema) (obj : list (JS.str * value)) : list issue :=
  match s with
  | [] => []
  | f :: s' =>
      match get (key f) obj with
      | Some v =>
          if conforms (shape f) v then safeParse s' obj
          else issueOf f (Some v) :: safeParse s' obj
      | None => issueOf f None :: safeParse s' obj
      end
  end.
End Messages.

Definition MetaSchema : schema :=
  [ mkField (js "charset") (LiteralStr (js "UTF-8")) None;
    mkField (js "viewport") (StrIncludes (js "width=device-width")) None;
    mkField (js "title") (StrMin 10) None;
    mkField (js "description") (StrMin 50) None;
    mkField (js "ogTitle") (StrMin 5) None;
    mkField (js "ogDescription") (StrMin 20) None;
    mkField (js "ogType") (LiteralStr (js "website")) None;
    mkField (js "ogLocale") (LiteralStr (js "pt_BR")) None;
    mkField (js "ogImage") (StrMin 1) None;
    mkField (js "lang") (LiteralStr (js "pt-BR")) None ].

Definition SectionSchema : schema :=
  map (fun k => mkField (js k) LiteralTrue None)
    [ "hero"; "sobre"; "comoFunciona"; "faq"; "posicionamento"; "bottomCta";
      "footer" ]%string.

Definition ContentSchema : schema :=
  [ mkField (js "agentCards") (NumMin 10)
      (Some (js "Expected at least 10 agent cards"));
    mkField (js "agentTabs") (NumMin 10)
      (Some (js "Expected at least 10 agent tabs"));
    mkField (js "faqItems") (NumMin 5)
      (Some (js "Expected at least 5 FAQ items"));
    mkField (js "howItWorksSteps") (NumMin 3)
      (Some (js "Expected at least 3 steps"));
    mkField (js "forms") (NumMin 2)
      (Some (js "Expected at least 2 forms (hero + bottom CTA)"));
    mkField (js "bankLogos") (NumMin 10)
      (Some (js "Expected at least 10 bank logos")) ].

Definition translationKeys : list string :=
  [ "enSelectors"; "enCards"; "enTabs"; "enFaq"; "enSteps"; "enHow"; "enCta";
    "enFooter"; "enForm"; "enConsent"; "enLegalLinks"; "enLegalDisclaimer";
    "chatDataEN"; "illustrationMap" ]%string.

Definition TranslationSchema : schema :=
  map (fun k => mkField (js k) LiteralTrue (Some (js k ++ js " not found in JS")))
    translationKeys.

End Zod.

(* ================================================================== *)
(** * The Structural Validator, [validate.mjs] *)
(* ================================================================== *)

Module Validator.

Import Reporter Dom.

(** The file system as the script sees it; paths are relative to
    [__dirname]. [readFile] is [None] where [readFileSync] throws. *)
Record world := mkWorld {
  readFile : JS.str -> option JS.str;
  existsSync : JS.str -> bool
}.

(** How a run ends: [process.exit(code)] after the summary, or an exception
    nothing catches, on which Node exits with code 1. *)
Inductive result :=
| Exited (code : Z) (r : reporter)
| Uncaught (r : reporter).

Definition reportOf (x : result) : reporter :=
  match x with Exited _ r => r | Uncaught r => r end.

Definition exitOf (x : result) : Z :=
  match x with Exited c _ => c | Uncaught _ => 1%Z end.

Definition dq : JS.str := [34].

(** [console.log('\n\x1b[1m' + title + '\x1b[0m')] *)
Definition header (title : JS.str) : reporter -> reporter :=
  log ([10] ++ ESC ++ js "[1m" ++ title ++ ESC ++ js "[0m").

(** [.length > 0] and [!!(...).length] of a selection. *)
Definition nonEmpty {A} (l : list A) : bool :=
  match l with [] => false | _ => true end.

Definition count {A} (l : list A) : N := N.of_nat (List.length l).

(** [new Set()] keeps insertion order; [add] ignores a value it has. *)
Definition setAdd (x : JS.str) (s : list JS.str) : list JS.str :=
  if JS.arrayIncludes s x then s else s ++ [x].

Section Run.
(** [cheerio.load(html)]. *)
Variable parse : JS.str -> document.
(** The selector parser of cheerio, for the one selector the script builds
    at run time; [None] where it throws a syntax error. *)
Variable parseSelector : JS.str -> option selector.
(** The default messages of zod. *)
Variable defaultMessage : Zod.rule -> option Zod.value -> JS.str.

(** ** 1. Meta tags *)

Definition metaContent (doc : document) (a v : string) : JS.str :=
  JS.orEmpty
    (attrFirst (js "content") (select doc [[Tag (js "meta"); AttrEq (js a) (js v)]])).

Definition metaData (doc : document) : list (JS.str * Zod.value) :=
  [ (js "charset",
      Zod.VStr (JS.orEmpty (attrFirst (js "charset")
                  (select doc [[Tag (js "meta"); HasAttr (js "charset")]]))));
    (js "viewport", Zod.VStr (metaContent doc "name" "viewport"));
    (js "title", Zod.VStr (JS.orEmpty (Some (text (select doc [[Tag (js "title")]])))));
    (js "description", Zod.VStr (metaContent doc "name" "description"));
    (js "ogTitle", Zod.VStr (metaContent doc "property" "og:title"));
    (js "ogDescription", Zod.VStr (metaContent doc "property" "og:description"));
    (js "ogType", Zod.VStr (metaContent doc "property" "og:type"));
    (js "ogLocale", Zod.VStr (metaContent doc "property" "og:locale"));
    (js "ogImage", Zod.VStr (metaContent doc "property" "og:image"));
    (js "lang",
      Zod.VStr (JS.orEmpty (attrFirst (js "lang") (select doc [[Tag (js "html")]])))) ].

(** The ten reads of [metaData], named for the statements about them:
    the key, the selector, and whether the script takes an attribute of
    the first element selected or the text of the selection. *)
Inductive reader :=
| ReadAttr (a : JS.str)
| ReadText.

Definition read (rd : reader) (sel : list element) : option JS.str :=
  match rd with
  | ReadAttr a => attrFirst a sel
  | ReadText => Some (text sel)
  end.

Definition metaFields : list (JS.str * selector * reader) :=
  [ (js "charset", [[Tag (js "meta"); HasAttr (js "charset")]], ReadAttr (js "charset"));
    (js "viewport", [[Tag (js "meta"); AttrEq (js "name") (js "viewport")]],
      ReadAttr (js "content"));
    (js "title", [[Tag (js "title")]], ReadText);
    (js "description", [[Tag (js "meta"); AttrEq (js "name") (js "description")]],
      ReadAttr (js "content"));
    (js "ogTitle", [[Tag (js "meta"); AttrEq (js "property") (js "og:title")]],
      ReadAttr (js "content"));
    (js "ogDescription",
      [[Tag (js "meta"); AttrEq (js "property") (js "og:description")]],
      ReadAttr (js "content"));
    (js "ogType", [[Tag (js "meta"); AttrEq (js "property") (js "og:type")]],
      ReadAttr (js "content"));
    (js "ogLocale", [[Tag (js "meta"); AttrEq (js "property") (js "og:locale")]],
      ReadAttr (js "content"));
    (js "ogImage", [[Tag (js "meta"); AttrEq (js "property") (js "og:image")]],
      ReadAttr (js "content"));
    (js "lang", [[Tag (js "html")]], ReadAttr (js "lang")) ].

(** [if (result.success) pass(ok) else result.error.issues.forEach(...)] *)
Definition reportIssues (ok : JS.str) (prefix : JS.str)
  (detail : Zod.issue -> JS.str) (issues : list Zod.issue)
  : reporter -> reporter :=
  match issues with
  | [] => pass ok
  | _ => forEach (fun i => fail (prefix ++ Zod.path i) (Some (detail i))) issues
  end.

Definition metaIssues (doc : document) : list Zod.issue :=
  Zod.safeParse defaultMessage Zod.MetaSchema (metaData doc).

Definition metaGroup (doc : document) (r : reporter) : reporter :=
  let r := header (js "1. Meta Tags") r in
  let r := reportIssues (js "All meta tags valid") (js "Meta: ") Zod.message
             (metaIssues doc) r in
  check (js "Favicon present")
    (nonEmpty (select doc [[Tag (js "link"); AttrEqCI (js "rel") (js "icon")]]))
    None r.

(** ** 2. Required sections *)

Definition sections (doc : document) : list (JS.str * Zod.value) :=
  [ (js "hero", Zod.VBool (nonEmpty (select doc [[Id (js "hero")]])));
    (js "sobre", Zod.VBool (nonEmpty (select doc [[Id (js "sobre")]])));
    (js "comoFunciona", Zod.VBool (nonEmpty (select doc [[Id (js "como-funciona")]])));
    (js "faq", Zod.VBool (nonEmpty (select doc [[Id (js "faq")]])));
    (js "posicionamento", Zod.VBool (nonEmpty (select doc [[Id (js "posicionamento")]])));
    (js "bottomCta", Zod.VBool (nonEmpty (select doc [[Id (js "bottom-cta")]])));
    (js "footer", Zod.VBool (nonEmpty (select doc [[Tag (js "footer")]]))) ].

Definition sectionGroup (doc : document) (r : reporter) : reporter :=
  let r := header (js "2. Required Sections") r in
  reportIssues (js "All required sections present") (js "Missing section: ")
    Zod.message (Zod.safeParse defaultMessage Zod.SectionSchema (sections doc)) r.

(** ** 3. Content structure *)

Definition bankNames : list JS.str :=
  [ js "Nubank"; js "Ita" ++ [250]; js "Bradesco"; js "Santander"; js "Inter";
    js "C6 Bank"; js "Mercado Pago"; js "BTG Pactual"; js "Caixa";
    js "PicPay"; js "Neon"; js "Banco do Brasil" ].

Definition isBankLogo (e : element) : bool :=
  match attr (js "alt") e with
  | Some alt => JS.arrayIncludes bankNames alt
  | None => false
  end.

Record contentCounts := mkContent {
  agentCards : N;
  agentTabs : N;
  faqItems : N;
  howItWorksSteps : N;
  forms : N;
  bankLogos : N
}.

Definition content (doc : document) : contentCounts :=
  {| agentCards := count (select doc [[Class (js "sobre-card")]]);
     agentTabs := count (select doc [[Class (js "sobre-tab")]]);
     faqItems := count (select doc [[Id (js "faq")]; [Class (js "faq-item")]]);
     howItWorksSteps := count (select doc [[Id (js "como-funciona")]; [Tag (js "h3")]]);
     forms := count (select doc [[Tag (js "form")]]);
     bankLogos :=
       count (filter isBankLogo (select doc [[Tag (js "img"); HasAttr (js "alt")]])) |}.

Definition contentObject (c : contentCounts) : list (JS.str * Zod.value) :=
  [ (js "agentCards", Zod.VNum (agentCards c));
    (js "agentTabs", Zod.VNum (agentTabs c));
    (js "faqItems", Zod.VNum (faqItems c));
    (js "howItWorksSteps", Zod.VNum (howItWorksSteps c));
    (js "forms", Zod.VNum (forms c));
    (js "bankLogos", Zod.VNum (bankLogos c)) ].

(** [content[issue.path[0]]] in a template literal. *)
Definition got (c : contentCounts) (k : JS.str) : JS.str :=
  match Zod.get k (contentObject c) with
  | Some (Zod.VNum n) => JS.ofN n
  | _ => js "undefined"
  end.

(** The four parts the script reads from one card. *)
Definition cardLabel (card : element) : JS.str :=
  JS.trim (text (find [[Class (js "tracking-widest")]] card)).
Definition cardTitle (card : element) : JS.str :=
  JS.trim (text (find [[Tag (js "h4")]] card)).
Definition cardBody (card : element) : JS.str :=
  JS.trim (text (find [[Tag (js "p"); Not (Class (js "tracking-widest"))]] card)).
Definition cardTags (card : element) : N :=
  count (find [[Class (js "flex-wrap")]; [Tag (js "span")]] card).

(** [!label || !title || !body || tags < 3] *)
Definition cardIncomplete (card : element) : bool :=
  negb (JS.truthy (cardLabel card)) || negb (JS.truthy (cardTitle card))
  || negb (JS.truthy (cardBody card)) || (cardTags card <? 3).

(** The body of [$('.sobre-card').each((i, card) => ...)]. *)
Definition checkCard (i : N) (card : element) (r : reporter) : reporter :=
  if cardIncomplete card then
    fail (js "Agent card " ++ JS.ofN i ++ js " incomplete")
      (Some (js "label=" ++ dq ++ JS.substring0 20 (cardLabel card) ++ dq
             ++ js " title=" ++ dq ++ JS.substring0 20 (cardTitle card) ++ dq
             ++ js " tags=" ++ JS.ofN (cardTags card)))
      r
  else r.

Fixpoint eachCard (i : N) (cards : list element) (r : reporter) : reporter :=
  match cards with
  | [] => r
  | card :: rest => eachCard (i + 1) rest (checkCard i card r)
  end.

Definition agentCardsCheck (doc : document) (r : reporter) : reporter :=
  let r := eachCard 0 (select doc [[Class (js "sobre-card")]]) r in
  pass (js "All agent cards have label, title, body, and tags") r.

Definition contentGroup (doc : document) (r : reporter) : reporter :=
  let r := header (js "3. Content Structure") r in
  let c := content doc in
  let r :=
    reportIssues
      (js "Content structure valid (" ++ JS.ofN (agentCards c) ++ js " cards, "
         ++ JS.ofN (faqItems c) ++ js " FAQs, "
         ++ JS.ofN (howItWorksSteps c) ++ js " steps, "
         ++ JS.ofN (bankLogos c) ++ js " banks)")
      (js "Content: ")
      (fun i => Zod.message i ++ js " (got " ++ got c (Zod.path i) ++ js ")")
      (Zod.safeParse defaultMessage Zod.ContentSchema (contentObject c)) r in
  agentCardsCheck doc r.

(** ** 4. Asset files *)

Definition quote : Regex.re :=
  Regex.Chr (fun c => (c =? 39) || (c =? 34)).

(** The pattern [url\(Q?([^Q)\s]+)Q?\)] with the [g] flag, where [Q] is
    the class of the single and the double quote. *)
Definition urlRe : Regex.re :=
  Regex.Seq (Regex.Lit (js "url("))
    (Regex.Seq (Regex.Opt quote)
       (Regex.Seq
          (Regex.Group
             (Regex.Plus
                (Regex.Chr (fun c =>
                   negb ((c =? 39) || (c =? 34) || (c =? 41) || JS.isSpace c)))))
          (Regex.Seq (Regex.Opt quote) (Regex.Char 41)))).

(** The patterns [url\(Q?] and [Q?\)] of the two [replace] calls. *)
Definition urlOpenRe : Regex.re :=
  Regex.Seq (Regex.Lit (js "url(")) (Regex.Opt quote).
Definition urlCloseRe : Regex.re :=
  Regex.Seq (Regex.Opt quote) (Regex.Char 41).

Definition addImgSrc (s : list JS.str) (e : element) : list JS.str :=
  match attr (js "src") e with
  | Some src =>
      if JS.truthy src && negb (JS.startsWith src (js "http"))
         && negb (JS.startsWith src (js "data:"))
      then setAdd src s else s
  | None => s
  end.

Definition addLinkHref (s : list JS.str) (e : element) : list JS.str :=
  match attr (js "href") e with
  | Some href =>
      if JS.truthy href && negb (JS.startsWith href (js "http"))
         && negb (JS.startsWith href (js "#"))
      then setAdd href s else s
  | None => s
  end.

Definition addUrlMatch (s : list JS.str) (mt : JS.str) : list JS.str :=
  let url := Regex.replace urlCloseRe [] (Regex.replace urlOpenRe [] mt) in
  if negb (JS.startsWith url (js "http")) && negb (JS.startsWith url (js "data:"))
  then setAdd url s else s.

Definition localAssets (html : JS.str) (doc : document) : list JS.str :=
  let s := fold_left addImgSrc (select doc [[Tag (js "img"); HasAttr (js "src")]]) [] in
  let s := fold_left addLinkHref (select doc [[Tag (js "link"); HasAttr (js "href")]]) s in
  fold_left addUrlMatch (Regex.matchAll urlRe html) s.

Definition missingAssets (w : world) (html : JS.str) (doc : document)
  : list JS.str :=
  filter (fun asset => negb (existsSync w asset)) (localAssets html doc).

Definition assetGroup (w : world) (html : JS.str) (doc : document)
  (r : reporter) : reporter :=
  let r := header (js "4. Asset Files") r in
  match missingAssets w html doc with
  | [] =>
      pass (js "All " ++ JS.ofN (count (localAssets html doc))
              ++ js " local assets exist on disk") r
  | missing => forEach (fun a => fail (js "Missing asset: " ++ a) None) missing r
  end.

(** ** 5. Internal links *)

(** The pattern [\/$]. *)
Definition trailingSlashRe : Regex.re := Regex.Seq (Regex.Char 47) Regex.Eos.

Record linkLists := mkLinks {
  anchorLinks : list JS.str;
  relativeLinks : list JS.str
}.

(** The body of [$('a[href]').each(...)]; [None] is a thrown exception. *)
Definition checkLink (w : world) (doc : document) (acc : linkLists)
  (e : element) : option linkLists :=
  match attr (js "href") e with
  | None => None
  | Some href =>
      if JS.startsWith href (js "#") && negb (JS.eqb href (js "#")) then
        let targetId := JS.slice1 href in
        match parseSelector (js "#" ++ targetId) with
        | None => None
        | Some sel =>
            let exists_ := nonEmpty (select doc sel) in
            if negb exists_
            then Some (mkLinks (anchorLinks acc ++ [href]) (relativeLinks acc))
            else Some acc
        end
      else if negb (JS.startsWith href (js "http"))
              && negb (JS.startsWith href (js "mailto:"))
              && negb (JS.eqb href (js "#")) then
        let fullPath := Regex.replace trailingSlashRe (js "/index.html") href in
        if negb (existsSync w fullPath) then
          if negb (existsSync w href)
          then Some (mkLinks (anchorLinks acc) (relativeLinks acc ++ [href]))
          else Some acc
        else Some acc
      else Some acc
  end.

Fixpoint eachLink (w : world) (doc : document) (acc : linkLists)
  (links : list element) : option linkLists :=
  match links with
  | [] => Some acc
  | e :: rest =>
      match checkLink w doc acc e with
      | Some acc' => eachLink w doc acc' rest
      | None => None
      end
  end.

Definition brokenLinks (w : world) (doc : document) : option linkLists :=
  eachLink w doc (mkLinks [] []) (select doc [[Tag (js "a"); HasAttr (js "href")]]).

Definition reportLinks (l : linkLists) (r : reporter) : reporter :=
  let r :=
    match anchorLinks l with
    | [] => pass (js "All anchor links resolve to existing IDs") r
    | broken => forEach (fun x => fail (js "Broken anchor: " ++ x) None) broken r
    end in
  match relativeLinks l with
  | [] => pass (js "All relative links point to existing files") r
  | broken => forEach (fun x => fail (js "Broken relative link: " ++ x) None) broken r
  end.

(** ** 6. Image accessibility and performance *)

(** The pattern [.*\/] of [src.replace(/.*\//, '')]. *)
Definition dirPartRe : Regex.re :=
  Regex.Seq (Regex.Star true Regex.dot) (Regex.Char 47).

Record imgIssues := mkImgIssues {
  missingAlt : list JS.str;
  lazyWithoutDimensions : list JS.str
}.

(** The body of [$('img').each(...)]. *)
Definition checkImage (issues : imgIssues) (e : element) : imgIssues :=
  let src := JS.orEmpty (attr (js "src") e) in
  let alt := attr (js "alt") e in
  let width := attr (js "width") e in
  let height := attr (js "height") e in
  let loading := attr (js "loading") e in
  if JS.startsWith src (js "data:") || negb (JS.truthy src) then issues
  else
    let isSvg := JS.endsWith src (js ".svg") in
    let issues :=
      match alt with
      | None =>
          mkImgIssues (missingAlt issues ++ [Regex.replace dirPartRe [] src])
            (lazyWithoutDimensions issues)
      | Some _ => issues
      end in
    if match loading with Some l => JS.eqb l (js "lazy") | None => false end
       && (negb (JS.truthyOpt width) || negb (JS.truthyOpt height))
       && negb isSvg
    then mkImgIssues (missingAlt issues)
           (lazyWithoutDimensions issues ++ [Regex.replace dirPartRe [] src])
    else issues.

(** The conditions of [checkImage], named for the statements about it:
    the image is not skipped by the early [return]; [alt] is [undefined];
    [loading === 'lazy' && (!width || !height)]; the source ends in
    [.svg]; and the name the script reports the image under. *)
Definition inspected (e : element) : bool :=
  negb (JS.startsWith (JS.orEmpty (attr (js "src") e)) (js "data:")
        || negb (JS.truthy (JS.orEmpty (attr (js "src") e)))).
Definition lacksAlt (e : element) : bool :=
  match attr (js "alt") e with None => true | Some _ => false end.
Definition lazyNoDims (e : element) : bool :=
  match attr (js "loading") e with Some l => JS.eqb l (js "lazy") | None => false end
  && (negb (JS.truthyOpt (attr (js "width") e))
      || negb (JS.truthyOpt (attr (js "height") e))).
Definition isSvg (e : element) : bool :=
  JS.endsWith (JS.orEmpty (attr (js "src") e)) (js ".svg").
Definition fileName (e : element) : JS.str :=
  Regex.replace dirPartRe [] (JS.orEmpty (attr (js "src") e)).

Definition collectImgIssues (doc : document) : imgIssues :=
  fold_left checkImage (select doc [[Tag (js "img")]]) (mkImgIssues [] []).

Definition imageGroup (doc : document) (r : reporter) : reporter :=
  let r := header (js "6. Images") r in
  let issues := collectImgIssues doc in
  let r :=
    match missingAlt issues with
    | [] => pass (js "All images have alt attributes") r
    | l => forEach (fun i => fail (js "Missing alt: " ++ i) None) l r
    end in
  match lazyWithoutDimensions issues with
  | [] => pass (js "All lazy-loaded images have width/height") r
  | l =>
      forEach (fun i =>
        fail (js "Lazy image without dimensions: " ++ i)
          (Some (js "Browser may not load images in collapsed containers"))) l r
  end.

(** ** 7. Translations and the other checks on the inline scripts *)

Definition allJs (doc : document) : JS.str :=
  JS.join [10]
    (map (fun e => JS.orEmpty (Some (html e)))
       (select doc [[Tag (js "script"); Not (HasAttr (js "src"))]])).

Definition translations (code : JS.str) : list (JS.str * Zod.value) :=
  map (fun k => (js k, Zod.VBool (JS.includes code (js k)))) Zod.translationKeys.

Definition hasLocalStorageLang (code : JS.str) : bool :=
  JS.includes code (js "localStorage.getItem('zenLang')")
  || JS.includes code (js "localStorage.getItem(" ++ dq ++ js "zenLang" ++ dq ++ js ")").

Definition defaultLangIsPt (code : JS.str) : bool :=
  JS.includes code (js "let currentLang = 'pt'")
  || JS.includes code (js "let currentLang = " ++ dq ++ js "pt" ++ dq).

Definition localStorageCheck (code : JS.str) : reporter -> reporter :=
  check (js "No localStorage language auto-restore on load")
    (negb (hasLocalStorageLang code))
    (Some (js "Page must always open in Portuguese")).

Definition defaultLangCheck (code : JS.str) : reporter -> reporter :=
  check (js "Default currentLang is " ++ dq ++ js "pt" ++ dq)
    (defaultLangIsPt code) None.

Definition translationGroup (doc : document) (r : reporter) : reporter :=
  let r := header (js "7. Translations") r in
  let code := allJs doc in
  let r :=
    reportIssues (js "All 14 translation objects present") (js "Translation: ")
      Zod.message
      (Zod.safeParse defaultMessage Zod.TranslationSchema (translations code)) r in
  let r := check (js "initI18n() function exists")
             (JS.includes code (js "function initI18n()")) None r in
  let r := check (js "switchLang() function exists")
             (JS.includes code (js "function switchLang(")) None r in
  let r := check (js "translateIllustrations() function exists")
             (JS.includes code (js "function translateIllustrations(")) None r in
  let r := check (js "restartChat() function exists")
             (JS.includes code (js "function restartChat()")) None r in
  let r := check (js "chatAnimationTimeouts tracking array exists")
             (JS.includes code (js "chatAnimationTimeouts")) None r in
  let r := check (js "trackTimeout() helper exists")
             (JS.includes code (js "function trackTimeout(")) None r in
  let r := localStorageCheck code r in
  defaultLangCheck code r.

(** ** 8. Chat data *)

(** The tail [\s*=\s*\[([\s\S]*?)\];\s*\n] both patterns share. *)
Definition arrayLiteralRe : Regex.re :=
  Regex.Seq (Regex.Star true Regex.space)
    (Regex.Seq (Regex.Char 61)
       (Regex.Seq (Regex.Star true Regex.space)
          (Regex.Seq (Regex.Char 91)
             (Regex.Seq (Regex.Group (Regex.Star false Regex.anyChar))
                (Regex.Seq (Regex.Lit (js "];"))
                   (Regex.Seq (Regex.Star true Regex.space) (Regex.Char 10))))))).

(** [/var chatData\s*=\s*\[([\s\S]*?)\];\s*\n/] *)
Definition ptChatRe : Regex.re :=
  Regex.Seq (Regex.Lit (js "var chatData")) arrayLiteralRe.

(** [/(?:const|var|let)\s+chatDataEN\s*=\s*\[([\s\S]*?)\];\s*\n/] *)
Definition enChatRe : Regex.re :=
  Regex.Seq
    (Regex.Alt (Regex.Lit (js "const"))
       (Regex.Alt (Regex.Lit (js "var")) (Regex.Lit (js "let"))))
    (Regex.Seq (Regex.Plus Regex.space)
       (Regex.Seq (Regex.Lit (js "chatDataEN")) arrayLiteralRe)).

(** [/\{\s*messages:/g] *)
Definition messagesRe : Regex.re :=
  Regex.Seq (Regex.Char 123)
    (Regex.Seq (Regex.Star true Regex.space) (Regex.Lit (js "messages:"))).

(** [match[1]] of a pattern with one group, [None] when there is no match. *)
Definition group1 (re : Regex.re) (code : JS.str) : option JS.str :=
  match Regex.exec re code with
  | Some f => Some (JS.orEmpty (Regex.capture f))
  | None => None
  end.

Definition ptChatMatch (code : JS.str) : option JS.str := group1 ptChatRe code.
Definition enChatMatch (code : JS.str) : option JS.str := group1 enChatRe code.

(** [(body.match(/\{\s*messages:/g) || []).length] *)
Definition convCount (body : JS.str) : N :=
  count (Regex.matchAll messagesRe body).

Definition ptChatCheck (code : JS.str) (r : reporter) : reporter :=
  match ptChatMatch code with
  | Some body =>
      let ptConvCount := convCount body in
      check (js "PT chat data has 4 conversations") (ptConvCount =? 4)
        (Some (js "Found " ++ JS.ofN ptConvCount)) r
  | None => fail (js "PT chatData not found") None r
  end.

Definition enChatCheck (code : JS.str) (r : reporter) : reporter :=
  match enChatMatch code with
  | Some body =>
      let enConvCount := convCount body in
      check (js "EN chat data has 4 conversations") (enConvCount =? 4)
        (Some (js "Found " ++ JS.ofN enConvCount)) r
  | None => fail (js "EN chatDataEN not found") None r
  end.

Definition chatGroup (doc : document) (r : reporter) : reporter :=
  let r := header (js "8. Chat Data") r in
  let r := ptChatCheck (allJs doc) r in
  enChatCheck (allJs doc) r.

(** ** 9. Legal and compliance *)

Definition linkContaining (doc : document) (fragment : string) : bool :=
  nonEmpty (select doc [[Tag (js "a"); AttrContains (js "href") (js fragment)]]).

Definition legalGroup (doc : document) (r : reporter) : reporter :=
  let r := header (js "9. Legal & Compliance") r in
  let r := check (js "Privacy policy link exists")
             (linkContaining doc "privacidade") None r in
  let r := check (js "Data retention PDF linked")
             (linkContaining doc "politica-retencao-dados") None r in
  let r := check (js "Incident reporting PDF linked")
             (linkContaining doc "politica-reporte-incidentes") None r in
  let footerText := text (select doc [[Tag (js "footer")]]) in
  let r := check (js "CNPJ present in footer")
             (JS.includes footerText (js "63.740.359/0001-15")) None r in
  let r := check (js "Company name in footer")
             (JS.includes footerText (js "AIZEN TECNOLOGIA")) None r in
  let r := check (js "Correspondente Banc" ++ [225] ++ js "rio disclosure")
             (JS.includes footerText (js "Correspondente Banc" ++ [225] ++ js "rio"))
             None r in
  let allText := text (select doc [[Tag (js "body")]]) in
  check (js "Form consent text present")
    (JS.includes allText (js "concorda em receber mensagens")) None r.

(** ** 10. Typography and content quality *)

(** [/(?:TODO|FIXME|HACK|XXX)(?:\s|:)/i] *)
Definition todoRe : Regex.re :=
  Regex.Seq
    (Regex.Alt (Regex.LitI (js "TODO"))
       (Regex.Alt (Regex.LitI (js "FIXME"))
          (Regex.Alt (Regex.LitI (js "HACK")) (Regex.LitI (js "XXX")))))
    (Regex.Alt Regex.space (Regex.Char 58)).

(** The pattern of the em dash, U+2014. *)
Definition emDashRe : Regex.re := Regex.Char 8212.

Definition qualityGroup (html : JS.str) (doc : document) (r : reporter)
  : reporter :=
  let r := header (js "10. Content Quality") r in
  let hasAleah := JS.includes (JS.toLowerCase html) (js "aleah") in
  let r := check (js "No references to old name " ++ dq ++ js "Aleah" ++ dq)
             (negb hasAleah) (Some (js "Product was renamed to Zen")) r in
  let hasTodos := Regex.test todoRe html in
  let r := if hasTodos
           then warn (js "Found TODO/FIXME/HACK comments in HTML") None r
           else pass (js "No TODO/FIXME/HACK comments") r in
  let hasEmDash := Regex.test emDashRe (text (select doc [[Tag (js "body")]])) in
  let r := if hasEmDash
           then warn (js "Em dashes found in visible text (style guide prefers periods/commas)")
                  None r
           else pass (js "No em dashes in visible text") r in
  let r := if JS.includes html (js "5511999999999")
           then warn (js "WhatsApp uses placeholder number (5511999999999)")
                  (Some (js "Replace before launch")) r
           else pass (js "WhatsApp number is not a placeholder") r in
  let socialPlaceholders :=
    count (select doc [[Tag (js "footer")]; [Tag (js "a"); AttrEq (js "href") (js "#")]]) in
  if 0 <? socialPlaceholders
  then warn (JS.ofN socialPlaceholders ++ js " placeholder social links (href="
               ++ dq ++ js "#" ++ dq ++ js ") in footer")
         (Some (js "Add real social URLs before launch")) r
  else pass (js "All footer links have real URLs") r.

(** ** 11. External dependencies *)

Definition requiredCDNs : list JS.str :=
  [ js "cdn.tailwindcss.com"; js "fonts.googleapis.com";
    js "cdnjs.cloudflare.com/ajax/libs/gsap"; js "unpkg.com/lucide";
    js "iconify"; js "lenis" ].

Definition cdnGroup (html : JS.str) (r : reporter) : reporter :=
  let r := header (js "11. External Dependencies") r in
  forEach (fun cdn => check (js "CDN loaded: " ++ cdn) (JS.includes html cdn) None)
    requiredCDNs r.

(** ** Summary *)

Definition banner (s : status) : JS.str :=
  match s with
  | Failure =>
      [10] ++ ESC ++ js "[31m" ++ cross
      ++ js " VALIDATION FAILED - Fix issues before deploying" ++ ESC ++ js "[0m" ++ [10]
  | SuccessWithWarnings =>
      [10] ++ ESC ++ js "[33m" ++ warnSign
      ++ js " PASSED WITH WARNINGS - Review before deploying" ++ ESC ++ js "[0m" ++ [10]
  | Success =>
      [10] ++ ESC ++ js "[32m" ++ tick
      ++ js " ALL CHECKS PASSED - Ready to deploy" ++ ESC ++ js "[0m" ++ [10]
  end.

Definition summary (r : reporter) : result :=
  let r := logResults r in
  if 0 <? failed r then Exited 1 (log (banner Failure) r)
  else if 0 <? warnings r then Exited 0 (log (banner SuccessWithWarnings) r)
  else Exited 0 (log (banner Success) r).

(** ** The whole script, from a reporter [r] ([init] at the top level) *)

Definition runFrom (w : world) (r : reporter) : result :=
  match readFile w (js "index.html") with
  | None => Uncaught r
  | Some html =>
      let doc := parse html in
      let r := metaGroup doc r in
      let r := sectionGroup doc r in
      let r := contentGroup doc r in
      let r := assetGroup w html doc r in
      let r := header (js "5. Internal Links") r in
      match brokenLinks w doc with
      | None => Uncaught r
      | Some links =>
          let r := reportLinks links r in
          let r := imageGroup doc r in
          let r := translationGroup doc r in
          let r := chatGroup doc r in
          let r := legalGroup doc r in
          let r := qualityGroup html doc r in
          let r := cdnGroup html r in
          summary r
      end
  end.

Definition run (w : world) : result := runFrom w init.
End Run.
End Validator.

(* ================================================================== *)
(** * The Behavioral Prober, the Playwright script *)
(* ================================================================== *)

Module Prober.

Import Reporter.

Record viewport := mkViewport {
  vname : JS.str;
  width : N;
  height : N
}.

Definition VIEWPORTS : list viewport :=
  [ mkViewport (js "Mobile (iPhone 14)") 390 844;
    mkViewport (js "Tablet (iPad)") 768 1024;
    mkViewport (js "Desktop") 1280 800;
    mkViewport (js "Wide Desktop") 1920 1080 ].

Record route := mkRoute {
  rname : JS.str;
  rpath : JS.str
}.

Definition PAGES : list route :=
  [ mkRoute (js "Home") (js "/");
    mkRoute (js "Privacy Policy") (js "/privacidade/");
    mkRoute (js "Privacy PDF") (js "/legal/politica-privacidade.html") ].

(** What an awaited call to the browser gives: a value, or an exception with
    its [message]. *)
Inductive outcome (A : Type) :=
| Returned (a : A)
| Thrown (message : JS.str).
Arguments Returned {A} a.
Arguments Thrown {A} message.

(** The object the phone-mockup probe returns when the element is found. *)
Record phone := mkPhone {
  display : JS.str;
  phoneWidth : Q;
  phoneHeight : Q
}.

(** The object the two language probes return. *)
Record langState := mkLangState {
  lang : JS.str;
  title : JS.str;
  h1 : option JS.str
}.

Record chatState := mkChatState {
  messageCount : N;
  hasTimeout : bool;
  trackingArray : bool
}.

Record resources := mkResources {
  resourceCount : N;
  totalKB : Z
}.

(** The browser and the site behind it: one field for every awaited call of
    the script whose result the script reads or which may throw. Probes that
    return a value used only for its truthiness give a [bool]. *)
Record browser := mkBrowser {
  argv2 : option JS.str;
  launch : outcome unit;
  (* 1. page load, by URL *)
  loadGoto : JS.str -> outcome (option Z);
  pageErrors : JS.str -> list JS.str;
  (* 2. responsive layout, by viewport *)
  layoutGoto : viewport -> outcome unit;
  overflow : viewport -> outcome (Z * Z);
  navVisible : viewport -> outcome bool;
  phoneCheck : viewport -> outcome (option phone);
  footerVisible : viewport -> outcome bool;
  (* 3. images *)
  imgGoto : outcome unit;
  scrollPage : outcome unit;
  brokenImages : outcome (list JS.str);
  (* 4. language switching *)
  langGoto : outcome unit;
  defaultLang : outcome JS.str;
  switchEn : outcome unit;
  enState : outcome langState;
  switchPt : outcome unit;
  ptState : outcome langState;
  stressErrors : outcome (list JS.str);
  (* 5. chat animation *)
  animGoto : outcome unit;
  chatProbe : outcome chatState;
  messagesAfterRestart : outcome N;
  (* 6. interactive elements *)
  interGoto : outcome unit;
  faqWorks : outcome bool;
  tabsWork : outcome bool;
  formWorks : outcome bool;
  scrollWorks : outcome bool;
  (* 7. performance *)
  startTime : Z;
  perfGoto : outcome unit;
  endTime : Z;
  resourceProbe : outcome resources
}.

(** The state of a run: the reporter and the browsing contexts that are
    open, the latest first. *)
Record pstate := mkState {
  rep : reporter;
  contexts : list JS.str
}.

Definition start : pstate := mkState init [].

(** An [async] computation of the script: it ends with a value or with an
    exception, and changes the state on the way. *)
Definition P (A : Type) : Type := pstate -> outcome A * pstate.

Definition ret {A} (a : A) : P A := fun s => (Returned a, s).

Definition bind {A B} (c : P A) (f : A -> P B) : P B :=
  fun s =>
    match c s with
    | (Returned a, s') => f a s'
    | (Thrown e, s') => (Thrown e, s')
    end.

Declare Scope prober_scope.
Delimit Scope prober_scope with prober.
Notation "x <- c1 ;; c2" := (bind c1 (fun x => c2))
  (at level 61, c1 at next level, right associativity) : prober_scope.
Notation "c1 ;; c2" := (bind c1 (fun _ => c2))
  (at level 61, right associativity) : prober_scope.
Local Open Scope prober_scope.

(** [await call] *)
Definition await {A} (o : outcome A) : P A := fun s => (o, s).

(** A call of [pass], [fail], [warn] or [console.log]. *)
Definition report (f : reporter -> reporter) : P unit :=
  fun s => (Returned tt, mkState (f (rep s)) (contexts s)).

(** [try { body } catch (e) { handler(e.message) }] *)
Definition tryCatch {A} (body : P A) (handler : JS.str -> P A) : P A :=
  fun s =>
    match body s with
    | (Returned a, s') => (Returned a, s')
    | (Thrown e, s') => handler e s'
    end.

(** [for (const x of xs) { body }] *)
Fixpoint forOf {A} (xs : list A) (body : A -> P unit) : P unit :=
  match xs with
  | [] => ret tt
  | x :: rest => body x ;; forOf rest body
  end.

(** [browser.newContext(...)] with [context.newPage()], and
    [context.close()], when the calls return: this module is the run of the
    script on a browser that gives and closes every context it is asked
    for, and its exceptions are those of the probes. The same calls on a
    browser that may reject them are in [Session]. *)
Definition newContext (name : JS.str) : P unit :=
  fun s => (Returned tt, mkState (rep s) (name :: contexts s)).

Fixpoint removeFirst (name : JS.str) (l : list JS.str) : list JS.str :=
  match l with
  | [] => []
  | x :: l' => if JS.eqb x name then l' else x :: removeFirst name l'
  end.

Definition closeContext (name : JS.str) : P unit :=
  fun s => (Returned tt, mkState (rep s) (removeFirst name (contexts s))).

(** [if (c) pass(ok) else fail(ko, detail)] *)
Definition passOrFail (c : bool) (ok ko : JS.str) (detail : option JS.str)
  : P unit :=
  report (if c then pass ok else fail ko detail).

(** [if (l.length === 0) pass(ok) else l.forEach(e => fail(ko, e))] *)
Definition passOrFailEach (l : list JS.str) (ok : JS.str)
  (ko : JS.str -> JS.str) (detail : JS.str -> option JS.str) : P unit :=
  report (match l with
          | [] => pass ok
          | _ => forEach (fun e => fail (ko e) (detail e)) l
          end).

Definition header (title : JS.str) : P unit :=
  report (log ([10] ++ ESC ++ js "[1m" ++ title ++ ESC ++ js "[0m")).

(** An awaited call threw. *)
Definition threw {A} (o : outcome A) : bool :=
  match o with
  | Thrown _ => true
  | Returned _ => false
  end.

(** A computation under which no counter goes down, however it ends. *)
Definition growing {A} (c : P A) : Prop :=
  forall s, grows (rep s) (rep (snd (c s))).


Definition dq : JS.str := [34].

(** [JSON.stringify] of a string. *)
Definition hexDigit (d : N) : N := if d <? 10 then 48 + d else 87 + d.
Definition escapeU (c : N) : JS.str :=
  [92; 117; hexDigit (c / 4096 mod 16); hexDigit (c / 256 mod 16);
   hexDigit (c / 16 mod 16); hexDigit (c mod 16)].
Definition isHighSurrogate (c : N) : bool := (55296 <=? c) && (c <=? 56319).
Definition isLowSurrogate (c : N) : bool := (56320 <=? c) && (c <=? 57343).

Fixpoint quoteChars (s : JS.str) : JS.str :=
  match s with
  | [] => []
  | c :: s' =>
      if isHighSurrogate c then
        match s' with
        | d :: s'' =>
            if isLowSurrogate d then c :: d :: quoteChars s''
            else escapeU c ++ quoteChars s'
        | [] => escapeU c
        end
      else if isLowSurrogate c then escapeU c ++ quoteChars s'
      else if c =? 34 then [92; 34] ++ quoteChars s'
      else if c =? 92 then [92; 92] ++ quoteChars s'
      else if c =? 8 then [92; 98] ++ quoteChars s'
      else if c =? 12 then [92; 102] ++ quoteChars s'
      else if c =? 10 then [92; 110] ++ quoteChars s'
      else if c =? 13 then [92; 114] ++ quoteChars s'
      else if c =? 9 then [92; 116] ++ quoteChars s'
      else if c <? 32 then escapeU c ++ quoteChars s'
      else c :: quoteChars s'
  end.

Definition jsonString (s : JS.str) : JS.str := dq ++ quoteChars s ++ dq.

(** [JSON.stringify(state)]: a key whose value is [undefined] is left out. *)
Definition jsonLangState (st : langState) : JS.str :=
  js "{" ++ dq ++ js "lang" ++ dq ++ js ":" ++ jsonString (lang st)
  ++ js "," ++ dq ++ js "title" ++ dq ++ js ":" ++ jsonString (title st)
  ++ match h1 st with
     | Some h => js "," ++ dq ++ js "h1" ++ dq ++ js ":" ++ jsonString h
     | None => []
     end
  ++ js "}".

(** [Math.round(x)] *)
Definition round (x : Q) : Z := Qfloor (x + (1 # 2)).

(** [x > 0] *)
Definition positive (x : Q) : bool := negb (Qle_bool x 0).

(** A status in a template literal. *)
Definition showStatus (status : option Z) : JS.str :=
  match status with
  | Some n => JS.ofZ n
  | None => js "undefined"
  end.

(** [h?.includes(word)] as a condition. *)
Definition optIncludes (h : option JS.str) (word : JS.str) : bool :=
  match h with Some x => JS.includes x word | None => false end.

Section Run.
Variable b : browser.

(** [process.argv[2] || 'http://localhost:8765'] *)
Definition BASE_URL : JS.str :=
  match argv2 b with
  | Some (c :: u) => c :: u
  | _ => js "http://localhost:8765"
  end.

(** ** 1. Page load: the body of the loop over [PAGES] *)

Definition loadProbe (pg : route) : P unit :=
  status <- await (loadGoto b (BASE_URL ++ rpath pg)) ;;
  passOrFail (match status with Some 200%Z => true | _ => false end)
    (rname pg ++ js " loads (HTTP " ++ showStatus status ++ js ")")
    (rname pg ++ js " load") (Some (js "HTTP " ++ showStatus status)) ;;
  passOrFailEach (pageErrors b (BASE_URL ++ rpath pg))
    (rname pg ++ js " - no JS errors")
    (fun _ => rname pg ++ js " JS error") (fun e => Some e).

Definition loadCheck (pg : route) : P unit :=
  newContext (rname pg) ;;
  tryCatch (loadProbe pg)
    (fun message => report (fail (rname pg ++ js " load") (Some message))) ;;
  closeContext (rname pg).

Definition loadGroup : P unit :=
  report (log (ESC ++ js "[1m1. Page Load" ++ ESC ++ js "[0m")) ;;
  forOf PAGES loadCheck.

(** ** 2. Responsive layout: the body of the loop over [VIEWPORTS] *)

Definition layoutCheck (vp : viewport) : P unit :=
  newContext (vname vp) ;;
  await (layoutGoto b vp) ;;
  ov <- await (overflow b vp) ;;
  passOrFail (fst ov <=? snd ov)%Z
    (vname vp ++ js " (" ++ JS.ofN (width vp) ++ js "px) - no horizontal overflow")
    (vname vp ++ js " (" ++ JS.ofN (width vp) ++ js "px) - horizontal overflow")
    (Some (js "body=" ++ JS.ofZ (fst ov) ++ js "px > viewport="
           ++ JS.ofZ (snd ov) ++ js "px")) ;;
  nav <- await (navVisible b vp) ;;
  passOrFail nav (vname vp ++ js " - nav visible")
    (vname vp ++ js " - nav not visible") None ;;
  ph <- await (phoneCheck b vp) ;;
  report
    (match ph with
     | Some f =>
         if negb (JS.eqb (display f) (js "none")) && positive (phoneWidth f)
         then pass (vname vp ++ js " - phone mockup visible ("
                      ++ JS.ofZ (round (phoneWidth f)) ++ js "x"
                      ++ JS.ofZ (round (phoneHeight f)) ++ js ")")
         else fail (vname vp ++ js " - phone mockup hidden or collapsed") None
     | None => fail (vname vp ++ js " - phone mockup hidden or collapsed") None
     end) ;;
  foot <- await (footerVisible b vp) ;;
  passOrFail foot (vname vp ++ js " - footer accessible")
    (vname vp ++ js " - footer not accessible") None ;;
  closeContext (vname vp).

Definition layoutGroup : P unit :=
  header (js "2. Responsive Layout") ;;
  forOf VIEWPORTS layoutCheck.

(** ** 3. Images *)

Definition imageGroup : P unit :=
  header (js "3. Images") ;;
  newContext (js "imgContext") ;;
  await (imgGoto b) ;;
  await (scrollPage b) ;;
  broken <- await (brokenImages b) ;;
  passOrFailEach broken (js "All images loaded after full scroll")
    (fun img => js "Broken image: " ++ img) (fun _ => None) ;;
  closeContext (js "imgContext").

(** ** 4. Language switching *)

Definition langGroup : P unit :=
  header (js "4. Language Switching") ;;
  newContext (js "langContext") ;;
  await (langGoto b) ;;
  dl <- await (defaultLang b) ;;
  passOrFail (JS.eqb dl (js "pt-BR")) (js "Default language is pt-BR")
    (js "Default language") (Some (js "Expected pt-BR, got " ++ dl)) ;;
  await (switchEn b) ;;
  en <- await (enState b) ;;
  passOrFail (JS.eqb (lang en) (js "en") && optIncludes (h1 en) (js "Your financial"))
    (js "Switch to English works") (js "Switch to English")
    (Some (jsonLangState en)) ;;
  await (switchPt b) ;;
  pt <- await (ptState b) ;;
  passOrFail (JS.eqb (lang pt) (js "pt-BR") && optIncludes (h1 pt) (js "Sua vida"))
    (js "Switch back to Portuguese works") (js "Switch back to Portuguese")
    (Some (jsonLangState pt)) ;;
  errs <- await (stressErrors b) ;;
  passOrFailEach errs (js "Rapid language switching (10 cycles) - no errors")
    (fun _ => js "Stress test error") (fun e => Some e) ;;
  closeContext (js "langContext").

(** ** 5. Chat animation *)

Definition animGroup : P unit :=
  header (js "5. Chat Animation") ;;
  newContext (js "animContext") ;;
  await (animGoto b) ;;
  cs <- await (chatProbe b) ;;
  passOrFail (0 <? messageCount cs)
    (js "Chat animation running (" ++ JS.ofN (messageCount cs)
       ++ js " messages visible)")
    (js "Chat animation not running") None ;;
  passOrFail (hasTimeout cs) (js "Chat cycle timeout is set")
    (js "Chat cycle timeout missing") None ;;
  passOrFail (trackingArray cs) (js "Animation timeout tracking array exists")
    (js "Animation timeout tracking missing") None ;;
  after <- await (messagesAfterRestart b) ;;
  passOrFail (0 <? after) (js "Chat restarts cleanly with new messages")
    (js "Chat restart produced no messages") None ;;
  closeContext (js "animContext").

(** ** 6. Interactive elements *)

Definition interGroup : P unit :=
  header (js "6. Interactive Elements") ;;
  newContext (js "interContext") ;;
  await (interGoto b) ;;
  faq <- await (faqWorks b) ;;
  report (if faq then pass (js "FAQ accordion opens on click")
          else warn (js "FAQ accordion may not be working (check manually)") None) ;;
  tabs <- await (tabsWork b) ;;
  passOrFail tabs (js "Agent tabs are clickable") (js "Agent tabs not working") None ;;
  form <- await (formWorks b) ;;
  passOrFail form (js "Hero form accepts input") (js "Hero form input broken") None ;;
  scroll <- await (scrollWorks b) ;;
  report (if scroll then pass (js "Navigation scrolls to sections")
          else warn (js "Smooth scroll may not be working (check manually)") None) ;;
  closeContext (js "interContext").

(** ** 7. Performance *)

Definition perfGroup : P unit :=
  header (js "7. Performance") ;;
  newContext (js "perfContext") ;;
  await (perfGoto b) ;;
  let loadTime := (endTime b - startTime b)%Z in
  report
    (if (loadTime <? 3000)%Z
     then pass (js "Page load: " ++ JS.ofZ loadTime ++ js "ms")
     else if (loadTime <? 5000)%Z
     then warn (js "Page load: " ++ JS.ofZ loadTime ++ js "ms")
            (Some (js "Consider optimizing"))
     else fail (js "Page load: " ++ JS.ofZ loadTime ++ js "ms")
            (Some (js "Too slow"))) ;;
  res <- await (resourceProbe b) ;;
  report
    (if (totalKB res <? 5000)%Z
     then pass (js "Total resources: " ++ JS.ofN (resourceCount res)
                  ++ js " files, " ++ JS.ofZ (totalKB res) ++ js "KB")
     else warn (js "Total resources: " ++ JS.ofN (resourceCount res)
                  ++ js " files, " ++ JS.ofZ (totalKB res) ++ js "KB")
            (Some (js "Page is heavy"))) ;;
  closeContext (js "perfContext").

(** ** Summary *)

Definition banner (s : status) : JS.str :=
  match s with
  | Failure =>
      [10] ++ ESC ++ js "[31m" ++ cross ++ js " BROWSER QA FAILED"
      ++ ESC ++ js "[0m" ++ [10]
  | SuccessWithWarnings =>
      [10] ++ ESC ++ js "[33m" ++ warnSign ++ js " PASSED WITH WARNINGS"
      ++ ESC ++ js "[0m" ++ [10]
  | Success =>
      [10] ++ ESC ++ js "[32m" ++ tick ++ js " ALL BROWSER CHECKS PASSED"
      ++ ESC ++ js "[0m" ++ [10]
  end.

(** How a run ends: [process.exit(code)] in the summary, or the handler of
    [run().catch], which prints the message and exits with code 1. *)
Inductive result :=
| Exited (code : Z) (s : pstate)
| Fatal (message : JS.str) (s : pstate).

Definition stateOf (x : result) : pstate :=
  match x with Exited _ s => s | Fatal _ s => s end.

Definition exitOf (x : result) : Z :=
  match x with Exited c _ => c | Fatal _ _ => 1%Z end.

Definition summary (r : reporter) : Z * reporter :=
  let r := logResults r in
  if 0 <? failed r then (1%Z, log (banner Failure) r)
  else if 0 <? warnings r then (0%Z, log (banner SuccessWithWarnings) r)
  else (0%Z, log (banner Success) r).

(** The check groups of [run()], in order, between the launch of the
    browser and [browser.close()]. *)
Definition groups : P unit :=
  loadGroup ;; layoutGroup ;; imageGroup ;; langGroup ;; animGroup ;;
  interGroup ;; perfGroup.

(** [async function run()], up to the summary. *)
Definition body : P unit :=
  report (log ([10] ++ ESC ++ js "[1mBrowser QA - " ++ BASE_URL ++ ESC
                 ++ js "[0m" ++ [10])) ;;
  await (launch b) ;;
  groups.

(** [run().catch(err => { console.error(...); process.exit(1); })] from a
    state [s] ([start] at the top level). [await browser.close()], between
    the last group and the summary, is taken to return, like the calls that
    open and close a context. *)
Definition runFrom (s : pstate) : result :=
  match body s with
  | (Returned _, s') =>
      let (code, r) := summary (rep s') in
      Exited code (mkState r (contexts s'))
  | (Thrown message, s') => Fatal message s'
  end.

Definition run : result := runFrom start.
End Run.

End Prober.

(* ================================================================== *)
(** * Concrete documents and browsers *)
(* ================================================================== *)

Module Samples.

Import Dom.

(** An element written with ASCII names and attribute values. *)
Definition el (n : string) (a : list (string * string)) (ch : list node)
  : node :=
  Elem (js n) (map (fun p => (js (fst p), js (snd p))) a) ch.

Local Open Scope string_scope.

(** [<div class="sobre-card"></div>]: one agent card with nothing in it. *)
Definition emptyCardDoc : document :=
  [ el "div" [("class", "sobre-card")] [] ].

(** [<img src="data:image/gif;base64,R0lGOD">] and [<img loading="lazy">]:
    an inline image without [alt], and a lazy image without a source and
    without dimensions. *)
Definition dataImage : node :=
  el "img" [("src", "data:image/gif;base64,R0lGOD")] [].
Definition lazyNoSource : node :=
  el "img" [("loading", "lazy")] [].
Definition skippedImagesDoc : document := [ dataImage; lazyNoSource ].

(** Three images the script inspects: [<img src="img/hero.png"
    loading="lazy">], the same with an [.svg] source, and one with an empty
    [alt] and both dimensions. *)
Definition imagesDoc : document :=
  [ el "img" [("src", "img/hero.png"); ("loading", "lazy")] [];
    el "img" [("src", "img/logo.svg"); ("loading", "lazy")] [];
    el "img" [("src", "img/bank.png"); ("alt", ""); ("loading", "lazy");
              ("width", "40"); ("height", "40")] [] ].

(** A script with the Portuguese conversations only: the assignment
    [var chatData = [ ... ];] with four [{ messages: ... }] objects. *)
Definition ptOnlyScript : JS.str :=
  (js "var chatData = [" ++ [10%N]
   ++ js "  { messages: ['oi'] }, {messages: ['a']}," ++ [10%N]
   ++ js "  { messages: ['b'] }, {  messages: ['c'] }" ++ [10%N]
   ++ js "];" ++ [10%N])%list.

(** A script with both arrays, four conversations each. *)
Definition bothScript : JS.str :=
  (js "var chatData = [{ messages: 1 }, { messages: 2 }, { messages: 3 }, { messages: 4 }];"
   ++ [10%N]
   ++ js "const chatDataEN = [{ messages: 1 }, { messages: 2 }, { messages: 3 }, { messages: 4 }];"
   ++ [10%N])%list.

(** A script with the English conversations only, three of them. *)
Definition enOnlyScript : JS.str :=
  (js "const chatDataEN = [{ messages: ['hi'] }, { messages: ['a'] }, { messages: ['b'] }];"
   ++ [10%N])%list.

(** A page that refers to the missing [img/missing.png] three times, from
    two images and a CSS [url(...)], and once to the missing [css/site.css]. *)
Definition repeatedAssetDoc : document :=
  [ el "img" [("src", "img/missing.png")] [];
    el "link" [("href", "css/site.css")] [];
    el "img" [("src", "img/missing.png")] [] ].
Definition repeatedAssetHtml : JS.str :=
  js "<div style='background: url(img/missing.png)'></div>".


(** The run-time selector parser on the selectors [#name]. *)
Definition idSelector (s : JS.str) : option selector :=
  match s with
  | 35%N :: i => Some [[Id i]]
  | _ => None
  end.

(** Two file systems with the same [index.html] and the same files present
    that differ in what another file holds. *)
Definition siteFiles (other : option JS.str) : Validator.world :=
  Validator.mkWorld
    (fun p => if JS.eqb p (js "index.html")
              then Some (js "<html><head><meta name='viewport'></head><body></body></html>")
              else other)
    (fun p => JS.eqb p (js "favicon.svg")).

(** A browser in front of a healthy site, but for the navigation of the
    page-load group and the phone-mockup probe, which are given. *)
Definition browserWith (load : JS.str -> Prober.outcome (option Z))
  (phone : Prober.viewport -> Prober.outcome (option Prober.phone))
  : Prober.browser :=
  {| Prober.argv2 := None;
     Prober.launch := Prober.Returned tt;
     Prober.loadGoto := load;
     Prober.pageErrors := fun _ => [];
     Prober.layoutGoto := fun _ => Prober.Returned tt;
     Prober.overflow := fun vp =>
       Prober.Returned (Z.of_N (Prober.width vp), Z.of_N (Prober.width vp));
     Prober.navVisible := fun _ => Prober.Returned true;
     Prober.phoneCheck := phone;
     Prober.footerVisible := fun _ => Prober.Returned true;
     Prober.imgGoto := Prober.Returned tt;
     Prober.scrollPage := Prober.Returned tt;
     Prober.brokenImages := Prober.Returned [];
     Prober.langGoto := Prober.Returned tt;
     Prober.defaultLang := Prober.Returned (js "pt-BR");
     Prober.switchEn := Prober.Returned tt;
     Prober.enState :=
       Prober.Returned
         (Prober.mkLangState (js "en") (js "Zen") (Some (js "Your financial life")));
     Prober.switchPt := Prober.Returned tt;
     Prober.ptState :=
       Prober.Returned
         (Prober.mkLangState (js "pt-BR") (js "Zen") (Some (js "Sua vida financeira")));
     Prober.stressErrors := Prober.Returned [];
     Prober.animGoto := Prober.Returned tt;
     Prober.chatProbe := Prober.Returned (Prober.mkChatState 3 true true);
     Prober.messagesAfterRestart := Prober.Returned 2%N;
     Prober.interGoto := Prober.Returned tt;
     Prober.faqWorks := Prober.Returned true;
     Prober.tabsWork := Prober.Returned true;
     Prober.formWorks := Prober.Returned true;
     Prober.scrollWorks := Prober.Returned true;
     Prober.startTime := 1000%Z;
     Prober.perfGoto := Prober.Returned tt;
     Prober.endTime := 2200%Z;
     Prober.resourceProbe := Prober.Returned (Prober.mkResources 40 1800%Z) |}.

Definition okLoad : JS.str -> Prober.outcome (option Z) :=
  fun _ => Prober.Returned (Some 200%Z).
Definition okPhone : Prober.viewport -> Prober.outcome (option Prober.phone) :=
  fun _ => Prober.Returned (Some (Prober.mkPhone (js "block") (300 # 1) (620 # 1))).



End Samples.

(* ================================================================== *)
(** * The outcomes of a run, as the console shows them *)
(* ================================================================== *)

Module Accounting.

Import Reporter.

(** How the line that [pass], [fail] and [warn] print begins: two spaces,
    the colour and the sign. *)
Definition passPrefix : JS.str := js "  " ++ ESC ++ js "[32m" ++ tick.
Definition failPrefix : JS.str := js "  " ++ ESC ++ js "[31m" ++ cross.
Definition warnPrefix : JS.str := js "  " ++ ESC ++ js "[33m" ++ warnSign.

(** The outcome a line of the console stands for, if any. *)
Definition lineKind (line : JS.str) : option kind :=
  if JS.startsWith line passPrefix then Some KPass
  else if JS.startsWith line failPrefix then Some KFail
  else if JS.startsWith line warnPrefix then Some KWarn
  else None.

(** The outcomes a reader of the console sees, in order. *)
Definition shown (lines : list JS.str) : list kind :=
  flat_map (fun l => match lineKind l with Some k => [k] | None => [] end) lines.

(** The counters after the outcomes [ks], from the counters [c]. *)
Definition tally (ks : list kind) (c : N * N * N) : N * N * N :=
  fold_left (fun acc k => bump k acc) ks c.

(** [r'] comes from [r] by the calls of [pass], [fail] and [warn] that
    [ks] lists, in that order, and by calls of [console.log] with lines that
    begin like none of theirs. *)
Inductive Steps : list kind -> reporter -> reporter -> Prop :=
| StepsNil r : Steps [] r r
| StepsPass ks r r' l : Steps ks r r' -> Steps (ks ++ [KPass]) r (pass l r')
| StepsFail ks r r' l d : Steps ks r r' -> Steps (ks ++ [KFail]) r (fail l d r')
| StepsWarn ks r r' l d : Steps ks r r' -> Steps (ks ++ [KWarn]) r (warn l d r')
| StepsLog ks r r' line :
    lineKind line = None -> Steps ks r r' -> Steps ks r (log line r').

Definition isPass (k : kind) : bool :=
  match k with KPass => true | _ => false end.

Definition isFailure (k : kind) : bool :=
  match k with KFail => true | _ => false end.

Definition passes (ks : list kind) : nat := List.length (filter isPass ks).
Definition others (ks : list kind) : nat :=
  List.length (filter (fun k => negb (isPass k)) ks).

(** A piece of a script with [n] places for a pass: each place gives its
    pass, or the piece records a failure or a warning. *)
Definition slots (n : nat) (ks : list kind) : Prop :=
  (passes ks <= n)%nat /\ (others ks = 0%nat -> passes ks = n).

Definition Reach (n : nat) (r r' : reporter) : Prop :=
  exists ks, Steps ks r r' /\ slots n ks.

(** The same for a computation of the prober: when it throws, the places
    only bound the passes. *)
Definition PReach {A} (n : nat) (c : Prober.P A) : Prop :=
  forall s,
    exists ks, Steps ks (Prober.rep s) (Prober.rep (snd (c s)))
      /\ (passes ks <= n)%nat
      /\ (Prober.threw (fst (c s)) = false -> others ks = 0%nat -> passes ks = n).

End Accounting.

(* ================================================================== *)
(** * The links and the assets of a page, for the statements about them *)
(* ================================================================== *)

Module Links.

Import Dom.

(** The [href] of every [a[href]] of the document, in document order. *)
Definition hrefsOf (links : list element) : list JS.str :=
  flat_map (fun e => match attr (js "href") e with
                     | Some h => [h]
                     | None => []
                     end) links.

Definition hrefs (doc : document) : list JS.str :=
  hrefsOf (select doc [[Tag (js "a"); HasAttr (js "href")]]).

(** [href.startsWith('#') && href !== '#']: a link to a fragment. *)
Definition isFragment (href : JS.str) : bool :=
  JS.startsWith href (js "#") && negb (JS.eqb href (js "#")).

(** A link the script looks for on disk: no fragment, no [http] address and
    no [mailto:] address. *)
Definition isLocalPath (href : JS.str) : bool :=
  negb (JS.startsWith href (js "#")) && negb (JS.startsWith href (js "http"))
  && negb (JS.startsWith href (js "mailto:")).

(** The file behind a link to a directory. *)
Definition indexPath (href : JS.str) : JS.str :=
  if JS.endsWith href (js "/") then href ++ js "index.html" else href.

Definition brokenPath (w : Validator.world) (href : JS.str) : bool :=
  isLocalPath href
  && negb (Validator.existsSync w (indexPath href))
  && negb (Validator.existsSync w href).

Section Parser.
Variable parseSelector : JS.str -> option selector.

(** The selector built from the fragment is one cheerio refuses. *)
Definition unparsable (href : JS.str) : bool :=
  isFragment href
  && match parseSelector (js "#" ++ JS.slice1 href) with
     | None => true
     | Some _ => false
     end.

(** The fragment names nothing in the document. *)
Definition dangling (doc : document) (href : JS.str) : bool :=
  isFragment href
  && match parseSelector (js "#" ++ JS.slice1 href) with
     | Some sel => negb (Validator.nonEmpty (select doc sel))
     | None => false
     end.

End Parser.

(** What follows the last [/] of a path, if it has one. *)
Fixpoint afterLastSlash (s : JS.str) : option JS.str :=
  match s with
  | [] => None
  | c :: s' =>
      match afterLastSlash s' with
      | Some x => Some x
      | None => if 47 =? c then Some s' else None
      end
  end.

(** The line terminators of ECMAScript, which [.] does not match. *)
Definition isLineTerminator (c : N) : bool :=
  (c =? 10) || (c =? 13) || (c =? 8232) || (c =? 8233).

Definition oneLine (s : JS.str) : bool :=
  forallb (fun c => negb (isLineTerminator c)) s.

(** The local files the three kinds of reference name: the [src] of an
    image, the [href] of a [link], and the address in a CSS [url(...)]
    (after the two [replace] calls). *)
Definition imgAsset (e : element) : option JS.str :=
  match attr (js "src") e with
  | Some src =>
      if JS.truthy src && negb (JS.startsWith src (js "http"))
         && negb (JS.startsWith src (js "data:"))
      then Some src else None
  | None => None
  end.

Definition linkAsset (e : element) : option JS.str :=
  match attr (js "href") e with
  | Some href =>
      if JS.truthy href && negb (JS.startsWith href (js "http"))
         && negb (JS.startsWith href (js "#"))
      then Some href else None
  | None => None
  end.

(** The characters of the address inside [url(...)]: no quote, no closing
    parenthesis and no white space. *)
Definition addressChar (c : N) : bool :=
  negb ((c =? 39) || (c =? 34) || (c =? 41) || JS.isSpace c).

(** An optional quote: nothing, a single or a double quote. *)
Definition optionalQuote (q : JS.str) : Prop :=
  q = [] \/ q = [39] \/ q = [34].

Definition cssAsset (mt : JS.str) : option JS.str :=
  let url :=
    Regex.replace Validator.urlCloseRe []
      (Regex.replace Validator.urlOpenRe [] mt) in
  if negb (JS.startsWith url (js "http"))
     && negb (JS.startsWith url (js "data:"))
  then Some url else None.

End Links.

(* ================================================================== *)
(** * The shape rules, by what they ask of the page *)
(* ================================================================== *)

Module Shapes.

Import Dom.

Local Open Scope string_scope.

(** The seven landmarks: the key the validator reports and the selector it
    looks the landmark up with. *)
Definition landmarks : list (JS.str * selector) :=
  [ (js "hero", [[Id (js "hero")]]);
    (js "sobre", [[Id (js "sobre")]]);
    (js "comoFunciona", [[Id (js "como-funciona")]]);
    (js "faq", [[Id (js "faq")]]);
    (js "posicionamento", [[Id (js "posicionamento")]]);
    (js "bottomCta", [[Id (js "bottom-cta")]]);
    (js "footer", [[Tag (js "footer")]]) ].

Definition absent (doc : document) (l : JS.str * selector) : bool :=
  negb (Validator.nonEmpty (select doc (snd l))).

(** The six counts with the least value each must have. *)
Definition minimums (c : Validator.contentCounts) : list (JS.str * N * N) :=
  [ (js "agentCards", Validator.agentCards c, 10%N);
    (js "agentTabs", Validator.agentTabs c, 10%N);
    (js "faqItems", Validator.faqItems c, 5%N);
    (js "howItWorksSteps", Validator.howItWorksSteps c, 3%N);
    (js "forms", Validator.forms c, 2%N);
    (js "bankLogos", Validator.bankLogos c, 10%N) ].

Definition below (x : JS.str * N * N) : bool := (snd (fst x) <? snd x)%N.


End Shapes.

(* ================================================================== *)
(** * The browsing contexts of the prober *)
(* ================================================================== *)

Module Contexts.

Import Prober.

(** A computation that opens and closes nothing. *)
Definition Still {A} (c : P A) : Prop :=
  forall s, contexts (snd (c s)) = contexts s.

(** A computation that runs inside the context [n], the latest one, and
    closes it when it returns; when it throws, the context stays open. *)
Definition Inside {A} (n : JS.str) (c : P A) : Prop :=
  forall s rest,
    contexts s = n :: rest ->
    match fst (c s) with
    | Returned _ => contexts (snd (c s)) = rest
    | Thrown _ => contexts (snd (c s)) = n :: rest
    end.

(** A computation that closes what it opens when it returns, and leaves
    at most one context open when it throws. *)
Definition Balanced {A} (c : P A) : Prop :=
  forall s,
    match fst (c s) with
    | Returned _ => contexts (snd (c s)) = contexts s
    | Thrown _ =>
        contexts (snd (c s)) = contexts s
        \/ exists n, contexts (snd (c s)) = n :: contexts s
    end.

(** The failures one route adds to the page-load group: one when the
    navigation throws; otherwise one when the status is not 200, and one
    for each error of the page. *)
Definition routeFailures (b : browser) (pg : route) : N :=
  match loadGoto b (BASE_URL b ++ rpath pg) with
  | Thrown _ => 1
  | Returned status =>
      (match status with Some 200%Z => 0 | _ => 1 end)
      + Validator.count (pageErrors b (BASE_URL b ++ rpath pg))
  end.

Definition routePasses (b : browser) (pg : route) : N :=
  match loadGoto b (BASE_URL b ++ rpath pg) with
  | Thrown _ => 0
  | Returned status =>
      (match status with Some 200%Z => 1 | _ => 0 end)
      + (match pageErrors b (BASE_URL b ++ rpath pg) with [] => 1 | _ => 0 end)
  end.

End Contexts.

(* ================================================================== *)
(** * The page-load group on a browser that may refuse a context *)
(* ================================================================== *)

Module Session.

Import Reporter Prober.
Local Open Scope prober_scope.

(** The three awaits of the body of the page-load loop that stand outside
    its [try]: [browser.newContext(...)], [context.newPage()] and
    [context.close()], by the name of the route. Each returns or rejects
    with a message; a browser that has crashed rejects them. *)
Record setup := mkSetup {
  opens : JS.str -> outcome unit;
  pages : JS.str -> outcome unit;
  closes : JS.str -> outcome unit
}.

(** [const context = await browser.newContext(...)]: the context is open
    once the call has returned. *)
Definition newContext (o : setup) (name : JS.str) : P unit :=
  await (opens o name) ;; Prober.newContext name.

(** [const page = await context.newPage()] *)
Definition newPage (o : setup) (name : JS.str) : P unit :=
  await (pages o name).

(** [await context.close()]: a context whose [close] rejects stays among
    the open ones. *)
Definition closeContext (o : setup) (name : JS.str) : P unit :=
  await (closes o name) ;; Prober.closeContext name.

(** The body of [for (const pg of PAGES)], with its three awaits outside
    the [try]. *)
Definition loadCheck (b : browser) (o : setup) (pg : route) : P unit :=
  newContext o (rname pg) ;;
  newPage o (rname pg) ;;
  tryCatch (loadProbe b pg)
    (fun message => report (fail (rname pg ++ js " load") (Some message))) ;;
  closeContext o (rname pg).

Definition loadGroup (b : browser) (o : setup) : P unit :=
  report (log (ESC ++ js "[1m1. Page Load" ++ ESC ++ js "[0m")) ;;
  forOf PAGES (loadCheck b o).

(** The first of the three awaits of a route that rejects, if any. *)
Inductive stage := Opening | Paging | Closing.

Definition trouble (o : setup) (name : JS.str) : option (stage * JS.str) :=
  match opens o name with
  | Thrown e => Some (Opening, e)
  | Returned _ =>
      match pages o name with
      | Thrown e => Some (Paging, e)
      | Returned _ =>
          match closes o name with
          | Thrown e => Some (Closing, e)
          | Returned _ => None
          end
      end
  end.

(** A browser whose context of the privacy policy cannot be closed. *)
Definition stuck : setup :=
  mkSetup (fun _ => Returned tt) (fun _ => Returned tt)
    (fun name =>
       if JS.eqb name (js "Privacy Policy")
       then Thrown (js "Target page, context or browser has been closed")
       else Returned tt).

End Session.

(* ================================================================== *)
(** * The script of the page, [script.js] *)
(* ================================================================== *)

(** The script changes the page through [classList] and [innerHTML]. An
    element is followed by the one class the script sets on it ([active] or
    [open]): a list of elements is the list of these flags, in the order of
    [querySelectorAll]. *)
Module Site.

Local Open Scope nat_scope.

(** [arr.forEach((x, i) => ...)] where the callback sets the flag of [x]. *)
Fixpoint forEachFrom {A B} (f : nat -> A -> B) (i : nat) (l : list A)
  : list B :=
  match l with
  | [] => []
  | x :: l' => f i x :: forEachFrom f (S i) l'
  end.

Definition forEachIndexed {A B} (f : nat -> A -> B) (l : list A) : list B :=
  forEachFrom f 0 l.

(** An index of the script: a number, or [NaN]. *)
Definition num := option nat.

(** [(a + 1) % n], which is [NaN] when [n] is 0. *)
Definition succMod (a : num) (n : nat) : num :=
  match a with
  | Some x => if n =? 0 then None else Some ((x + 1) mod n)
  | None => None
  end.

(** [i === index] *)
Definition same (i : nat) (index : num) : bool :=
  match index with
  | Some x => i =? x
  | None => false
  end.

(** [els.forEach((el, i) => el.classList.toggle('active', i === index))] *)
Definition show (index : num) (els : list bool) : list bool :=
  forEachIndexed (fun i _ => same i index) els.

(** The number of elements that have the class. *)
Definition countOn (els : list bool) : nat := List.length (filter id els).

(** ** [initHeroCarousel] *)

Record hero := mkHero {
  currentConv : num;
  conversations : list bool
}.

Definition showConversation (index : num) (h : hero) : hero :=
  mkHero (currentConv h) (show index (conversations h)).

(** [totalConv] is the length of the list taken when the page loads. *)
Definition nextConversation (h : hero) : hero :=
  let h := mkHero (succMod (currentConv h) (List.length (conversations h)))
             (conversations h) in
  showConversation (currentConv h) h.

Definition initHeroCarousel (convs : list bool) : hero := mkHero (Some 0) convs.

(** The carousel after [k] turns of its interval. *)
Fixpoint turns (k : nat) (h : hero) : hero :=
  match k with
  | O => h
  | S k' => nextConversation (turns k' h)
  end.

(** ** [initTestimonialsCarousel] *)

(** [timers] are the intervals that are running; [setInterval] gives the
    identifier [nextTimer]. *)
Record testimonials := mkTestimonials {
  currentTestimonial : num;
  slides : list bool;
  dots : list bool;
  autoplayTimer : option nat;
  timers : list nat;
  nextTimer : nat
}.

Definition showTestimonial (index : num) (t : testimonials) : testimonials :=
  mkTestimonials index (show index (slides t)) (show index (dots t))
    (autoplayTimer t) (timers t) (nextTimer t).

Definition nextTestimonial (t : testimonials) : testimonials :=
  let next := succMod (currentTestimonial t) (List.length (slides t)) in
  showTestimonial next t.

(** [autoplayTimer = setInterval(nextTestimonial, interval)] *)
Definition startAutoplay (t : testimonials) : testimonials :=
  mkTestimonials (currentTestimonial t) (slides t) (dots t)
    (Some (nextTimer t)) (nextTimer t :: timers t) (S (nextTimer t)).

(** [clearInterval(id)]; an [undefined] identifier clears nothing. *)
Definition clearInterval (id : option nat) (running : list nat) : list nat :=
  match id with
  | Some i => filter (fun j => negb (j =? i)) running
  | None => running
  end.

Definition resetAutoplay (t : testimonials) : testimonials :=
  startAutoplay
    (mkTestimonials (currentTestimonial t) (slides t) (dots t)
       (autoplayTimer t) (clearInterval (autoplayTimer t) (timers t))
       (nextTimer t)).

(** The click handler of the dot [index]. *)
Definition clickDot (index : nat) (t : testimonials) : testimonials :=
  resetAutoplay (showTestimonial (Some index) t).

Definition initTestimonialsCarousel (sl ds : list bool) : testimonials :=
  startAutoplay (mkTestimonials (Some 0) sl ds None [] 0).

(** What happens to the carousel: its interval fires, or the visitor clicks
    a dot; only the dots of the page have a handler. *)
Inductive event :=
| Tick
| ClickDot (index : nat).

Definition step (t : testimonials) (e : event) : testimonials :=
  match e with
  | Tick => nextTestimonial t
  | ClickDot i => if i <? List.length (dots t) then clickDot i t else t
  end.

Definition after (events : list event) (t : testimonials) : testimonials :=
  fold_left step events t.

(** The events a page with the dots [ds] can have. *)
Definition possible (ds : list bool) (e : event) : bool :=
  match e with
  | Tick => true
  | ClickDot i => i <? List.length ds
  end.

(** What every state of the carousel has, from the first on: one interval
    is running, the one the script remembers, and the lists are those of
    the page. *)
Definition steady (sl ds : list bool) (t : testimonials) : Prop :=
  (exists id, autoplayTimer t = Some id /\ timers t = [id])
  /\ List.length (slides t) = List.length sl
  /\ List.length (dots t) = List.length ds.

(** What every state has after an event: the flags show the current
    index. *)
Definition shown (sl ds : list bool) (t : testimonials) : Prop :=
  slides t = show (currentTestimonial t) sl
  /\ dots t = show (currentTestimonial t) ds.

(** ** [initFAQ] *)

(** The click handler of the question of the item [item]: the flags are the
    class [open] of the items. *)
Definition closeOthers (item : nat) (items : list bool) : list bool :=
  forEachIndexed (fun i o => if i =? item then o else false) items.

Definition toggleOpen (item : nat) (items : list bool) : list bool :=
  forEachIndexed (fun i o => if i =? item then negb o else o) items.

Definition clickQuestion (item : nat) (items : list bool) : list bool :=
  toggleOpen item (closeOthers item items).

(** ** [initWaitlistForm] and [initHeroForm] *)

Definition dq : JS.str := [34%N].

Definition waitlistSuccess : JS.str :=
  ([10%N] ++ js "      <div class=" ++ dq ++ js "waitlist-success" ++ dq ++ js ">"
   ++ [10%N] ++ js "        <p style=" ++ dq
   ++ js "font-size: 20px; color: var(--color-blue); font-weight: 500;" ++ dq
   ++ js ">"
   ++ [10%N] ++ js "          Pronto! Voc" ++ [234%N] ++ js " t" ++ [225%N]
   ++ js " na fila."
   ++ [10%N] ++ js "        </p>"
   ++ [10%N] ++ js "        <p style=" ++ dq ++ js "color: #666; margin-top: 8px;"
   ++ dq ++ js ">"
   ++ [10%N] ++ js "          A gente avisa quando chegar sua vez."
   ++ [10%N] ++ js "        </p>"
   ++ [10%N] ++ js "      </div>"
   ++ [10%N] ++ js "    ")%list.

Definition heroSuccess : JS.str :=
  ([10%N] ++ js "      <div class=" ++ dq ++ js "hero-success" ++ dq ++ js ">"
   ++ [10%N] ++ js "        <p style=" ++ dq
   ++ js "font-size: 18px; color: var(--color-blue); font-weight: 600;" ++ dq
   ++ js ">"
   ++ [10%N] ++ js "          " ++ [10003%N] ++ js " Pronto! Voc" ++ [234%N]
   ++ js " t" ++ [225%N] ++ js " na fila."
   ++ [10%N] ++ js "        </p>"
   ++ [10%N] ++ js "        <p style=" ++ dq
   ++ js "color: #666; margin-top: 4px; font-size: 15px;" ++ dq ++ js ">"
   ++ [10%N] ++ js "          A gente avisa quando chegar sua vez."
   ++ [10%N] ++ js "        </p>"
   ++ [10%N] ++ js "      </div>"
   ++ [10%N] ++ js "    ")%list.

(** A form: the value of its input, if it has the input the handler looks
    for, and its [innerHTML]. *)
Record form := mkForm {
  input : option JS.str;
  innerHTML : JS.str
}.

(** The [submit] handler; [None] is the [TypeError] of [input.value] on
    [null]. The markup of the success message has no input. *)
Definition submit (success : JS.str) (f : form) : option form :=
  match input f with
  | None => None
  | Some value =>
      if negb (JS.truthy (JS.trim value)) then Some f
      else Some (mkForm None success)
  end.

Definition submitWaitlist : form -> option form := submit waitlistSuccess.
Definition submitHero : form -> option form := submit heroSuccess.

(** ** The handler of [DOMContentLoaded] *)

(** What the handler finds in the page: for each [.faq-item], whether it
    has a [.faq-question]; and whether the two forms are there. *)
Record page := mkPage {
  faqItems : list bool;
  hasWaitlistForm : bool;
  hasHeroForm : bool
}.

(** The listeners the handler has attached when it ends: the questions
    that got their [click] listener, and the two [submit] listeners. *)
Record listeners := mkListeners {
  questions : list nat;
  waitlistSubmit : bool;
  heroSubmit : bool
}.

(** [initFAQ]: the items in order; [question.addEventListener] throws on
    the first item without a question. The result is the listeners
    attached, and whether the function returned. *)
Fixpoint initFAQFrom (i : nat) (items : list bool) : list nat * bool :=
  match items with
  | [] => ([], true)
  | true :: rest =>
      let (qs, ok) := initFAQFrom (S i) rest in (i :: qs, ok)
  | false :: _ => ([], false)
  end.

Definition initFAQ (p : page) : list nat * bool := initFAQFrom 0 (faqItems p).

(** [initHeader], [initHeroCarousel] and [initTestimonialsCarousel] call
    no method of an element that may be missing while they set up, so they
    return; an exception of [initFAQ] ends the handler before the two
    forms get their listeners. *)
Definition onLoad (p : page) : listeners :=
  let (qs, ok) := initFAQ p in
  if ok then mkListeners qs (hasWaitlistForm p) (hasHeroForm p)
  else mkListeners qs false false.

End Site.

(* ================================================================== *)
(** * A page that passes every check *)
(* ================================================================== *)

Module Healthy.

Import Dom Samples.

Local Open Scope string_scope.

Definition txt (s : string) : node := Text (js s).

(** One agent card with its label, title, body and three tags. *)
Definition card : node :=
  el "div" [("class", "sobre-card reveal")]
    [ el "div" [("class", "text-xs tracking-widest")] [ txt "AGENTE" ];
      el "h4" [] [ txt "Organiza" ];
      el "p" [] [ txt "Cuida das contas." ];
      el "div" [("class", "flex flex-wrap")]
        [ el "span" [] [ txt "a" ]; el "span" [] [ txt "b" ];
          el "span" [] [ txt "c" ] ] ].

Definition tab : node := el "button" [("class", "sobre-tab")] [ txt "Agente" ].

Definition faqItem : node :=
  el "div" [("class", "faq-item")]
    [ el "button" [("class", "faq-question")] [ txt "Como funciona?" ] ].

Definition bank (n : string) : node :=
  el "img" [("src", "img/banks/logo.svg"); ("alt", n)] [].

Definition banks : list node :=
  map bank [ "Nubank"; "Bradesco"; "Santander"; "Inter"; "C6 Bank";
             "Mercado Pago"; "BTG Pactual"; "Caixa"; "PicPay"; "Neon" ].

(** The inline script: the fourteen translation objects, the functions the
    validator looks for, the default language and the two arrays. *)
Definition script : JS.str :=
  (js "var enSelectors, enCards, enTabs, enFaq, enSteps, enHow, enCta, enFooter;"
   ++ [10%N]
   ++ js "var enForm, enConsent, enLegalLinks, enLegalDisclaimer, illustrationMap;"
   ++ [10%N]
   ++ js "let currentLang = 'pt'; var chatAnimationTimeouts = [];" ++ [10%N]
   ++ js "function initI18n() {} function switchLang(l) {}" ++ [10%N]
   ++ js "function translateIllustrations(l) {} function restartChat() {}"
   ++ [10%N]
   ++ js "function trackTimeout(f) {}" ++ [10%N]
   ++ bothScript)%list.

Definition head : node :=
  el "head" []
    [ el "meta" [("charset", "UTF-8")] [];
      el "meta" [("name", "viewport");
                 ("content", "width=device-width, initial-scale=1")] [];
      el "title" [] [ txt "Zen, seu assistente financeiro" ];
      el "meta" [("name", "description");
                 ("content",
                  "Zen organiza a sua vida financeira pelo WhatsApp, sem planilhas.")] [];
      el "meta" [("property", "og:title"); ("content", "Zen, seu assistente")] [];
      el "meta" [("property", "og:description");
                 ("content", "Sua vida financeira organizada.")] [];
      el "meta" [("property", "og:type"); ("content", "website")] [];
      el "meta" [("property", "og:locale"); ("content", "pt_BR")] [];
      el "meta" [("property", "og:image"); ("content", "img/og.png")] [];
      el "link" [("rel", "icon"); ("href", "favicon.svg")] [];
      el "script" [("src", "https://cdn.tailwindcss.com")] [];
      el "script" [] [ Text script ] ].

Definition footer : node :=
  Elem (js "footer") []
    [ Text (js "AIZEN TECNOLOGIA LTDA, CNPJ 63.740.359/0001-15. Correspondente Banc"
              ++ [225%N] ++ js "rio.")%list;
      el "a" [("href", "/privacidade/")] [ txt "Privacidade" ];
      el "a" [("href", "legal/politica-retencao-dados.pdf")] [ txt "Dados" ];
      el "a" [("href", "legal/politica-reporte-incidentes.pdf")] [ txt "Incidentes" ];
      el "a" [("href", "#faq")] [ txt "Perguntas" ];
      el "a" [("href", "https://instagram.com/zen")] [ txt "Instagram" ] ].

Definition body : node :=
  el "body" []
    [ el "section" [("id", "hero")]
        [ el "form" [("id", "hero-form")] [];
          el "img" [("src", "img/hero.png"); ("alt", "Zen"); ("loading", "lazy");
                    ("width", "400"); ("height", "800")] [] ];
      el "section" [("id", "sobre")] (repeat tab 10 ++ repeat card 10);
      el "section" [("id", "como-funciona")]
        [ el "h3" [] [ txt "1" ]; el "h3" [] [ txt "2" ]; el "h3" [] [ txt "3" ] ];
      el "section" [("id", "posicionamento")] banks;
      el "section" [("id", "faq")] (repeat faqItem 5);
      el "section" [("id", "bottom-cta")]
        [ el "form" [("id", "waitlist-form")] [];
          el "p" [] [ txt "Ao enviar, concorda em receber mensagens do Zen." ] ];
      footer ].

Definition doc : document := [ el "html" [("lang", "pt-BR")] [ head; body ] ].

(** The text of [index.html], as far as the checks on the text go: the
    origins of the six libraries. *)
Definition html : JS.str :=
  js "cdn.tailwindcss.com fonts.googleapis.com cdnjs.cloudflare.com/ajax/libs/gsap unpkg.com/lucide iconify lenis".

(** Every file the page refers to is there. *)
Definition files : Validator.world :=
  Validator.mkWorld
    (fun p => if JS.eqb p (js "index.html") then Some html else None)
    (fun _ => true).

Definition message : Zod.rule -> option Zod.value -> JS.str :=
  fun _ _ => js "Invalid input".

Definition site : Prober.browser := browserWith okLoad okPhone.

End Healthy.

(* ================================================================== *)
(** * More concrete pages *)
(* ================================================================== *)

Module Cases.

Import Dom Samples.

Local Open Scope string_scope.

(** A page with links of every kind: a fragment that exists, one that does
    not (twice), a directory, a missing file, the bare [#], an [http] and a
    [mailto:] address. *)
Definition linksDoc : document :=
  [ el "section" [("id", "faq")] [];
    el "a" [("href", "#faq")] [];
    el "a" [("href", "#nada")] [];
    el "a" [("href", "/privacidade/")] [];
    el "a" [("href", "termos.html")] [];
    el "a" [("href", "#")] [];
    el "a" [("href", "#nada")] [];
    el "a" [("href", "https://wa.me/5511")] [];
    el "a" [("href", "mailto:oi@zen")] [];
    el "a" [("name", "top")] [] ].

(** Of these, only [/privacidade/index.html] is on disk. *)
Definition linksFiles : Validator.world :=
  Validator.mkWorld
    (fun p => if JS.eqb p (js "index.html") then Some (js "<html>") else None)
    (fun p => JS.eqb p (js "/privacidade/index.html")).

(** The selector parser on the texts [#t] of the pages below. css-what reads
    the name of an id with its pattern
    [/^[^\\#]?(?:\\(?:[\da-f]{1,6}\s?|.)|[\w\-\u00b0-\uFFFF])+/]: one
    optional first code unit other than the backslash and [#], then one or
    more name characters (a letter, a digit, [_], [-], a code unit from
    U+00B0 on) or escapes. [nameLength t] is the length of what the pattern
    takes from a text without backslash, 0 when it does not match. *)
Definition isNameChar (c : N) : bool :=
  (48 <=? c)%N && (c <=? 57)%N || (65 <=? c)%N && (c <=? 90)%N
  || (97 <=? c)%N && (c <=? 122)%N || (c =? 45)%N || (c =? 95)%N
  || (176 <=? c)%N.

Fixpoint nameRun (t : JS.str) : nat :=
  match t with
  | c :: t' => if isNameChar c then S (nameRun t') else 0%nat
  | [] => 0%nat
  end.

Definition nameLength (t : JS.str) : nat :=
  match t with
  | c :: t' =>
      if negb (c =? 92)%N && negb (c =? 35)%N && (0 <? nameRun t')%nat
      then S (nameRun t')
      else nameRun t
  | [] => 0%nat
  end.

(** When the name is the whole of [t], the selector is the id [t]: so for
    [#faq], and for [#/planos], whose slash is the optional first code unit.
    When no name starts [t], css-what throws [Expected name] and the answer
    is [None]: so for [#!/planos]. These are the two kinds of text the pages
    below link to; a text with a backslash, or with more selector after the
    name, is not among them, and the answer [None] is given for it without
    standing for what cheerio does. *)
Definition strictIdSelector (s : JS.str) : option selector :=
  match s with
  | 35%N :: t =>
      if existsb (N.eqb 92) t then None
      else if ((0 <? nameLength t) && (nameLength t =? List.length t))%nat
           then Some [[Id t]]
           else None
  | _ => None
  end.

(** A page of a single-page application: a link to the hashbang route
    [#!/planos], from which no selector can be built. *)
Definition routeDoc : document :=
  [ el "a" [("href", "#!/planos")] [] ].

(** The same page with the route written [#/planos]: the selector is the
    id [/planos], which no element has. *)
Definition slashRouteDoc : document :=
  [ el "a" [("href", "#/planos")] [] ].

(** A card that carries the class [flex-wrap] itself, with its three tags
    as children: [.flex-wrap span] is looked for from the card on. *)
Definition wrapCard : node :=
  el "div" [("class", "sobre-card flex-wrap")]
    [ el "div" [("class", "text-xs tracking-widest")] [ Healthy.txt "AGENTE" ];
      el "h4" [] [ Healthy.txt "Organiza" ];
      el "p" [] [ Healthy.txt "Cuida das contas." ];
      el "span" [] [ Healthy.txt "a" ]; el "span" [] [ Healthy.txt "b" ];
      el "span" [] [ Healthy.txt "c" ] ].

Definition wrapCardDoc : document :=
  [ el "section" [("id", "sobre")] [ wrapCard ] ].

(** The same parts in a card without the class, below an element that has
    it: an element above the card is not looked at. *)
Definition wrappedCardDoc : document :=
  [ el "section" [("id", "sobre"); ("class", "flex-wrap")]
      [ el "div" [("class", "sobre-card")]
          [ el "div" [("class", "text-xs tracking-widest")]
              [ Healthy.txt "AGENTE" ];
            el "h4" [] [ Healthy.txt "Organiza" ];
            el "p" [] [ Healthy.txt "Cuida das contas." ];
            el "span" [] [ Healthy.txt "a" ]; el "span" [] [ Healthy.txt "b" ];
            el "span" [] [ Healthy.txt "c" ] ] ] ].

(** A healthy site whose home page takes 6250 ms to load. *)
Definition slowSite : Prober.browser :=
  {| Prober.argv2 := Some (js "https://zen.example");
     Prober.launch := Prober.Returned tt;
     Prober.loadGoto := okLoad;
     Prober.pageErrors := fun _ => [];
     Prober.layoutGoto := fun _ => Prober.Returned tt;
     Prober.overflow := fun vp =>
       Prober.Returned (Z.of_N (Prober.width vp), Z.of_N (Prober.width vp));
     Prober.navVisible := fun _ => Prober.Returned true;
     Prober.phoneCheck := okPhone;
     Prober.footerVisible := fun _ => Prober.Returned true;
     Prober.imgGoto := Prober.Returned tt;
     Prober.scrollPage := Prober.Returned tt;
     Prober.brokenImages := Prober.Returned [];
     Prober.langGoto := Prober.Returned tt;
     Prober.defaultLang := Prober.Returned (js "pt-BR");
     Prober.switchEn := Prober.Returned tt;
     Prober.enState :=
       Prober.Returned
         (Prober.mkLangState (js "en") (js "Zen") (Some (js "Your financial life")));
     Prober.switchPt := Prober.Returned tt;
     Prober.ptState :=
       Prober.Returned
         (Prober.mkLangState (js "pt-BR") (js "Zen") (Some (js "Sua vida financeira")));
     Prober.stressErrors := Prober.Returned [];
     Prober.animGoto := Prober.Returned tt;
     Prober.chatProbe := Prober.Returned (Prober.mkChatState 3 true true);
     Prober.messagesAfterRestart := Prober.Returned 2%N;
     Prober.interGoto := Prober.Returned tt;
     Prober.faqWorks := Prober.Returned true;
     Prober.tabsWork := Prober.Returned true;
     Prober.formWorks := Prober.Returned true;
     Prober.scrollWorks := Prober.Returned true;
     Prober.startTime := 1000%Z;
     Prober.perfGoto := Prober.Returned tt;
     Prober.endTime := 7250%Z;
     Prober.resourceProbe := Prober.Returned (Prober.mkResources 40 1800%Z) |}.

End Cases.

(* ================================================================== *)
(** * The two conversation arrays, by the text of the script *)
(* ================================================================== *)

Module Chat.

Import Regex.

(** The two patterns of the chat-data group, each cut after its [\[]: the
    opening, [var chatData\s*=\s*\[] and
    [(?:const|var|let)\s+chatDataEN\s*=\s*\[], and what both have after
    it, [([\s\S]*?)\];\s*\n]. *)
Definition closeRe : re :=
  Seq (Lit (js "];")) (Seq (Star true space) (Char 10)).

Definition bodyRe : re := Seq (Group (Star false anyChar)) closeRe.

Definition openTailRe : re :=
  Seq (Star true space)
    (Seq (Char 61) (Seq (Star true space) (Char 91))).

Definition ptOpenRe : re := Seq (Lit (js "var chatData")) openTailRe.

Definition enOpenRe : re :=
  Seq (Alt (Lit (js "const")) (Alt (Lit (js "var")) (Lit (js "let"))))
    (Seq (Plus space) (Seq (Lit (js "chatDataEN")) openTailRe)).

(** A continuation of the matcher that fails wherever another one fails. *)
Definition asksMore {R R'} (k2 : JS.str -> option JS.str -> option R')
  (k1 : JS.str -> option JS.str -> option R) : Prop :=
  forall s c, k1 s c = None -> k2 s c = None.

(** The white space at the head of [s] holds a line feed. *)
Fixpoint lineBreakAhead (s : JS.str) : bool :=
  match s with
  | c :: s' => JS.isSpace c && ((10 =? c) || lineBreakAhead s')
  | [] => false
  end.

(** [s] begins with what closes an array for the patterns: [];], then
    white space with a line feed in it. *)
Definition closesArray (s : JS.str) : bool :=
  JS.startsWith s (js "];") && lineBreakAhead (skipn 2 s).

(** Some place of [s] closes an array. *)
Fixpoint hasTerminator (s : JS.str) : bool :=
  closesArray s
  || match s with
     | _ :: s' => hasTerminator s'
     | [] => false
     end.

(** [arrayAt open code body]: the first place of the script where the
    opening is read is followed by [body], by [];], by white space and by a
    line feed, and no place of [body] closes an array. *)
Definition arrayAt (open : re) (code body : JS.str) : Prop :=
  exists f w rest,
    exec open code = Some f
    /\ after f = body ++ js "];" ++ w ++ 10 :: rest
    /\ forallb JS.isSpace w = true
    /\ hasTerminator body = false.

(** [s] begins with a conversation marker: [{], white space, [messages:]. *)
Definition markerAt (s : JS.str) : bool :=
  match s with
  | c :: s' => (123 =? c) && JS.startsWith (JS.trimStart s') (js "messages:")
  | [] => false
  end.

(** The number of places of [s] where a conversation marker begins. *)
Fixpoint markers (s : JS.str) : N :=
  (if markerAt s then 1 else 0)
  + match s with
    | _ :: s' => markers s'
    | [] => 0
    end.

(** Two scripts with both arrays, [pt] and [en] being the texts between
    the brackets: in [twoLines] each assignment ends its line, in [oneLine]
    both are on one line. *)
Definition twoLines (pt en : JS.str) : JS.str :=
  js "var chatData = [" ++ pt ++ js "];" ++ [10]
  ++ js "const chatDataEN = [" ++ en ++ js "];" ++ [10].

Definition oneLine (pt en : JS.str) : JS.str :=
  js "var chatData = [" ++ pt ++ js "]; const chatDataEN = [" ++ en
  ++ js "];" ++ [10].

Definition two : JS.str := js "{ messages: 1 }, { messages: 2 }".
Definition three : JS.str := js "{ messages: 1 }, { messages: 2 }, {messages: 3}".
Definition four : JS.str :=
  js "{ messages: 1 }, { messages: 2 }, { messages: 3 }, { messages: 4 }".

End Chat.

(* ================================================================== *)
(** * Facts about strings *)
(* ================================================================== *)

Section StringFacts.

Lemma eqb_refl (a : JS.str) : JS.eqb a a = true.
Proof.
  induction a as [|x a IH]; simpl; [reflexivity|].
  rewrite N.eqb_refl, IH. reflexivity.
Qed.

Lemma eqb_eq (a b : JS.str) : JS.eqb a b = true <-> a = b.
Proof.
  split.
  - revert b. induction a as [|x a IH]; intros [|y b] H; simpl in H;
      try discriminate; [reflexivity|].
    apply andb_true_iff in H as [Hx Hab].
    apply N.eqb_eq in Hx. apply IH in Hab. congruence.
  - intros ->. apply eqb_refl.
Qed.

Lemma startsWith_spec (s p : JS.str) :
  JS.startsWith s p = true <-> exists post, s = p ++ post.
Proof.
  revert s. induction p as [|y p IH]; intros s; simpl.
  - split; [intros _; exists s; reflexivity | reflexivity].
  - destruct s as [|x s].
    + split; [discriminate | intros [post H]; discriminate].
    + rewrite andb_true_iff, N.eqb_eq, IH. split.
      * intros [-> [post ->]]. exists post. reflexivity.
      * intros [post H]. injection H as -> ->. split; [reflexivity|].
        exists post. reflexivity.
Qed.

Lemma includes_spec (s p : JS.str) :
  JS.includes s p = true <-> JS.occursIn p s.
Proof.
  unfold JS.occursIn. induction s as [|x s IH]; simpl.
  - rewrite orb_false_r, startsWith_spec. split.
    + intros [post H]. exists [], post. exact H.
    + intros [pre [post H]]. destruct pre; simpl in H.
      * exists post. exact H.
      * discriminate.
  - rewrite orb_true_iff, IH. split.
    + intros [H | [pre [post ->]]].
      * apply startsWith_spec in H as [post H]. exists [], post. exact H.
      * exists (x :: pre), post. reflexivity.
    + intros [pre [post H]]. destruct pre as [|y pre]; simpl in H.
      * left. apply startsWith_spec. exists post. exact H.
      * right. injection H as _ ->. exists pre, post. reflexivity.
Qed.

End StringFacts.

(* ================================================================== *)
(** * The matcher finds a match exactly when the pattern has one *)
(* ================================================================== *)

Section MatcherFacts.
Import Regex.

Lemma starLoop_sound {R} (a : re) (g : bool)
  (k : JS.str -> option JS.str -> option R) :
  (forall s cap (k' : JS.str -> option JS.str -> option R) x,
     m a s cap k' = Some x ->
     exists s' cap', Matches a s s' /\ k' s' cap' = Some x) ->
  forall fuel s cap x,
    starLoop (m a) g k fuel s cap = Some x ->
    exists s' cap', Matches (Star g a) s s' /\ k s' cap' = Some x.
Proof.
  intros Ha. induction fuel as [|fuel IH]; intros s cap x H; simpl in H.
  - exists s, cap. split; [constructor | exact H].
  - assert (Again : forall y,
              m a s cap (fun s' cap' =>
                if (List.length s' <? List.length s)%nat
                then starLoop (m a) g k fuel s' cap' else None) = Some y ->
              exists s' cap', Matches (Star g a) s s' /\ k s' cap' = Some y).
    { intros y Hy. apply Ha in Hy as (s1 & c1 & M1 & K1).
      destruct (List.length s1 <? List.length s)%nat eqn:L; [|discriminate].
      apply Nat.ltb_lt in L.
      apply IH in K1 as (s2 & c2 & M2 & K2).
      exists s2, c2. split; [|exact K2].
      eapply MStarStep; eassumption. }
    destruct g.
    + destruct (m a s cap _) as [y|] eqn:E.
      * injection H as <-. apply Again. reflexivity.
      * exists s, cap. split; [constructor | exact H].
    + destruct (k s cap) as [y|] eqn:E.
      * injection H as <-. exists s, cap. split; [constructor | exact E].
      * apply Again. exact H.
Qed.

(** Whatever the matcher returns comes from its continuation, called on
    what a match of the pattern leaves. *)
Lemma m_sound (r : re) : forall {R} s cap (k : JS.str -> option JS.str -> option R) x,
  m r s cap k = Some x ->
  exists s' cap', Matches r s s' /\ k s' cap' = Some x.
Proof.
  induction r as [|p|a IHa b IHb|a IHa b IHb|g a IHa|a IHa|];
    intros R s cap k x H; simpl in H.
  - exists s, cap. split; [constructor | exact H].
  - destruct s as [|c s]; [discriminate|].
    destruct (p c) eqn:E; [|discriminate].
    exists s, cap. split; [constructor; exact E | exact H].
  - apply IHa in H as (s1 & c1 & M1 & H).
    apply IHb in H as (s2 & c2 & M2 & H).
    exists s2, c2. split; [econstructor; eassumption | exact H].
  - destruct (m a s cap k) as [y|] eqn:E.
    + injection H as <-. apply IHa in E as (s1 & c1 & M1 & E).
      exists s1, c1. split; [apply MAltL; exact M1 | exact E].
    + apply IHb in H as (s1 & c1 & M1 & H).
      exists s1, c1. split; [apply MAltR; exact M1 | exact H].
  - apply (starLoop_sound a g k (fun s0 c0 k' x0 => IHa R s0 c0 k' x0)) in H.
    exact H.
  - apply IHa in H as (s1 & c1 & M1 & H).
    eexists s1, _. split; [constructor; exact M1 | exact H].
  - destruct s; [|discriminate]. exists [], cap.
    split; [constructor | exact H].
Qed.

(** When the pattern has a match after which the continuation succeeds, the
    matcher succeeds; for a star, with any fuel that covers the input. *)
Lemma m_complete_gen r s s' :
  Matches r s s' ->
  forall {R} cap (k : JS.str -> option JS.str -> option R),
    (forall c, k s' c <> None) ->
    m r s cap k <> None
    /\ (forall g a, r = Star g a ->
        forall fuel, (List.length s <= fuel)%nat ->
                     starLoop (m a) g k fuel s cap <> None).
Proof.
  induction 1 as [s|p c s Hp|a b s s1 s2 _ IH1 _ IH2|a b s s1 _ IH|a b s s1 _ IH
                 |g a s|g a s s1 s2 _ IH1 L _ IH2|a s s1 _ IH|];
    intros R cap k Hk.
  - split; [apply Hk | discriminate].
  - split; [simpl; rewrite Hp; apply Hk | discriminate].
  - split; [|discriminate]. simpl.
    refine (proj1 (IH1 R cap _ _)). intros c. cbv beta.
    apply (proj1 (IH2 R c k Hk)).
  - split; [|discriminate]. simpl.
    destruct (m a s cap k) eqn:E; [discriminate|].
    exfalso. exact (proj1 (IH R cap k Hk) E).
  - split; [|discriminate]. simpl.
    destruct (m a s cap k) eqn:E; [discriminate|].
    apply (proj1 (IH R cap k Hk)).
  - assert (G : forall fuel, starLoop (m a) g k fuel s cap <> None).
    { intros [|fuel]; simpl; [apply Hk|].
      destruct g.
      - destruct (m a s cap _); [discriminate | apply Hk].
      - destruct (k s cap) eqn:E; [discriminate|].
        exfalso. exact (Hk cap E). }
    split; [apply G|].
    intros g' a' E fuel _. injection E as <- <-. apply G.
  - assert (G : forall fuel, (List.length s <= fuel)%nat ->
                starLoop (m a) g k fuel s cap <> None).
    { intros [|fuel] F; [exfalso; lia|]. simpl.
      assert (Again : m a s cap (fun s' cap' =>
                        if (List.length s' <? List.length s)%nat
                        then starLoop (m a) g k fuel s' cap' else None) <> None).
      { refine (proj1 (IH1 R cap _ _)). intros c. cbv beta.
        apply Nat.ltb_lt in L as L'. rewrite L'.
        apply (proj2 (IH2 R c k Hk) g a eq_refl). lia. }
      destruct g.
      - destruct (m a s cap _); [discriminate | contradiction].
      - destruct (k s cap); [discriminate | exact Again]. }
    split; [simpl; apply G; lia|].
    intros g' a' E fuel F. injection E as <- <-. apply G. exact F.
  - split; [|discriminate]. simpl.
    refine (proj1 (IH R cap _ _)). intros c. cbv beta. apply Hk.
  - split; [apply Hk | discriminate].
Qed.

(** A match leaves a suffix of its input. *)
Lemma Matches_suffix r s s' :
  Matches r s s' -> exists consumed, s = consumed ++ s'.
Proof.
  induction 1 as [s|p c s Hp|a b s s1 s2 _ [c1 ->] _ [c2 ->]|a b s s1 _ IH
                 |a b s s1 _ IH|g a s|g a s s1 s2 _ [c1 ->] L _ [c2 ->]
                 |a s s1 _ IH|].
  - exists []. reflexivity.
  - exists [c]. reflexivity.
  - exists (c1 ++ c2). rewrite app_assoc. reflexivity.
  - exact IH.
  - exact IH.
  - exists []. reflexivity.
  - exists (c1 ++ c2). rewrite app_assoc. reflexivity.
  - exact IH.
  - exists []. reflexivity.
Qed.

Lemma searchFrom_eq r pre s :
  searchFrom r pre s
  = match m r s None (fun rest cap => Some (rest, cap)) with
    | Some (rest, cap) =>
        Some (mkFound (rev pre)
                (firstn (List.length s - List.length rest) s) cap rest)
    | None =>
        match s with
        | [] => None
        | c :: s' => searchFrom r (c :: pre) s'
        end
    end.
Proof. destruct s; reflexivity. Qed.

Lemma matched_here r t rest :
  Matches r t rest ->
  firstn (List.length t - List.length rest) t ++ rest = t.
Proof.
  intros M1. destruct (Matches_suffix _ _ _ M1) as [cs ->].
  rewrite length_app, Nat.add_sub, firstn_app, firstn_all, Nat.sub_diag.
  simpl. rewrite app_nil_r. reflexivity.
Qed.

Lemma searchFrom_sound r : forall s pre f,
  searchFrom r pre s = Some f ->
  exists p t,
    s = p ++ t /\ Matches r t (after f)
    /\ before f = rev pre ++ p /\ matched f ++ after f = t.
Proof.
  assert (Here : forall s pre rest cap,
            m r s None (fun rest cap => Some (rest, cap)) = Some (rest, cap) ->
            exists p t,
              s = p ++ t /\ Matches r t rest
              /\ rev pre = rev pre ++ p
              /\ firstn (List.length s - List.length rest) s ++ rest = t).
  { intros s pre rest cap E. apply m_sound in E as (s1 & c1 & M1 & E).
    injection E as -> ->. exists [], s. rewrite app_nil_r.
    repeat split; try reflexivity; [exact M1|].
    apply (matched_here r). exact M1. }
  induction s as [|c s IH]; intros pre f H; rewrite searchFrom_eq in H;
    destruct (m r _ None _) as [[rest cap]|] eqn:E.
  - injection H as <-. eapply Here. exact E.
  - discriminate.
  - injection H as <-. eapply Here. exact E.
  - apply IH in H as (p & t & -> & M1 & B & T).
    exists (c :: p), t. repeat split; try assumption.
    rewrite B. simpl. rewrite <- app_assoc. reflexivity.
Qed.

Lemma searchFrom_complete r : forall p pre t rest,
  Matches r t rest -> searchFrom r pre (p ++ t) <> None.
Proof.
  assert (Here : forall pre t rest, Matches r t rest ->
                   searchFrom r pre t <> None).
  { intros pre t rest M1.
    pose proof (proj1 (m_complete_gen r t rest M1 None
                         (fun rest cap => Some (rest, cap))
                         (fun c => ltac:(discriminate)))) as C.
    rewrite searchFrom_eq.
    destruct (m r _ None _) as [[? ?]|]; [discriminate | contradiction]. }
  induction p as [|c p IH]; intros pre t rest M1; [eapply Here; eassumption|].
  rewrite searchFrom_eq. simpl app.
  destruct (m r (c :: p ++ t) None _) as [[? ?]|]; [discriminate|].
  eapply IH. eassumption.
Qed.

(** [exec] and [test] decide whether the pattern matches somewhere. *)
Lemma exec_spec r s : exec r s <> None <-> MatchesIn r s.
Proof.
  unfold exec, MatchesIn. split.
  - destruct (searchFrom r [] s) as [f|] eqn:E; [|congruence].
    intros _. apply searchFrom_sound in E as (p & t & -> & M1 & _).
    exists p, t, (after f). split; [reflexivity | exact M1].
  - intros (p & t & rest & -> & M1). eapply searchFrom_complete. eassumption.
Qed.

(** A successful [exec] splits the input around the match. *)
Lemma exec_split r s f :
  exec r s = Some f -> s = before f ++ matched f ++ after f.
Proof.
  unfold exec. intros H.
  apply searchFrom_sound in H as (p & t & -> & _ & B & T).
  rewrite B, T. reflexivity.
Qed.

End MatcherFacts.

(* ================================================================== *)
(** * Facts about the Reporter *)
(* ================================================================== *)

Section ReporterFacts.
Import Reporter.

Lemma counters_log line r : counters (log line r) = counters r.
Proof. reflexivity. Qed.

Lemma counters_logDetail d r : counters (logDetail d r) = counters r.
Proof. destruct d as [d|]; simpl; [destruct (JS.truthy d)|]; reflexivity. Qed.

Lemma counters_pass l r :
  counters (pass l r) = (passed r + 1, failed r, warnings r).
Proof. reflexivity. Qed.

Lemma counters_fail l d r :
  counters (fail l d r) = (passed r, failed r + 1, warnings r).
Proof. unfold fail. rewrite counters_logDetail. reflexivity. Qed.

Lemma counters_warn l d r :
  counters (warn l d r) = (passed r, failed r, warnings r + 1).
Proof. unfold warn. rewrite counters_logDetail. reflexivity. Qed.

Lemma counters_inv r a b c :
  counters r = (a, b, c) -> passed r = a /\ failed r = b /\ warnings r = c.
Proof. unfold counters. intros H. injection H as -> -> ->. auto. Qed.

Lemma counters_logResults r : counters (logResults r) = counters r.
Proof. reflexivity. Qed.

Lemma counters_record k l d r :
  counters (record k l d r) = bump k (counters r).
Proof.
  destruct k; simpl;
    rewrite ?counters_pass, ?counters_fail, ?counters_warn; reflexivity.
Qed.

(** The counters after a sequence of calls depend on the counters before
    it only. *)
Lemma counters_recordAll l : forall r r',
  counters r = counters r' ->
  counters (recordAll l r) = counters (recordAll l r').
Proof.
  induction l as [|o l IH]; intros r r' H; simpl; [exact H|].
  apply IH. rewrite !counters_record. congruence.
Qed.

Lemma bump_swap k1 k2 c : bump k1 (bump k2 c) = bump k2 (bump k1 c).
Proof. destruct c as [[p f] w], k1, k2; reflexivity. Qed.

Lemma counters_recordAll_perm l1 l2 :
  Permutation l1 l2 ->
  forall r, counters (recordAll l1 r) = counters (recordAll l2 r).
Proof.
  induction 1 as [|x l l' _ IH|x y l|l l' l'' _ IH1 _ IH2]; intros r; simpl.
  - reflexivity.
  - apply IH.
  - apply counters_recordAll. rewrite !counters_record. apply bump_swap.
  - rewrite IH1. apply IH2.
Qed.

Lemma summarize_counters r r' :
  counters r' = counters r -> summarize r' = summarize r.
Proof.
  intros H. symmetry in H. apply counters_inv in H as (_ & Hf & Hw).
  unfold summarize. rewrite Hf, Hw. reflexivity.
Qed.

End ReporterFacts.

(* ================================================================== *)
(** * Counters never go down *)
(* ================================================================== *)

Section Growth.
Import Reporter.

Lemma grows_refl r : grows r r.
Proof. unfold grows. lia. Qed.

Lemma grows_trans r1 r2 r3 : grows r1 r2 -> grows r2 r3 -> grows r1 r3.
Proof. unfold grows. lia. Qed.

Lemma grows_counters r r' a b c :
  counters r' = (a, b, c) ->
  passed r <= a -> failed r <= b -> warnings r <= c -> grows r r'.
Proof.
  intros H. apply counters_inv in H as (Hp & Hf & Hw).
  unfold grows. rewrite Hp, Hf, Hw. auto.
Qed.

Lemma grows_log r line r' : grows r r' -> grows r (log line r').
Proof. intros H. exact H. Qed.

Lemma grows_pass r l r' : grows r r' -> grows r (pass l r').
Proof.
  intros (Hp & Hf & Hw).
  apply (grows_counters _ _ _ _ _ (counters_pass l r')); lia.
Qed.

Lemma grows_fail r l d r' : grows r r' -> grows r (fail l d r').
Proof.
  intros (Hp & Hf & Hw).
  apply (grows_counters _ _ _ _ _ (counters_fail l d r')); lia.
Qed.

Lemma grows_warn r l d r' : grows r r' -> grows r (warn l d r').
Proof.
  intros (Hp & Hf & Hw).
  apply (grows_counters _ _ _ _ _ (counters_warn l d r')); lia.
Qed.

Lemma grows_check r l c d r' : grows r r' -> grows r (check l c d r').
Proof.
  intros H. unfold check. destruct c; [apply grows_pass | apply grows_fail]; exact H.
Qed.

Lemma grows_forEach {A} (f : A -> reporter -> reporter) (l : list A) :
  (forall x r r', grows r r' -> grows r (f x r')) ->
  forall r r', grows r r' -> grows r (forEach f l r').
Proof.
  intros Hf. unfold forEach.
  induction l as [|x l IH]; intros r r' H; simpl; [exact H|].
  apply IH. apply Hf. exact H.
Qed.

Lemma grows_logResults r r' : grows r r' -> grows r (logResults r').
Proof. intros H. exact H. Qed.

Lemma grows_header t r r' : grows r r' -> grows r (Validator.header t r').
Proof. intros H. exact H. Qed.

End Growth.

(** Splits a goal [grows r (f ... r')] along the calls of the script. *)
Ltac grow :=
  repeat first
    [ assumption
    | match goal with
      | |- Reporter.grows ?r ?r => apply grows_refl
      | |- Reporter.grows _ (Reporter.pass _ _) => apply grows_pass
      | |- Reporter.grows _ (Reporter.fail _ _ _) => apply grows_fail
      | |- Reporter.grows _ (Reporter.warn _ _ _) => apply grows_warn
      | |- Reporter.grows _ (Reporter.check _ _ _ _) => apply grows_check
      | |- Reporter.grows _ (Reporter.log _ _) => apply grows_log
      | |- Reporter.grows _ (Reporter.logResults _) => apply grows_logResults
      | |- Reporter.grows _ (Validator.header _ _) => apply grows_header
      | |- Reporter.grows _ (Reporter.forEach _ _ _) =>
          apply grows_forEach; [intros | ]
      | |- Reporter.grows _ (if ?c then _ else _) => destruct c
      | |- Reporter.grows _ (match ?x with _ => _ end) => destruct x
      end ].

Section ValidatorGrowth.
Import Reporter Validator.
Variable parse : JS.str -> Dom.document.
Variable parseSelector : JS.str -> option Dom.selector.
Variable defaultMessage : Zod.rule -> option Zod.value -> JS.str.

Lemma grows_reportIssues ok prefix detail issues r r' :
  grows r r' -> grows r (reportIssues ok prefix detail issues r').
Proof. intros H. unfold reportIssues. destruct issues; grow. Qed.

Lemma grows_eachCard cards : forall i r r',
  grows r r' -> grows r (eachCard i cards r').
Proof.
  induction cards as [|c cards IH]; intros i r r' H; simpl; [exact H|].
  apply IH. unfold checkCard. grow.
Qed.

Lemma grows_metaGroup doc r r' :
  grows r r' -> grows r (metaGroup defaultMessage doc r').
Proof.
  intros H. unfold metaGroup. cbv zeta.
  apply grows_check, grows_reportIssues, grows_header, H.
Qed.

Lemma grows_sectionGroup doc r r' :
  grows r r' -> grows r (sectionGroup defaultMessage doc r').
Proof.
  intros H. unfold sectionGroup. cbv zeta.
  apply grows_reportIssues, grows_header, H.
Qed.

Lemma grows_contentGroup doc r r' :
  grows r r' -> grows r (contentGroup defaultMessage doc r').
Proof.
  intros H. unfold contentGroup, agentCardsCheck. cbv zeta.
  apply grows_pass, grows_eachCard, grows_reportIssues, grows_header, H.
Qed.

Lemma grows_assetGroup w html doc r r' :
  grows r r' -> grows r (assetGroup w html doc r').
Proof.
  intros H. unfold assetGroup. cbv zeta.
  destruct (missingAssets w html doc); grow.
Qed.

Lemma grows_reportLinks l r r' :
  grows r r' -> grows r (reportLinks l r').
Proof. intros H. unfold reportLinks. cbv zeta. grow. Qed.

Lemma grows_imageGroup doc r r' :
  grows r r' -> grows r (imageGroup doc r').
Proof.
  intros H. unfold imageGroup. cbv zeta.
  generalize (collectImgIssues doc). intros issues.
  destruct (lazyWithoutDimensions issues), (missingAlt issues); grow.
Qed.

Lemma grows_translationGroup doc r r' :
  grows r r' -> grows r (translationGroup defaultMessage doc r').
Proof.
  intros H. unfold translationGroup, localStorageCheck, defaultLangCheck.
  cbv zeta. repeat apply grows_check.
  apply grows_reportIssues, grows_header, H.
Qed.

Lemma grows_chatGroup doc r r' :
  grows r r' -> grows r (chatGroup doc r').
Proof.
  intros H. unfold chatGroup, ptChatCheck, enChatCheck. cbv zeta.
  destruct (ptChatMatch (allJs doc)), (enChatMatch (allJs doc)); grow.
Qed.

Lemma grows_legalGroup doc r r' :
  grows r r' -> grows r (legalGroup doc r').
Proof.
  intros H. unfold legalGroup. cbv zeta. repeat apply grows_check.
  apply grows_header, H.
Qed.

Lemma grows_qualityGroup html doc r r' :
  grows r r' -> grows r (qualityGroup html doc r').
Proof.
  intros H. unfold qualityGroup. cbv zeta.
  destruct (Regex.test todoRe html),
    (Regex.test emDashRe (Dom.text (Dom.select doc [[Dom.Tag (js "body")]]))),
    (JS.includes html (js "5511999999999")),
    (0 <? count (Dom.select doc
                   [[Dom.Tag (js "footer")];
                    [Dom.Tag (js "a"); Dom.AttrEq (js "href") (js "#")]]));
    grow.
Qed.

Lemma grows_cdnGroup html r r' :
  grows r r' -> grows r (cdnGroup html r').
Proof.
  intros H. unfold cdnGroup. cbv zeta.
  apply grows_forEach; [intros; apply grows_check; assumption|].
  apply grows_header, H.
Qed.

Lemma grows_summary r r' :
  grows r r' -> grows r (reportOf (summary r')).
Proof.
  intros H. unfold summary. cbv zeta.
  destruct (0 <? failed (logResults r')); [exact H|].
  destruct (0 <? warnings (logResults r')); exact H.
Qed.

Lemma grows_runFrom w r :
  grows r (reportOf (runFrom parse parseSelector defaultMessage w r)).
Proof.
  unfold runFrom. destruct (readFile w (js "index.html")) as [html|];
    [|apply grows_refl].
  cbv zeta.
  assert (H : grows r
                (header (js "5. Internal Links")
                   (assetGroup w html (parse html)
                      (contentGroup defaultMessage (parse html)
                         (sectionGroup defaultMessage (parse html)
                            (metaGroup defaultMessage (parse html) r)))))).
  { apply grows_header, grows_assetGroup, grows_contentGroup,
      grows_sectionGroup, grows_metaGroup, grows_refl. }
  destruct (brokenLinks parseSelector w (parse html)) as [links|];
    [|exact H].
  apply grows_summary, grows_cdnGroup, grows_qualityGroup, grows_legalGroup,
    grows_chatGroup, grows_translationGroup, grows_imageGroup,
    grows_reportLinks, H.
Qed.

End ValidatorGrowth.

Section ProberGrowth.
Import Reporter Prober.
Local Open Scope prober_scope.
Variable b : browser.

Lemma growing_ret {A} (a : A) : growing (ret a).
Proof. intros s. apply grows_refl. Qed.

Lemma growing_await {A} (o : outcome A) : growing (await o).
Proof. intros s. apply grows_refl. Qed.

Lemma growing_newContext n : growing (newContext n).
Proof. intros s. apply grows_refl. Qed.

Lemma growing_closeContext n : growing (closeContext n).
Proof. intros s. apply grows_refl. Qed.

Lemma growing_report f :
  (forall r, grows r (f r)) -> growing (report f).
Proof. intros H s. apply H. Qed.

Lemma growing_bind {A B} (c : P A) (f : A -> P B) :
  growing c -> (forall a, growing (f a)) -> growing (bind c f).
Proof.
  intros Hc Hf s. unfold bind. specialize (Hc s).
  destruct (c s) as [[a|e] s']; simpl in *; [|exact Hc].
  eapply grows_trans; [exact Hc | apply Hf].
Qed.

Lemma growing_tryCatch {A} (c : P A) (h : JS.str -> P A) :
  growing c -> (forall e, growing (h e)) -> growing (tryCatch c h).
Proof.
  intros Hc Hh s. unfold tryCatch. specialize (Hc s).
  destruct (c s) as [[a|e] s']; simpl in *; [exact Hc|].
  eapply grows_trans; [exact Hc | apply Hh].
Qed.

Lemma growing_forOf {A} (xs : list A) (f : A -> P unit) :
  (forall x, growing (f x)) -> growing (forOf xs f).
Proof.
  intros Hf. induction xs as [|x xs IH]; simpl.
  - apply growing_ret.
  - apply growing_bind; [apply Hf | intros _; exact IH].
Qed.

Lemma growing_passOrFail c ok ko d : growing (passOrFail c ok ko d).
Proof. apply growing_report. intros r. destruct c; grow. Qed.

Lemma growing_passOrFailEach l ok ko d : growing (passOrFailEach l ok ko d).
Proof. apply growing_report. intros r. destruct l; grow. Qed.

Lemma growing_header t : growing (header t).
Proof. apply growing_report. intros r. grow. Qed.

(** Splits a goal [growing c] along the statements of [c]. *)
Ltac growing :=
  repeat first
    [ match goal with
      | |- growing (bind _ _) => apply growing_bind; [|intros ?]
      end
    | apply growing_ret | apply growing_await | apply growing_newContext
    | apply growing_closeContext | apply growing_passOrFail
    | apply growing_passOrFailEach | apply growing_header
    | apply growing_tryCatch; [|intros ?]
    | apply growing_forOf; intros ?
    | apply growing_report; intros ?;
      repeat match goal with
             | |- grows _ ((if ?c then _ else _) _) => destruct c
             | |- grows _ ((match ?x with Some _ => _ | None => _ end) _) =>
                 destruct x
             end; grow ].

Lemma growing_loadGroup : growing (loadGroup b).
Proof. unfold loadGroup, loadCheck, loadProbe. growing. Qed.

Lemma growing_layoutGroup : growing (layoutGroup b).
Proof. unfold layoutGroup, layoutCheck. growing. Qed.

Lemma growing_imageGroup : growing (imageGroup b).
Proof. unfold imageGroup. growing. Qed.

Lemma growing_langGroup : growing (langGroup b).
Proof. unfold langGroup. growing. Qed.

Lemma growing_animGroup : growing (animGroup b).
Proof. unfold animGroup. growing. Qed.

Lemma growing_interGroup : growing (interGroup b).
Proof. unfold interGroup. growing. Qed.

Lemma growing_perfGroup : growing (perfGroup b).
Proof. unfold perfGroup. cbv zeta. growing. Qed.

Lemma growing_body : growing (body b).
Proof.
  unfold body, groups.
  repeat match goal with
         | |- growing (bind _ _) => apply growing_bind; [|intros ?]
         end;
    first
      [ apply growing_await | apply growing_loadGroup
      | apply growing_layoutGroup | apply growing_imageGroup
      | apply growing_langGroup | apply growing_animGroup
      | apply growing_interGroup | apply growing_perfGroup
      | apply growing_report; intros r; grow ].
Qed.

Lemma grows_prober_summary r r' :
  grows r r' -> grows r (snd (summary r')).
Proof.
  intros H. unfold summary. cbv zeta.
  destruct (0 <? failed (logResults r')); [exact H|].
  destruct (0 <? warnings (logResults r')); exact H.
Qed.

Lemma grows_prober_runFrom s :
  grows (rep s) (rep (stateOf (runFrom b s))).
Proof.
  unfold runFrom. pose proof (growing_body s) as H.
  destruct (body b s) as [[u|e] s']; simpl in *; [|exact H].
  pose proof (grows_prober_summary _ _ H) as H'.
  destruct (summary (rep s')) as [code r]. exact H'.
Qed.

End ProberGrowth.

(* ================================================================== *)
(** * C1: the final status *)
(* ================================================================== *)

Section FinalStatus.
Import Reporter.

Lemma validator_summary_eq r :
  Validator.summary r
  = Validator.Exited (exitCode (summarize r))
      (log (Validator.banner (summarize r)) (logResults r)).
Proof.
  unfold Validator.summary, summarize. cbv zeta.
  change (failed (logResults r)) with (failed r).
  change (warnings (logResults r)) with (warnings r).
  destruct (0 <? failed r); [reflexivity|].
  destruct (0 <? warnings r); reflexivity.
Qed.

Lemma prober_summary_eq r :
  Prober.summary r
  = (exitCode (summarize r),
     log (Prober.banner (summarize r)) (logResults r)).
Proof.
  unfold Prober.summary, summarize. cbv zeta.
  change (failed (logResults r)) with (failed r).
  change (warnings (logResults r)) with (warnings r).
  destruct (0 <? failed r); [reflexivity|].
  destruct (0 <? warnings r); reflexivity.
Qed.

Lemma summarize_cases r :
  (0 < failed r -> summarize r = Failure)
  /\ (failed r = 0 -> 0 < warnings r -> summarize r = SuccessWithWarnings)
  /\ (failed r = 0 -> warnings r = 0 -> summarize r = Success).
Proof.
  unfold summarize. repeat split.
  - intros H. apply N.ltb_lt in H. rewrite H. reflexivity.
  - intros -> H. apply N.ltb_lt in H. rewrite H. reflexivity.
  - intros -> ->. reflexivity.
Qed.

Lemma summarize_after_banner line r :
  summarize (log line (logResults r)) = summarize r.
Proof. apply summarize_counters. reflexivity. Qed.

(** A run of the validator that reaches the summary exits with the code of
    the status of its final counters. *)
Lemma validator_run_exit parse parseSelector defaultMessage w r code r' :
  Validator.runFrom parse parseSelector defaultMessage w r
  = Validator.Exited code r' ->
  code = exitCode (summarize r').
Proof.
  unfold Validator.runFrom.
  destruct (Validator.readFile w (js "index.html")) as [html|]; [|discriminate].
  cbv zeta.
  destruct (Validator.brokenLinks parseSelector w (parse html)) as [links|];
    [|discriminate].
  rewrite validator_summary_eq. intros H. injection H as <- <-.
  rewrite summarize_after_banner. reflexivity.
Qed.

Lemma prober_run_exit b s code s' :
  Prober.runFrom b s = Prober.Exited code s' ->
  code = exitCode (summarize (Prober.rep s')).
Proof.
  unfold Prober.runFrom.
  destruct (Prober.body b s) as [[u|e] s1]; [|discriminate].
  rewrite prober_summary_eq. intros H. injection H as <- <-.
  cbn [Prober.rep]. rewrite summarize_after_banner. reflexivity.
Qed.

End FinalStatus.

(** C1. In both scripts the summary branch is the specification's
    [summarize] of the three counters: it prints the banner of that status
    and exits with its code. With a failure the status is [Failure] and the
    code 1; with none and a warning it is [SuccessWithWarnings] and the code
    0; with neither it is [Success] and the code 0. The status depends on
    the counters alone, so two sequences of [pass], [fail] and [warn] calls
    that are permutations of each other end in the same status; and a run of
    either script that reaches its summary exits with the code of the status
    of its final counters. *)
Theorem C1_final_status_from_counters :
  forall r : Reporter.reporter,
    Validator.summary r
    = Validator.Exited (Reporter.exitCode (Reporter.summarize r))
        (Reporter.log (Validator.banner (Reporter.summarize r))
           (Reporter.logResults r))
    /\ Prober.summary r
       = (Reporter.exitCode (Reporter.summarize r),
          Reporter.log (Prober.banner (Reporter.summarize r))
            (Reporter.logResults r))
    /\ (0 < Reporter.failed r ->
        Reporter.summarize r = Reporter.Failure
        /\ Reporter.exitCode (Reporter.summarize r) = 1%Z)
    /\ (Reporter.failed r = 0 -> 0 < Reporter.warnings r ->
        Reporter.summarize r = Reporter.SuccessWithWarnings
        /\ Reporter.exitCode (Reporter.summarize r) = 0%Z)
    /\ (Reporter.failed r = 0 -> Reporter.warnings r = 0 ->
        Reporter.summarize r = Reporter.Success
        /\ Reporter.exitCode (Reporter.summarize r) = 0%Z)
    /\ (forall r', Reporter.counters r' = Reporter.counters r ->
        Reporter.summarize r' = Reporter.summarize r)
    /\ (forall l1 l2, Permutation l1 l2 ->
        Reporter.summarize (Reporter.recordAll l1 r)
        = Reporter.summarize (Reporter.recordAll l2 r))
    /\ (forall parse parseSelector defaultMessage w code r',
        Validator.runFrom parse parseSelector defaultMessage w r
        = Validator.Exited code r' ->
        code = Reporter.exitCode (Reporter.summarize r'))
    /\ (forall b contexts code s',
        Prober.runFrom b (Prober.mkState r contexts) = Prober.Exited code s' ->
        code = Reporter.exitCode (Reporter.summarize (Prober.rep s'))).
Proof.
  intros r. destruct (summarize_cases r) as (HF & HW & HS).
  split; [apply validator_summary_eq|].
  split; [apply prober_summary_eq|].
  split; [intros H; rewrite (HF H); split; reflexivity|].
  split; [intros H1 H2; rewrite (HW H1 H2); split; reflexivity|].
  split; [intros H1 H2; rewrite (HS H1 H2); split; reflexivity|].
  split; [intros r'; apply summarize_counters|].
  split; [intros l1 l2 HP; apply summarize_counters;
          apply counters_recordAll_perm, HP|].
  split; [intros parse ps dm w code r'; apply validator_run_exit|].
  intros b contexts code s'. apply prober_run_exit.
Qed.

Lemma C1_final_status_witness :
  (0 < Reporter.failed (Reporter.mkReporter 7 1 2 [])
   /\ Reporter.summarize (Reporter.mkReporter 7 1 2 []) = Reporter.Failure
   /\ Reporter.exitCode (Reporter.summarize (Reporter.mkReporter 7 1 2 [])) = 1%Z)
  /\ (Reporter.failed (Reporter.mkReporter 7 0 2 []) = 0
      /\ 0 < Reporter.warnings (Reporter.mkReporter 7 0 2 [])
      /\ Reporter.summarize (Reporter.mkReporter 7 0 2 [])
         = Reporter.SuccessWithWarnings
      /\ Reporter.exitCode (Reporter.summarize (Reporter.mkReporter 7 0 2 [])) = 0%Z)
  /\ (Reporter.failed (Reporter.mkReporter 7 0 0 []) = 0
      /\ Reporter.warnings (Reporter.mkReporter 7 0 0 []) = 0
      /\ Reporter.summarize (Reporter.mkReporter 7 0 0 []) = Reporter.Success
      /\ Reporter.exitCode (Reporter.summarize (Reporter.mkReporter 7 0 0 [])) = 0%Z)
  /\ (Permutation
        [(Reporter.KFail, js "a", @None JS.str); (Reporter.KPass, js "b", @None JS.str)]
        [(Reporter.KPass, js "b", @None JS.str); (Reporter.KFail, js "a", @None JS.str)]
      /\ Reporter.summarize
           (Reporter.recordAll
              [(Reporter.KFail, js "a", @None JS.str); (Reporter.KPass, js "b", @None JS.str)]
              Reporter.init)
         = Reporter.summarize
             (Reporter.recordAll
                [(Reporter.KPass, js "b", @None JS.str); (Reporter.KFail, js "a", @None JS.str)]
                Reporter.init)).
Proof.
  split; [|split; [|split]].
  - split; [reflexivity|].
    apply (C1_final_status_from_counters (Reporter.mkReporter 7 1 2 [])).
    reflexivity.
  - split; [reflexivity|]. split; [reflexivity|].
    apply (C1_final_status_from_counters (Reporter.mkReporter 7 0 2 []));
      reflexivity.
  - split; [reflexivity|]. split; [reflexivity|].
    apply (C1_final_status_from_counters (Reporter.mkReporter 7 0 0 []));
      reflexivity.
  - split; [apply perm_swap|].
    apply (C1_final_status_from_counters Reporter.init). apply perm_swap.
Defined.

(* ================================================================== *)
(** * C4: what a recorded outcome does to the counters *)
(* ================================================================== *)

(** C4. In both scripts [fail] adds one to [failed] and leaves [passed] and
    [warnings] as they were, [warn] adds one to [warnings] only and [pass]
    adds one to [passed] only; [check] is one of [pass] and [fail]; the
    prober's calls change its reporter through these functions; and over a
    whole run of either script, from any reporter, no counter ends below its
    value at the start. *)
Theorem C4_counters_frame :
  (forall label detail r,
      Reporter.counters (Reporter.fail label detail r)
      = (Reporter.passed r, Reporter.failed r + 1, Reporter.warnings r))
  /\ (forall label detail r,
      Reporter.counters (Reporter.warn label detail r)
      = (Reporter.passed r, Reporter.failed r, Reporter.warnings r + 1))
  /\ (forall label r,
      Reporter.counters (Reporter.pass label r)
      = (Reporter.passed r + 1, Reporter.failed r, Reporter.warnings r))
  /\ (forall label detail r,
      Reporter.check label true detail r = Reporter.pass label r
      /\ Reporter.check label false detail r = Reporter.fail label detail r)
  /\ (forall f s,
      Prober.rep (snd (Prober.report f s)) = f (Prober.rep s))
  /\ (forall parse parseSelector defaultMessage w r,
      Reporter.grows r
        (Validator.reportOf
           (Validator.runFrom parse parseSelector defaultMessage w r)))
  /\ (forall b s,
      Reporter.grows (Prober.rep s)
        (Prober.rep (Prober.stateOf (Prober.runFrom b s)))).
Proof.
  split; [intros; apply counters_fail|].
  split; [intros; apply counters_warn|].
  split; [intros; apply counters_pass|].
  split; [intros; split; reflexivity|].
  split; [intros; reflexivity|].
  split; [intros; apply grows_runFrom|].
  intros; apply grows_prober_runFrom.
Qed.

(* ================================================================== *)
(** * Counting the failures of a loop *)
(* ================================================================== *)

Section LoopCounts.
Import Reporter Validator.

Lemma counters_forEach_fail {A} (lbl : A -> JS.str)
  (det : A -> option JS.str) (l : list A) : forall r,
  counters (forEach (fun x => fail (lbl x) (det x)) l r)
  = (passed r, failed r + count l, warnings r).
Proof.
  unfold forEach, count.
  induction l as [|x l IH]; intros r; simpl fold_left.
  - unfold counters. simpl. rewrite N.add_0_r. reflexivity.
  - rewrite IH.
    destruct (counters_inv _ _ _ _ (counters_fail (lbl x) (det x) r))
      as (-> & -> & ->).
    f_equal. f_equal. cbn [List.length]. lia.
Qed.

(** [if (l.length === 0) pass(ok) else l.forEach(fail)] adds [l.length]
    failures. *)
Lemma failed_pass_or_each {A} (ok : JS.str) (lbl : A -> JS.str)
  (det : A -> option JS.str) (l : list A) r :
  failed (match l with
          | [] => pass ok r
          | x :: l' => forEach (fun x => fail (lbl x) (det x)) (x :: l') r
          end) = failed r + count l.
Proof.
  destruct l as [|x l].
  - unfold count. simpl. lia.
  - apply (counters_inv _ _ _ _ (counters_forEach_fail lbl det (x :: l) r)).
Qed.

Lemma counters_checkCard i card r :
  counters (checkCard i card r)
  = (passed r, failed r + (if cardIncomplete card then 1 else 0), warnings r).
Proof.
  unfold checkCard. destruct (cardIncomplete card).
  - apply counters_fail.
  - unfold counters. rewrite N.add_0_r. reflexivity.
Qed.

Lemma counters_eachCard cards : forall i r,
  counters (eachCard i cards r)
  = (passed r, failed r + count (filter cardIncomplete cards), warnings r).
Proof.
  unfold count.
  induction cards as [|c cards IH]; intros i r; simpl.
  - unfold counters. rewrite N.add_0_r. reflexivity.
  - rewrite IH.
    destruct (counters_inv _ _ _ _ (counters_checkCard i c r))
      as (-> & -> & ->).
    f_equal. f_equal. destruct (cardIncomplete c); cbn [List.length]; lia.
Qed.

End LoopCounts.

(* ================================================================== *)
(** * C3: completeness of the agent cards *)
(* ================================================================== *)

(** C3. The loop over the agent cards records one failure for each card
    that lacks a label, a title, a body or three tags, and nothing for a
    complete card. The pass [All agent cards have label, title, body, and
    tags] that follows is recorded whatever the loop found: on the document
    with one empty card the script reports [Agent card 0 incomplete] and
    then that pass. The tags of a card are the [span] elements below an
    element of class [flex-wrap] that is the card itself or is inside it: a
    card that carries the class with three [span] children is complete, and
    the class on an element above the card gives it no tag. *)
Theorem C3_agent_cards_pass_is_unconditional :
  (forall doc r,
      Reporter.counters (Validator.agentCardsCheck doc r)
      = (Reporter.passed r + 1,
         Reporter.failed r
         + Validator.count
             (filter Validator.cardIncomplete
                (Dom.select doc [[Dom.Class (js "sobre-card")]])),
         Reporter.warnings r))
  /\ Validator.cardIncomplete
       (Dom.mkElement [] (js "div") [(js "class", js "sobre-card")] []) = true
  /\ Validator.agentCardsCheck Samples.emptyCardDoc Reporter.init
     = Reporter.pass (js "All agent cards have label, title, body, and tags")
         (Reporter.fail (js "Agent card 0 incomplete")
            (Some (js "label=" ++ [34; 34] ++ js " title=" ++ [34; 34]
                   ++ js " tags=0"))
            Reporter.init)
  /\ map (fun card => (Validator.cardTags card, Validator.cardIncomplete card))
       (Dom.select Cases.wrapCardDoc [[Dom.Class (js "sobre-card")]])
     = [(3, false)]
  /\ map (fun card => (Validator.cardTags card, Validator.cardIncomplete card))
       (Dom.select Cases.wrappedCardDoc [[Dom.Class (js "sobre-card")]])
     = [(0, true)].
Proof.
  split; [|repeat split; vm_compute; reflexivity].
  intros doc r. unfold Validator.agentCardsCheck. cbv zeta.
  rewrite counters_pass.
  destruct (counters_inv _ _ _ _
              (counters_eachCard
                 (Dom.select doc [[Dom.Class (js "sobre-card")]]) 0 r))
    as (-> & -> & ->).
  reflexivity.
Qed.

(* ================================================================== *)
(** * C5: the image checks *)
(* ================================================================== *)

Section ImageFacts.
Import Reporter Dom Validator.

Lemma checkImage_eq acc e :
  checkImage acc e
  = mkImgIssues
      (missingAlt acc
       ++ (if inspected e && lacksAlt e then [fileName e] else []))
      (lazyWithoutDimensions acc
       ++ (if inspected e && lazyNoDims e && negb (isSvg e)
           then [fileName e] else [])).
Proof.
  unfold checkImage, inspected, lacksAlt, lazyNoDims, isSvg, fileName.
  cbv zeta.
  destruct (JS.startsWith (JS.orEmpty (attr (js "src") e)) (js "data:")
            || negb (JS.truthy (JS.orEmpty (attr (js "src") e)))).
  - simpl. rewrite !app_nil_r. destruct acc; reflexivity.
  - simpl negb. rewrite !andb_true_l.
    destruct (attr (js "alt") e);
      destruct (match attr (js "loading") e with
                | Some l => JS.eqb l (js "lazy")
                | None => false
                end
                && (negb (JS.truthyOpt (attr (js "width") e))
                    || negb (JS.truthyOpt (attr (js "height") e)))
                && negb (JS.endsWith (JS.orEmpty (attr (js "src") e)) (js ".svg")));
      simpl; rewrite ?app_nil_r; destruct acc; reflexivity.
Qed.

Lemma fold_checkImage l : forall acc,
  fold_left checkImage l acc
  = mkImgIssues
      (missingAlt acc
       ++ map fileName (filter (fun e => inspected e && lacksAlt e) l))
      (lazyWithoutDimensions acc
       ++ map fileName
            (filter (fun e => inspected e && lazyNoDims e && negb (isSvg e)) l)).
Proof.
  induction l as [|e l IH]; intros acc; simpl.
  - rewrite !app_nil_r. destruct acc; reflexivity.
  - rewrite IH, checkImage_eq. simpl.
    destruct (inspected e && lacksAlt e);
      destruct (inspected e && lazyNoDims e && negb (isSvg e));
      simpl; rewrite <- ?app_assoc; reflexivity.
Qed.

End ImageFacts.

(** C5, as the specification states it, fails: an image whose source is a
    [data:] URI and which has no [alt], and a lazy image without dimensions
    and without a source, are both skipped; the run records no failure and
    passes both image checks. *)
Lemma C5_skipped_images_not_reported :
  Dom.select Samples.skippedImagesDoc [[Dom.Tag (js "img")]]
  = [ Dom.mkElement [] (js "img")
        [(js "src", js "data:image/gif;base64,R0lGOD")] [];
      Dom.mkElement [] (js "img") [(js "loading", js "lazy")] [] ]
  /\ Dom.lookup (js "alt") [(js "src", js "data:image/gif;base64,R0lGOD")] = None
  /\ Dom.lookup (js "width") [(js "loading", js "lazy")] = None
  /\ Validator.imageGroup Samples.skippedImagesDoc Reporter.init
     = Reporter.pass (js "All lazy-loaded images have width/height")
         (Reporter.pass (js "All images have alt attributes")
            (Validator.header (js "6. Images") Reporter.init))
  /\ Reporter.failed
       (Validator.imageGroup Samples.skippedImagesDoc Reporter.init) = 0.
Proof. vm_compute. repeat split; reflexivity. Qed.

(** C5, amended. Among the images whose source is not empty and does not
    start with [data:], the script reports, in document order, every one
    whose [alt] attribute is absent (an empty [alt] is a present one), and
    every one with [loading="lazy"] whose [width] or [height] is absent or
    empty unless its source ends in [.svg]; each is one failure, and the
    group records no other failure. Images with no source or a [data:]
    source are skipped. *)
Theorem C5_image_checks :
  forall doc r,
    Validator.missingAlt (Validator.collectImgIssues doc)
    = map Validator.fileName
        (filter (fun e => Validator.inspected e && Validator.lacksAlt e)
           (Dom.select doc [[Dom.Tag (js "img")]]))
    /\ Validator.lazyWithoutDimensions (Validator.collectImgIssues doc)
       = map Validator.fileName
           (filter (fun e => Validator.inspected e && Validator.lazyNoDims e
                             && negb (Validator.isSvg e))
              (Dom.select doc [[Dom.Tag (js "img")]]))
    /\ Reporter.failed (Validator.imageGroup doc r)
       = Reporter.failed r
         + Validator.count
             (filter (fun e => Validator.inspected e && Validator.lacksAlt e)
                (Dom.select doc [[Dom.Tag (js "img")]]))
         + Validator.count
             (filter (fun e => Validator.inspected e && Validator.lazyNoDims e
                               && negb (Validator.isSvg e))
                (Dom.select doc [[Dom.Tag (js "img")]])).
Proof.
  intros doc r.
  assert (E := fold_checkImage (Dom.select doc [[Dom.Tag (js "img")]])
                 (Validator.mkImgIssues [] [])).
  fold (Validator.collectImgIssues doc) in E. simpl in E.
  split; [rewrite E; reflexivity|].
  split; [rewrite E; reflexivity|].
  unfold Validator.imageGroup. cbv zeta.
  rewrite (failed_pass_or_each
             (js "All lazy-loaded images have width/height")
             (fun i => js "Lazy image without dimensions: " ++ i)
             (fun _ => Some (js "Browser may not load images in collapsed containers"))).
  rewrite (failed_pass_or_each (js "All images have alt attributes")
             (fun i => js "Missing alt: " ++ i) (fun _ => None)).
  rewrite E. simpl. unfold Validator.count. rewrite !length_map.
  reflexivity.
Qed.

(** C5 on three images: the lazy [img/hero.png] without [alt] and without
    dimensions is reported twice, the lazy [img/logo.svg] without [alt] once
    (for the [alt]), and the image with an empty [alt] and both dimensions
    not at all. *)
Lemma C5_image_checks_example :
  Validator.missingAlt (Validator.collectImgIssues Samples.imagesDoc)
  = [js "hero.png"; js "logo.svg"]
  /\ Validator.lazyWithoutDimensions
       (Validator.collectImgIssues Samples.imagesDoc)
     = [js "hero.png"]
  /\ Reporter.failed (Validator.imageGroup Samples.imagesDoc Reporter.init) = 3.
Proof.
  destruct (C5_image_checks Samples.imagesDoc Reporter.init) as (E1 & E2 & E3).
  rewrite E1, E2, E3. vm_compute. repeat split; reflexivity.
Defined.

(* ================================================================== *)
(** * C6: the default language and the absence of persistence *)
(* ================================================================== *)

Section ScriptChecks.
Import Reporter Validator.






End ScriptChecks.



(* ================================================================== *)
(** * C7: the two conversation arrays *)
(* ================================================================== *)

Section ContinuationFacts.
Import Regex Chat.

Lemma starLoop_mono {R R'} (a : re) (g : bool) :
  (forall s cap (k1 : JS.str -> option JS.str -> option R)
          (k2 : JS.str -> option JS.str -> option R'),
      asksMore k2 k1 -> m a s cap k1 = None -> m a s cap k2 = None) ->
  forall (k1 : JS.str -> option JS.str -> option R)
         (k2 : JS.str -> option JS.str -> option R'),
    asksMore k2 k1 ->
    forall fuel s cap,
      starLoop (m a) g k1 fuel s cap = None ->
      starLoop (m a) g k2 fuel s cap = None.
Proof.
  intros Ha k1 k2 B. induction fuel as [|fuel IH]; intros s cap H; simpl in *.
  - apply B. exact H.
  - assert (Again :
      m a s cap (fun s' cap' =>
        if (List.length s' <? List.length s)%nat
        then starLoop (m a) g k1 fuel s' cap' else None) = None ->
      m a s cap (fun s' cap' =>
        if (List.length s' <? List.length s)%nat
        then starLoop (m a) g k2 fuel s' cap' else None) = None).
    { apply Ha. intros s' c'.
      destruct (List.length s' <? List.length s)%nat; [apply IH|reflexivity]. }
    destruct g.
    + destruct (m a s cap _) eqn:E in H; [discriminate|].
      rewrite (Again E). apply B. exact H.
    + destruct (k1 s cap) eqn:E; [discriminate|].
      rewrite (B _ _ E). apply Again. exact H.
Qed.

(** When the matcher fails with a continuation, it fails with every
    continuation that asks for more. *)
Lemma m_mono (r : re) :
  forall {R R'} s cap (k1 : JS.str -> option JS.str -> option R)
         (k2 : JS.str -> option JS.str -> option R'),
    asksMore k2 k1 -> m r s cap k1 = None -> m r s cap k2 = None.
Proof.
  induction r as [|p|a IHa b IHb|a IHa b IHb|g a IHa|a IHa|];
    intros R R' s cap k1 k2 B H; simpl in *.
  - apply B. exact H.
  - destruct s as [|c s]; [reflexivity|].
    destruct (p c); [apply B; exact H|reflexivity].
  - revert H. apply IHa. intros s' c'. apply IHb. exact B.
  - destruct (m a s cap k1) eqn:E; [discriminate|].
    rewrite (IHa _ _ _ _ _ _ B E). apply (IHb _ _ _ _ _ _ B H).
  - revert H. apply starLoop_mono; [|exact B].
    intros s0 c0 k1' k2'. apply IHa.
  - revert H. apply IHa. intros s' c'. apply B.
  - destruct s; [apply B; exact H|reflexivity].
Qed.

Lemma starLoop_first {R R'} (a : re) (g : bool) :
  (forall s cap (k1 : JS.str -> option JS.str -> option R)
          (k2 : JS.str -> option JS.str -> option R') y,
      asksMore k2 k1 -> m a s cap k1 = Some y ->
      exists s' c', k1 s' c' = Some y
                    /\ (k2 s' c' <> None -> m a s cap k2 = k2 s' c')) ->
  forall (k1 : JS.str -> option JS.str -> option R)
         (k2 : JS.str -> option JS.str -> option R'),
    asksMore k2 k1 ->
    forall fuel s cap y,
      starLoop (m a) g k1 fuel s cap = Some y ->
      exists s' c', k1 s' c' = Some y
                    /\ (k2 s' c' <> None ->
                        starLoop (m a) g k2 fuel s cap = k2 s' c').
Proof.
  intros Ha k1 k2 B. induction fuel as [|fuel IH]; intros s cap y H; simpl in *.
  - exists s, cap. split; [exact H|reflexivity].
  - set (L1 := fun s' cap' =>
                 if (List.length s' <? List.length s)%nat
                 then starLoop (m a) g k1 fuel s' cap' else None).
    set (L2 := fun s' cap' =>
                 if (List.length s' <? List.length s)%nat
                 then starLoop (m a) g k2 fuel s' cap' else None).
    assert (BL : asksMore L2 L1).
    { intros s' c'. unfold L1, L2.
      destruct (List.length s' <? List.length s)%nat; [|reflexivity].
      apply starLoop_mono; [|exact B].
      intros s0 c0 k1' k2'. apply m_mono. }
    assert (Again : m a s cap L1 = Some y ->
              exists s' c', k1 s' c' = Some y
                /\ (k2 s' c' <> None -> m a s cap L2 = k2 s' c')).
    { intros E. destruct (Ha s cap L1 L2 y BL E) as (s1 & c1 & E1 & F1).
      unfold L1 in E1.
      destruct (List.length s1 <? List.length s)%nat eqn:Len; [|discriminate].
      destruct (IH s1 c1 y E1) as (s2 & c2 & E2 & F2).
      exists s2, c2. split; [exact E2|]. intros N2.
      assert (L2 s1 c1 = k2 s2 c2) as Q.
      { unfold L2. rewrite Len. apply F2. exact N2. }
      rewrite F1; [exact Q|]. rewrite Q. exact N2. }
    destruct g.
    + change (match m a s cap L1 with
              | Some x => Some x
              | None => k1 s cap
              end = Some y) in H.
      change (exists s' c',
                k1 s' c' = Some y
                /\ (k2 s' c' <> None ->
                    match m a s cap L2 with
                    | Some x => Some x
                    | None => k2 s cap
                    end = k2 s' c')).
      destruct (m a s cap L1) as [y'|] eqn:E.
      * injection H as ->. destruct (Again eq_refl) as (s2 & c2 & E2 & F2).
        exists s2, c2. split; [exact E2|]. intros N2.
        rewrite (F2 N2). destruct (k2 s2 c2); [reflexivity|contradiction].
      * exists s, cap. split; [exact H|]. intros _.
        rewrite (m_mono a s cap L1 L2 BL E). reflexivity.
    + change (match k1 s cap with
              | Some x => Some x
              | None => m a s cap L1
              end = Some y) in H.
      change (exists s' c',
                k1 s' c' = Some y
                /\ (k2 s' c' <> None ->
                    match k2 s cap with
                    | Some x => Some x
                    | None => m a s cap L2
                    end = k2 s' c')).
      destruct (k1 s cap) as [y'|] eqn:E.
      * injection H as ->. exists s, cap. split; [exact E|]. intros N2.
        destruct (k2 s cap); [reflexivity|contradiction].
      * rewrite (B _ _ E). apply Again. exact H.
Qed.

(** The choice the matcher makes with a continuation is the choice it makes
    with one that asks for more, when that one accepts the choice. *)
Lemma m_first (r : re) :
  forall {R R'} s cap (k1 : JS.str -> option JS.str -> option R)
         (k2 : JS.str -> option JS.str -> option R') y,
    asksMore k2 k1 -> m r s cap k1 = Some y ->
    exists s' c', k1 s' c' = Some y
                  /\ (k2 s' c' <> None -> m r s cap k2 = k2 s' c').
Proof.
  induction r as [|p|a IHa b IHb|a IHa b IHb|g a IHa|a IHa|];
    intros R R' s cap k1 k2 y B H; simpl in *.
  - exists s, cap. split; [exact H|reflexivity].
  - destruct s as [|c s]; [discriminate|].
    destruct (p c); [|discriminate].
    exists s, cap. split; [exact H|reflexivity].
  - assert (Bb : asksMore (fun s' c' => m b s' c' k2) (fun s' c' => m b s' c' k1)).
    { intros s' c'. apply m_mono. exact B. }
    destruct (IHa _ _ s cap _ _ y Bb H) as (s1 & c1 & E1 & F1).
    destruct (IHb _ _ s1 c1 k1 k2 y B E1) as (s2 & c2 & E2 & F2).
    exists s2, c2. split; [exact E2|]. intros N2.
    rewrite F1; [apply F2; exact N2|]. rewrite (F2 N2). exact N2.
  - destruct (m a s cap k1) as [y'|] eqn:E.
    + injection H as ->.
      destruct (IHa _ _ s cap k1 k2 y B E) as (s1 & c1 & E1 & F1).
      exists s1, c1. split; [exact E1|]. intros N1.
      rewrite (F1 N1). destruct (k2 s1 c1); [reflexivity|contradiction].
    + rewrite (m_mono a s cap k1 k2 B E).
      apply (IHb _ _ s cap k1 k2 y B H).
  - revert H. apply starLoop_first; [|exact B].
    intros s0 c0 k1' k2' y'. apply IHa.
  - assert (Bg : asksMore
              (fun s' (_ : option JS.str) =>
                 k2 s' (Some (firstn (List.length s - List.length s') s)))
              (fun s' (_ : option JS.str) =>
                 k1 s' (Some (firstn (List.length s - List.length s') s)))).
    { intros s' c'. apply B. }
    destruct (IHa _ _ s cap _ _ y Bg H) as (s1 & c1 & E1 & F1).
    eexists s1, _. split; [exact E1|]. exact F1.
  - destruct s; [|discriminate].
    exists [], cap. split; [exact H|reflexivity].
Qed.

End ContinuationFacts.

Section SearchFacts.
Import Regex Chat.

Lemma asksMore_here {R} (k : JS.str -> option JS.str -> option R) :
  asksMore k (fun rest cap => Some (rest, cap)).
Proof. intros s c H. discriminate H. Qed.

(** Two patterns that the matcher runs alike are searched alike. *)
Lemma searchFrom_ext r1 r2 :
  (forall s, m r1 s None (fun rest cap => Some (rest, cap))
             = m r2 s None (fun rest cap => Some (rest, cap))) ->
  forall s pre, searchFrom r1 pre s = searchFrom r2 pre s.
Proof.
  intros E. induction s as [|c s IH]; intros pre;
    rewrite (searchFrom_eq r1), (searchFrom_eq r2), E;
    destruct (m r2 _ None _) as [[rest cap]|]; try reflexivity.
  apply IH.
Qed.

(** The leftmost match of [r] is where [r] followed by [t] matches first,
    when [t] matches after it. *)
Lemma searchFrom_seq r t : forall s pre f rest' cap',
  searchFrom r pre s = Some f ->
  m t (after f) (capture f) (fun rest cap => Some (rest, cap))
  = Some (rest', cap') ->
  exists g,
    searchFrom (Seq r t) pre s = Some g
    /\ before g = before f /\ capture g = cap' /\ after g = rest'.
Proof.
  induction s as [|c s IH]; intros pre f rest' cap' H T;
    rewrite searchFrom_eq in H; rewrite searchFrom_eq;
    destruct (m r _ None _) as [[rest cap]|] eqn:E.
  - injection H as <-. cbn [after capture before] in *.
    destruct (m_first r [] None _
                (fun s' c' => m t s' c' (fun rest cap => Some (rest, cap)))
                (rest, cap) (asksMore_here _) E)
      as (s1 & c1 & E1 & F1).
    injection E1 as -> ->.
    simpl m. rewrite F1; [|rewrite T; discriminate]. rewrite T.
    eexists. split; [reflexivity|]. cbn. auto.
  - discriminate.
  - injection H as <-. cbn [after capture before] in *.
    destruct (m_first r (c :: s) None _
                (fun s' c' => m t s' c' (fun rest cap => Some (rest, cap)))
                (rest, cap) (asksMore_here _) E)
      as (s1 & c1 & E1 & F1).
    injection E1 as -> ->.
    simpl m. rewrite F1; [|rewrite T; discriminate]. rewrite T.
    eexists. split; [reflexivity|]. cbn. auto.
  - simpl m.
    rewrite (m_mono r (c :: s) None _
               (fun s' c' => m t s' c' (fun rest cap => Some (rest, cap)))
               (asksMore_here _) E).
    apply (IH _ _ _ _ H T).
Qed.

End SearchFacts.

Section ArrayFacts.
Import Regex Chat.

Lemma m_Lit {R} (l : JS.str) : forall s cap (k : JS.str -> option JS.str -> option R),
  m (Lit l) s cap k
  = if JS.startsWith s l then k (skipn (List.length l) s) cap else None.
Proof.
  induction l as [|c l IH]; intros s cap k; [reflexivity|].
  cbn [Lit m]. unfold Char. cbn [m]. destruct s as [|d s]; [reflexivity|].
  cbn [JS.startsWith List.length skipn]. rewrite (N.eqb_sym d c).
  destruct (c =? d); [apply IH|reflexivity].
Qed.

(** The patterns of the script are their opening followed by [bodyRe]. *)
Lemma patterns_split :
  (forall s, m Validator.ptChatRe s None (fun rest cap => Some (rest, cap))
             = m (Seq ptOpenRe bodyRe) s None (fun rest cap => Some (rest, cap)))
  /\ (forall s, m Validator.enChatRe s None (fun rest cap => Some (rest, cap))
                = m (Seq enOpenRe bodyRe) s None
                    (fun rest cap => Some (rest, cap))).
Proof. split; intros s; reflexivity. Qed.

Lemma lineBreakAhead_app v c x :
  JS.isSpace c = false -> lineBreakAhead (v ++ c :: x) = lineBreakAhead v.
Proof.
  intros H. induction v as [|d v IH]; cbn [app lineBreakAhead].
  - rewrite H. reflexivity.
  - rewrite IH. reflexivity.
Qed.

Lemma closesArray_app u x :
  u <> [] -> closesArray (u ++ 93 :: x) = closesArray u.
Proof.
  unfold closesArray. change (js "];") with [93; 59].
  destruct u as [|c [|d v]]; intros H; [contradiction| |].
  - cbn [app JS.startsWith skipn]. change (93 =? 59) with false.
    rewrite !andb_false_r. reflexivity.
  - cbn [app JS.startsWith skipn]. rewrite lineBreakAhead_app; reflexivity.
Qed.

Lemma hasTerminator_suffix p : forall u,
  hasTerminator (p ++ u) = false -> closesArray u = false.
Proof.
  induction p as [|c p IH]; intros u H.
  - destruct u; cbn [app hasTerminator] in H;
      apply orb_false_elim in H as [H _]; exact H.
  - cbn [app hasTerminator] in H. apply orb_false_elim in H as [_ H].
    apply IH. exact H.
Qed.

(** [\s*\n] on white space without a line feed. *)
Lemma star_no_break {R} (k : JS.str -> option JS.str -> option R) :
  forall fuel s cap,
    lineBreakAhead s = false ->
    starLoop (m space) true (fun s' c' => m (Char 10) s' c' k) fuel s cap
    = None.
Proof.
  assert (K : forall s cap, lineBreakAhead s = false ->
                            m (Char 10) s cap k = None).
  { intros [|c s] cap H; [reflexivity|]. unfold Char. cbn [m].
    cbn [lineBreakAhead] in H. destruct (10 =? c) eqn:E; [|reflexivity].
    apply N.eqb_eq in E. subst c. discriminate H. }
  induction fuel as [|fuel IH]; intros s cap H; cbn [starLoop].
  - apply K. exact H.
  - unfold space at 1. cbn [m]. destruct s as [|c s]; [apply K; exact H|].
    destruct (JS.isSpace c) eqn:Sp.
    + assert (H' : lineBreakAhead s = false).
      { cbn [lineBreakAhead] in H. rewrite Sp in H.
        apply orb_false_elim in H as [_ H]. exact H. }
      destruct (List.length s <? List.length (c :: s))%nat;
        [rewrite (IH _ _ H')|]; apply K; exact H.
    + apply K. exact H.
Qed.

Lemma close_none {R} s cap (k : JS.str -> option JS.str -> option R) :
  closesArray s = false -> m closeRe s cap k = None.
Proof.
  unfold closesArray, closeRe. intros H. cbn [m]. rewrite m_Lit.
  destruct (JS.startsWith s (js "];")); [|reflexivity].
  cbn [andb] in H. change (List.length (js "];")) with 2%nat.
  apply star_no_break. exact H.
Qed.

(** [\s*\n] keeps the capture. *)
Lemma star_break_cap : forall fuel s cap x,
  starLoop (m space) true
    (fun s' c' => m (Char 10) s' c' (fun rest cap => Some (rest, cap)))
    fuel s cap = Some x ->
  snd x = cap.
Proof.
  assert (K : forall s cap x,
            m (Char 10) s cap (fun rest cap => Some (rest, cap)) = Some x ->
            snd x = cap).
  { intros [|c s] cap x; unfold Char; cbn [m]; [discriminate|].
    destruct (10 =? c); [|discriminate]. intros H. injection H as <-.
    reflexivity. }
  induction fuel as [|fuel IH]; intros s cap x; cbn [starLoop].
  - apply K.
  - unfold space at 1. cbn [m]. destruct s as [|c s]; [apply K|].
    destruct (JS.isSpace c); [|apply K].
    destruct (List.length s <? List.length (c :: s))%nat; [|apply K].
    destruct (starLoop _ _ _ fuel s cap) as [y|] eqn:E; [|apply K].
    intros H. injection H as <-. apply (IH _ _ _ E).
Qed.

(** [\s*\n] on white space that a line feed follows. *)
Lemma star_break w rest : forall fuel cap,
  forallb JS.isSpace w = true ->
  (List.length (w ++ 10%N :: rest) <= fuel)%nat ->
  exists s',
    starLoop (m space) true
      (fun s' c' => m (Char 10) s' c' (fun rest cap => Some (rest, cap)))
      fuel (w ++ 10 :: rest) cap = Some (s', cap).
Proof.
  assert (Shape : forall fuel s cap,
            starLoop (m space) true
              (fun s' c' => m (Char 10) s' c' (fun rest cap => Some (rest, cap)))
              fuel s cap <> None ->
            exists s',
              starLoop (m space) true
                (fun s' c' =>
                   m (Char 10) s' c' (fun rest cap => Some (rest, cap)))
                fuel s cap = Some (s', cap)).
  { intros fuel s cap N0.
    destruct (starLoop _ _ _ fuel s cap) as [[s' c']|] eqn:E;
      [|contradiction].
    apply star_break_cap in E. cbn [snd] in E. subst c'. eauto. }
  induction w as [|c w IH]; intros fuel cap W F; apply Shape;
    (destruct fuel as [|fuel]; [cbn [app List.length] in F; lia|]);
    cbn [starLoop app]; unfold space at 1; cbn [m].
  - change (JS.isSpace 10) with true. cbv iota.
    destruct (List.length rest <? List.length (10%N :: rest))%nat;
      [destruct (starLoop _ _ _ fuel rest cap)|]; discriminate.
  - cbn [forallb] in W. apply andb_prop in W as [Wc W]. rewrite Wc.
    assert (L : (List.length (w ++ 10%N :: rest)
                 <? List.length (c :: w ++ 10%N :: rest))%nat = true).
    { apply Nat.ltb_lt. cbn [List.length]. lia. }
    rewrite L.
    destruct (IH fuel cap W ltac:(cbn [app List.length] in F; lia))
      as (s' & ->).
    discriminate.
Qed.

Lemma close_some w rest cap :
  forallb JS.isSpace w = true ->
  exists s',
    m closeRe (js "];" ++ w ++ 10 :: rest) cap (fun rest cap => Some (rest, cap))
    = Some (s', cap).
Proof.
  intros W. unfold closeRe. cbn [m]. rewrite m_Lit.
  change (js "];") with [93; 59]. cbn [app JS.startsWith List.length skipn].
  change (93 =? 93) with true. change (59 =? 59) with true. cbn [andb].
  apply star_break; [exact W|lia].
Qed.

(** [[\s\S]*?] stops at the first place its continuation accepts. *)
Lemma lazy_any {R} (k : JS.str -> option JS.str -> option R) t cap x :
  k t cap = Some x ->
  forall body fuel,
    (List.length (body ++ t) <= fuel)%nat ->
    (forall p u, body = p ++ u -> u <> [] -> k (u ++ t) cap = None) ->
    starLoop (m anyChar) false k fuel (body ++ t) cap = Some x.
Proof.
  intros Kt. induction body as [|c body IH]; intros fuel F Inside.
  - destruct fuel; cbn [starLoop app]; rewrite Kt; reflexivity.
  - destruct fuel as [|fuel]; [cbn [app List.length] in F; lia|].
    cbn [starLoop]. rewrite (Inside [] (c :: body) eq_refl ltac:(discriminate)).
    unfold anyChar at 1. cbn [m app].
    assert (L : (List.length (body ++ t) <? List.length (c :: body ++ t))%nat
                = true).
    { apply Nat.ltb_lt. cbn [List.length]. lia. }
    rewrite L. apply IH; [cbn [app List.length] in F; lia|].
    intros p u E U. apply (Inside (c :: p) u); [rewrite E; reflexivity|exact U].
Qed.

(** What follows the opening: the group captures [body]. *)
Lemma body_capture body w rest cap :
  forallb JS.isSpace w = true ->
  hasTerminator body = false ->
  exists s',
    m bodyRe (body ++ js "];" ++ w ++ 10 :: rest) cap
      (fun rest cap => Some (rest, cap))
    = Some (s', Some body).
Proof.
  intros W T.
  destruct (close_some w rest (Some body) W) as (s' & C).
  exists s'. unfold bodyRe. cbn [m].
  apply lazy_any.
  - rewrite length_app, Nat.add_sub, firstn_app, firstn_all, Nat.sub_diag.
    cbn [firstn]. rewrite app_nil_r. exact C.
  - lia.
  - intros p u E U. apply close_none.
    change (js "];" ++ w ++ 10 :: rest) with (93 :: 59 :: w ++ 10 :: rest).
    rewrite (closesArray_app u _ U).
    apply (hasTerminator_suffix p). rewrite <- E. exact T.
Qed.

(** The array the patterns capture. *)
Lemma array_captured open code body :
  arrayAt open code body ->
  Validator.group1 (Seq open bodyRe) code = Some body.
Proof.
  intros (f & w & rest & E & A & W & T).
  destruct (body_capture body w rest (capture f) W T) as (s' & M).
  rewrite <- A in M.
  destruct (searchFrom_seq open bodyRe code [] f s' (Some body) E M)
    as (g & G & _ & C & _).
  unfold Validator.group1, exec. rewrite G, C. destruct body; reflexivity.
Qed.

Lemma ptChatMatch_array code body :
  arrayAt ptOpenRe code body -> Validator.ptChatMatch code = Some body.
Proof.
  intros H. apply array_captured in H.
  unfold Validator.ptChatMatch, Validator.group1, exec in *.
  rewrite (searchFrom_ext _ _ (proj1 patterns_split)). exact H.
Qed.

Lemma enChatMatch_array code body :
  arrayAt enOpenRe code body -> Validator.enChatMatch code = Some body.
Proof.
  intros H. apply array_captured in H.
  unfold Validator.enChatMatch, Validator.group1, exec in *.
  rewrite (searchFrom_ext _ _ (proj2 patterns_split)). exact H.
Qed.

End ArrayFacts.

Section MarkerFacts.
Import Regex Chat.

(** [\s*] before a continuation that refuses white space takes all the
    white space there is. *)
Lemma greedy_spaces {R} (k : JS.str -> option JS.str -> option R) :
  (forall c u cap, JS.isSpace c = true -> k (c :: u) cap = None) ->
  forall s fuel cap,
    (List.length s <= fuel)%nat ->
    starLoop (m space) true k fuel s cap = k (JS.trimStart s) cap.
Proof.
  intros Refuses. induction s as [|c s IH]; intros fuel cap F.
  - destruct fuel; reflexivity.
  - destruct fuel as [|fuel]; [cbn [List.length] in F; lia|].
    cbn [starLoop JS.trimStart]. unfold space at 1. cbn [m].
    destruct (JS.isSpace c) eqn:Sp; [|reflexivity].
    assert (L : (List.length s <? List.length (c :: s))%nat = true).
    { apply Nat.ltb_lt. cbn [List.length]. lia. }
    rewrite L, IH; [|cbn [List.length] in F; lia].
    destruct (k (JS.trimStart s) cap); [reflexivity|].
    apply Refuses. exact Sp.
Qed.

(** The pattern of the marker matches where [markerAt] says, and leaves
    what follows the colon. *)
Lemma m_marker {R} s cap (k : JS.str -> option JS.str -> option R) :
  m Validator.messagesRe s cap k
  = if markerAt s then k (skipn 9 (JS.trimStart (tl s))) cap else None.
Proof.
  unfold Validator.messagesRe, markerAt. cbn [m]. unfold Char at 1. cbn [m].
  destruct s as [|c s]; [reflexivity|]. cbn [tl].
  destruct (123 =? c); [|reflexivity]. cbn [andb].
  rewrite greedy_spaces; [|
    |lia].
  - rewrite m_Lit. reflexivity.
  - intros d u cap' Sp. rewrite m_Lit.
    change (js "messages:") with (109 :: js "essages:").
    cbn [JS.startsWith]. destruct (d =? 109) eqn:E; [|reflexivity].
    apply N.eqb_eq in E. subst d. discriminate Sp.
Qed.

Lemma markerAt_head c s : markerAt (c :: s) = true -> c = 123.
Proof.
  unfold markerAt. intros H. apply andb_prop in H as [H _].
  apply N.eqb_eq in H. symmetry. exact H.
Qed.

Lemma markers_cons c s :
  c <> 123 -> markers (c :: s) = markers s.
Proof.
  intros H. cbn [markers]. destruct (markerAt (c :: s)) eqn:M.
  - apply markerAt_head in M. contradiction.
  - reflexivity.
Qed.

Lemma markers_skip x e :
  forallb (fun c => negb (123 =? c)) x = true ->
  markers (x ++ e) = markers e.
Proof.
  induction x as [|c x IH]; intros H; [reflexivity|].
  cbn [forallb] in H. apply andb_prop in H as [Hc H].
  cbn [app]. rewrite markers_cons; [apply IH; exact H|].
  intros ->. discriminate Hc.
Qed.

Lemma markers_trimStart s : markers (JS.trimStart s) = markers s.
Proof.
  induction s as [|c s IH]; [reflexivity|]. cbn [JS.trimStart].
  destruct (JS.isSpace c) eqn:Sp; [|reflexivity].
  rewrite markers_cons; [exact IH|]. intros ->. discriminate Sp.
Qed.

Lemma length_trimStart s :
  (List.length (JS.trimStart s) <= List.length s)%nat.
Proof.
  induction s as [|c s IH]; [reflexivity|]. cbn [JS.trimStart].
  destruct (JS.isSpace c); cbn [List.length]; lia.
Qed.

(** A marker is counted once, and the count goes on after its colon. *)
Lemma markerAt_count s :
  markerAt s = true ->
  markers s = 1 + markers (skipn 9 (JS.trimStart (tl s))).
Proof.
  destruct s as [|c s]; [discriminate|]. intros M. cbn [markers tl].
  rewrite M. f_equal. unfold markerAt in M.
  apply andb_prop in M as [_ M].
  apply startsWith_spec in M as [post M].
  rewrite <- (markers_trimStart s), M.
  change (skipn 9 (js "messages:" ++ post)) with post.
  apply markers_skip. reflexivity.
Qed.

Lemma search_marker : forall s pre,
  match searchFrom Validator.messagesRe pre s with
  | None => markers s = 0
  | Some f =>
      markers s = 1 + markers (after f)
      /\ (List.length (after f) < List.length s)%nat
      /\ matched f <> []
  end.
Proof.
  induction s as [|c s IH]; intros pre; rewrite searchFrom_eq, m_marker.
  - reflexivity.
  - destruct (markerAt (c :: s)) eqn:M.
    + cbn [after matched tl].
      assert (L : (List.length (skipn 9 (JS.trimStart s)) <= List.length s)%nat).
      { rewrite length_skipn. pose proof (length_trimStart s). lia. }
      split; [apply (markerAt_count _ M)|]. split; [cbn [List.length]; lia|].
      cbn [List.length].
      destruct (S (List.length s) - List.length (skipn 9 (JS.trimStart s)))%nat
        eqn:D; [lia|discriminate].
    + specialize (IH (c :: pre)).
      assert (C : markers (c :: s) = markers s).
      { cbn [markers]. rewrite M. reflexivity. }
      destruct (searchFrom Validator.messagesRe (c :: pre) s) as [f|].
      * destruct IH as (E & L & N0). rewrite C.
        split; [exact E|]. split; [cbn [List.length]; lia|exact N0].
      * rewrite C. exact IH.
Qed.

Lemma matchAll_markers : forall fuel s,
  (List.length s < fuel)%nat ->
  Validator.count (matchAllFrom fuel Validator.messagesRe s) = markers s.
Proof.
  unfold Validator.count.
  induction fuel as [|fuel IH]; intros s F; [lia|].
  cbn [matchAllFrom]. unfold exec.
  pose proof (search_marker s []) as Q.
  destruct (searchFrom Validator.messagesRe [] s) as [f|].
  - destruct Q as (E & L & N0).
    destruct (matched f) as [|x mt]; [contradiction|].
    cbn [List.length]. rewrite Nat2N.inj_succ, IH, E; lia.
  - rewrite Q. reflexivity.
Qed.

(** The count of the script is the number of markers of the text. *)
Lemma convCount_markers body : Validator.convCount body = markers body.
Proof.
  unfold Validator.convCount, matchAll. apply matchAll_markers. lia.
Qed.

End MarkerFacts.

Section ChatFacts.
Import Validator.

Lemma group1_none re code :
  group1 re code = None <-> ~ Regex.MatchesIn re code.
Proof.
  unfold group1. rewrite <- exec_spec.
  destruct (Regex.exec re code); split; intros H; try discriminate;
    try reflexivity; try congruence.
  exfalso. apply H. discriminate.
Qed.

End ChatFacts.

(** C7, as the script has it. For each language: the array is not found
    exactly when the pattern of its assignment matches nowhere in the script
    text, and the check is then the one failure [... not found]; when it is
    found, the check counts the places of the captured text where a marker
    begins ([{], white space, [messages:]) and is a pass when there are 4 and
    otherwise the one failure with [Found n]. The captured text starts after
    the first opening of the assignment and ends before the first [];] that
    white space and a line feed follow. When the text between the brackets
    of the assignment holds no such end and its own [];] is followed by
    white space and a line feed, the captured text is that text, and the
    check is the same on every script whose assignment holds it, whatever
    else the script holds, the array of the other language included. The
    group is the Portuguese check followed by the English one. *)
Theorem C7_chat_data_checks :
  forall code r,
    (Validator.ptChatMatch code = None
     <-> ~ Regex.MatchesIn Validator.ptChatRe code)
    /\ (Validator.enChatMatch code = None
        <-> ~ Regex.MatchesIn Validator.enChatRe code)
    /\ (Validator.ptChatMatch code = None ->
        Validator.ptChatCheck code r
        = Reporter.fail (js "PT chatData not found") None r)
    /\ (forall body, Validator.ptChatMatch code = Some body ->
        Chat.markers body = 4 ->
        Validator.ptChatCheck code r
        = Reporter.pass (js "PT chat data has 4 conversations") r)
    /\ (forall body, Validator.ptChatMatch code = Some body ->
        Chat.markers body <> 4 ->
        Validator.ptChatCheck code r
        = Reporter.fail (js "PT chat data has 4 conversations")
            (Some (js "Found " ++ JS.ofN (Chat.markers body))) r)
    /\ (Validator.enChatMatch code = None ->
        Validator.enChatCheck code r
        = Reporter.fail (js "EN chatDataEN not found") None r)
    /\ (forall body, Validator.enChatMatch code = Some body ->
        Chat.markers body = 4 ->
        Validator.enChatCheck code r
        = Reporter.pass (js "EN chat data has 4 conversations") r)
    /\ (forall body, Validator.enChatMatch code = Some body ->
        Chat.markers body <> 4 ->
        Validator.enChatCheck code r
        = Reporter.fail (js "EN chat data has 4 conversations")
            (Some (js "Found " ++ JS.ofN (Chat.markers body))) r)
    /\ (forall body, Chat.arrayAt Chat.ptOpenRe code body ->
        Validator.ptChatMatch code = Some body
        /\ forall code', Chat.arrayAt Chat.ptOpenRe code' body ->
             Validator.ptChatCheck code' r = Validator.ptChatCheck code r)
    /\ (forall body, Chat.arrayAt Chat.enOpenRe code body ->
        Validator.enChatMatch code = Some body
        /\ forall code', Chat.arrayAt Chat.enOpenRe code' body ->
             Validator.enChatCheck code' r = Validator.enChatCheck code r)
    /\ (forall doc,
        Validator.chatGroup doc r
        = Validator.enChatCheck (Validator.allJs doc)
            (Validator.ptChatCheck (Validator.allJs doc)
               (Validator.header (js "8. Chat Data") r))).
Proof.
  intros code r.
  split; [apply group1_none|].
  split; [apply group1_none|].
  unfold Validator.ptChatCheck, Validator.enChatCheck.
  repeat split.
  - intros ->. reflexivity.
  - intros body -> H. cbv zeta. rewrite convCount_markers, H. reflexivity.
  - intros body -> H. cbv zeta. rewrite convCount_markers.
    apply N.eqb_neq in H. rewrite H. reflexivity.
  - intros ->. reflexivity.
  - intros body -> H. cbv zeta. rewrite convCount_markers, H. reflexivity.
  - intros body -> H. cbv zeta. rewrite convCount_markers.
    apply N.eqb_neq in H. rewrite H. reflexivity.
  - apply ptChatMatch_array. assumption.
  - intros code' A'. apply ptChatMatch_array in A' as ->.
    match goal with
    | A : Chat.arrayAt _ code _ |- _ => apply ptChatMatch_array in A as ->
    end.
    reflexivity.
  - apply enChatMatch_array. assumption.
  - intros code' A'. apply enChatMatch_array in A' as ->.
    match goal with
    | A : Chat.arrayAt _ code _ |- _ => apply enChatMatch_array in A as ->
    end.
    reflexivity.
Qed.

(** C7 on scripts. With the Portuguese array alone (four conversations) the
    Portuguese check passes and the English one fails as not found; with the
    English array alone (three conversations) the Portuguese check fails as
    not found and the English one fails with [Found 3]. When each assignment
    ends its line, the array of four is what either check captures, and the
    check passes whether the other array holds two conversations or
    three. *)
Lemma C7_chat_data_witness :
  (Validator.ptChatMatch Samples.ptOnlyScript
   = Some ([10] ++ js "  { messages: ['oi'] }, {messages: ['a']}," ++ [10]
           ++ js "  { messages: ['b'] }, {  messages: ['c'] }" ++ [10])
   /\ Validator.enChatMatch Samples.ptOnlyScript = None
   /\ Validator.ptChatCheck Samples.ptOnlyScript Reporter.init
      = Reporter.pass (js "PT chat data has 4 conversations") Reporter.init
   /\ Validator.enChatCheck Samples.ptOnlyScript Reporter.init
      = Reporter.fail (js "EN chatDataEN not found") None Reporter.init)
  /\ (Validator.ptChatMatch Samples.enOnlyScript = None
      /\ Validator.enChatMatch Samples.enOnlyScript
         = Some (js "{ messages: ['hi'] }, { messages: ['a'] }, { messages: ['b'] }")
      /\ Validator.ptChatCheck Samples.enOnlyScript Reporter.init
         = Reporter.fail (js "PT chatData not found") None Reporter.init
      /\ Validator.enChatCheck Samples.enOnlyScript Reporter.init
         = Reporter.fail (js "EN chat data has 4 conversations")
             (Some (js "Found 3")) Reporter.init)
  /\ (Chat.arrayAt Chat.ptOpenRe (Chat.twoLines Chat.four Chat.two) Chat.four
      /\ Chat.arrayAt Chat.ptOpenRe (Chat.twoLines Chat.four Chat.three)
           Chat.four
      /\ Validator.ptChatMatch (Chat.twoLines Chat.four Chat.two)
         = Some Chat.four
      /\ Validator.ptChatCheck (Chat.twoLines Chat.four Chat.three)
           Reporter.init
         = Validator.ptChatCheck (Chat.twoLines Chat.four Chat.two)
             Reporter.init
      /\ Validator.ptChatCheck (Chat.twoLines Chat.four Chat.two)
           Reporter.init
         = Reporter.pass (js "PT chat data has 4 conversations") Reporter.init)
  /\ (Chat.arrayAt Chat.enOpenRe (Chat.twoLines Chat.two Chat.four) Chat.four
      /\ Chat.arrayAt Chat.enOpenRe (Chat.twoLines Chat.three Chat.four)
           Chat.four
      /\ Validator.enChatMatch (Chat.twoLines Chat.two Chat.four)
         = Some Chat.four
      /\ Validator.enChatCheck (Chat.twoLines Chat.three Chat.four)
           Reporter.init
         = Validator.enChatCheck (Chat.twoLines Chat.two Chat.four)
             Reporter.init
      /\ Validator.enChatCheck (Chat.twoLines Chat.two Chat.four)
           Reporter.init
         = Reporter.pass (js "EN chat data has 4 conversations") Reporter.init)
  /\ ~ Regex.MatchesIn Validator.enChatRe Samples.ptOnlyScript.
Proof.
  assert (P1 : Validator.ptChatMatch Samples.ptOnlyScript
               = Some ([10] ++ js "  { messages: ['oi'] }, {messages: ['a']}," ++ [10]
                       ++ js "  { messages: ['b'] }, {  messages: ['c'] }" ++ [10]))
    by (vm_compute; reflexivity).
  assert (E1 : Validator.enChatMatch Samples.ptOnlyScript = None)
    by (vm_compute; reflexivity).
  assert (P2 : Validator.ptChatMatch Samples.enOnlyScript = None)
    by (vm_compute; reflexivity).
  assert (E2 : Validator.enChatMatch Samples.enOnlyScript
               = Some (js "{ messages: ['hi'] }, { messages: ['a'] }, { messages: ['b'] }"))
    by (vm_compute; reflexivity).
  assert (Pt : forall en,
            en = Chat.two \/ en = Chat.three ->
            Chat.arrayAt Chat.ptOpenRe (Chat.twoLines Chat.four en) Chat.four).
  { intros en [-> | ->];
      (eexists; exists []; eexists;
       split; [vm_compute; reflexivity|];
       split; [vm_compute; reflexivity|];
       split; vm_compute; reflexivity). }
  assert (En : forall pt,
            pt = Chat.two \/ pt = Chat.three ->
            Chat.arrayAt Chat.enOpenRe (Chat.twoLines pt Chat.four) Chat.four).
  { intros pt [-> | ->];
      (eexists; exists []; exists [];
       split; [vm_compute; reflexivity|];
       split; [vm_compute; reflexivity|];
       split; vm_compute; reflexivity). }
  destruct (C7_chat_data_checks Samples.ptOnlyScript Reporter.init)
    as (_ & A0 & _ & A2 & _ & A4 & _).
  destruct (C7_chat_data_checks Samples.enOnlyScript Reporter.init)
    as (_ & _ & B1 & _ & _ & _ & _ & B6 & _).
  destruct (C7_chat_data_checks (Chat.twoLines Chat.four Chat.two)
              Reporter.init)
    as (_ & _ & _ & T3 & _ & _ & _ & _ & T8 & _).
  destruct (C7_chat_data_checks (Chat.twoLines Chat.two Chat.four)
              Reporter.init)
    as (_ & _ & _ & _ & _ & _ & D6 & _ & _ & D9 & _).
  destruct (T8 Chat.four (Pt _ (or_introl eq_refl))) as (T8a & T8b).
  destruct (D9 Chat.four (En _ (or_introl eq_refl))) as (D9a & D9b).
  split; [split; [exact P1 | split; [exact E1 | split]]|].
  - apply (A2 _ P1). vm_compute. reflexivity.
  - apply (A4 E1).
  - split; [split; [exact P2 | split; [exact E2 | split]]|].
    + apply (B1 P2).
    + rewrite (B6 _ E2); [vm_compute; reflexivity|].
      vm_compute. discriminate.
    + split; [|split].
      * split; [apply Pt; auto|]. split; [apply Pt; auto|].
        split; [exact T8a|]. split; [apply T8b; apply Pt; auto|].
        apply (T3 _ T8a). vm_compute. reflexivity.
      * split; [apply En; auto|]. split; [apply En; auto|].
        split; [exact D9a|]. split; [apply D9b; apply En; auto|].
        apply (D6 _ D9a). vm_compute. reflexivity.
      * apply A0. exact E1.
Defined.

(** C7 fails as stated on a script with both arrays on one line, where the
    [];] of [chatData] is followed by the other assignment: the text captured
    for Portuguese runs on to the end of the English array. With two
    conversations in each array the Portuguese check passes, its array
    holding two; with the same Portuguese array and three English
    conversations it fails with [Found 5]. *)
Lemma C7_one_line_arrays_are_read_together :
  Validator.ptChatMatch (Chat.oneLine Chat.two Chat.two)
  = Some (Chat.two ++ js "]; const chatDataEN = [" ++ Chat.two)
  /\ Chat.markers Chat.two = 2
  /\ Validator.ptChatCheck (Chat.oneLine Chat.two Chat.two) Reporter.init
     = Reporter.pass (js "PT chat data has 4 conversations") Reporter.init
  /\ Validator.ptChatCheck (Chat.oneLine Chat.two Chat.three) Reporter.init
     = Reporter.fail (js "PT chat data has 4 conversations")
         (Some (js "Found 5")) Reporter.init
  /\ ~ (forall pt en en' r,
          Validator.ptChatCheck (Chat.oneLine pt en) r
          = Validator.ptChatCheck (Chat.oneLine pt en') r).
Proof.
  assert (A : Validator.ptChatCheck (Chat.oneLine Chat.two Chat.two)
                Reporter.init
              = Reporter.pass (js "PT chat data has 4 conversations")
                  Reporter.init) by (vm_compute; reflexivity).
  assert (B : Validator.ptChatCheck (Chat.oneLine Chat.two Chat.three)
                Reporter.init
              = Reporter.fail (js "PT chat data has 4 conversations")
                  (Some (js "Found 5")) Reporter.init)
    by (vm_compute; reflexivity).
  split; [vm_compute; reflexivity|]. split; [vm_compute; reflexivity|].
  split; [exact A|]. split; [exact B|].
  intros H. specialize (H Chat.two Chat.two Chat.three Reporter.init).
  rewrite A, B in H. apply (f_equal Reporter.counters) in H.
  vm_compute in H. discriminate H.
Qed.

(* ================================================================== *)
(** * C9: local assets are a set *)
(* ================================================================== *)

Section AssetFacts.
Import Reporter Dom Validator.

Lemma arrayIncludes_spec arr x : JS.arrayIncludes arr x = true <-> In x arr.
Proof.
  unfold JS.arrayIncludes. rewrite existsb_exists. split.
  - intros [y [Hy E]]. apply eqb_eq in E. subst. exact Hy.
  - intros H. exists x. split; [exact H | apply eqb_refl].
Qed.

Lemma NoDup_setAdd x s : NoDup s -> NoDup (setAdd x s).
Proof.
  intros H. unfold setAdd.
  destruct (JS.arrayIncludes s x) eqn:E; [exact H|].
  apply NoDup_app; [exact H | repeat constructor; intros [] |].
  intros a Ha [<-|[]].
  apply arrayIncludes_spec in Ha. congruence.
Qed.

Lemma NoDup_fold {A} (f : list JS.str -> A -> list JS.str) (l : list A) :
  (forall s a, NoDup s -> NoDup (f s a)) ->
  forall s, NoDup s -> NoDup (fold_left f l s).
Proof.
  intros Hf. induction l as [|a l IH]; intros s H; simpl; [exact H|].
  apply IH, Hf, H.
Qed.

Lemma NoDup_localAssets html doc : NoDup (localAssets html doc).
Proof.
  unfold localAssets. cbv zeta.
  apply NoDup_fold.
  { intros s mt H. unfold addUrlMatch. cbv zeta.
    match goal with |- NoDup (if ?c then _ else _) => destruct c end;
      [apply NoDup_setAdd|]; exact H. }
  apply NoDup_fold.
  { intros s e H. unfold addLinkHref.
    destruct (attr (js "href") e) as [href|]; [|exact H].
    match goal with |- NoDup (if ?c then _ else _) => destruct c end;
      [apply NoDup_setAdd|]; exact H. }
  apply NoDup_fold; [|constructor].
  intros s e H. unfold addImgSrc.
  destruct (attr (js "src") e) as [src|]; [|exact H].
  match goal with |- NoDup (if ?c then _ else _) => destruct c end;
    [apply NoDup_setAdd|]; exact H.
Qed.

Lemma NoDup_missingAssets w html doc : NoDup (missingAssets w html doc).
Proof. apply NoDup_filter, NoDup_localAssets. Qed.

Lemma console_logDetail_None r : logDetail None r = r.
Proof. reflexivity. Qed.

Lemma console_forEach_fail {A} (lbl : A -> JS.str) (l : list A) : forall r,
  console (forEach (fun a => fail (lbl a) None) l r)
  = console r ++ map (fun a => failLine (lbl a)) l.
Proof.
  unfold forEach.
  induction l as [|a l IH]; intros r; simpl.
  - rewrite app_nil_r. reflexivity.
  - rewrite IH. simpl. rewrite <- app_assoc. reflexivity.
Qed.

Lemma failLine_inj prefix a b :
  failLine (prefix ++ a) = failLine (prefix ++ b) -> a = b.
Proof.
  unfold failLine. intros H.
  repeat (apply app_inv_head in H). exact H.
Qed.

Lemma passLine_not_failLine a b : passLine a <> failLine b.
Proof. unfold passLine, failLine. simpl. intros H. discriminate H. Qed.

Lemma headerLine_not_failLine t b :
  [10] ++ ESC ++ js "[1m" ++ t ++ ESC ++ js "[0m" <> failLine b.
Proof. unfold failLine. simpl. intros H. discriminate H. Qed.

Lemma console_assetGroup w html doc r :
  console (assetGroup w html doc r)
  = console r
    ++ [[10] ++ ESC ++ js "[1m" ++ js "4. Asset Files" ++ ESC ++ js "[0m"]
    ++ match missingAssets w html doc with
       | [] => [passLine (js "All " ++ JS.ofN (count (localAssets html doc))
                          ++ js " local assets exist on disk")]
       | x :: l =>
           map (fun a => failLine (js "Missing asset: " ++ a)) (x :: l)
       end.
Proof.
  unfold assetGroup. cbv zeta.
  destruct (missingAssets w html doc) as [|x l].
  - simpl. rewrite <- app_assoc. reflexivity.
  - rewrite (console_forEach_fail (fun a => js "Missing asset: " ++ a)).
    simpl. rewrite <- app_assoc. reflexivity.
Qed.

End AssetFacts.

(** C9. The references the asset group collects form a set: [localAssets]
    has no repetition, so neither has the list of missing ones, and a path
    occurs in it at most once. The group records one failure for each
    element of that list, and the console gains the line [Missing asset: p]
    as many times as [p] occurs in it, that is at most once, however often
    the document refers to [p]. *)
Theorem C9_missing_asset_reported_once :
  forall w html doc r p,
    NoDup (Validator.localAssets html doc)
    /\ (count_occ JS.eq_dec (Validator.missingAssets w html doc) p <= 1)%nat
    /\ Reporter.failed (Validator.assetGroup w html doc r)
       = Reporter.failed r + Validator.count (Validator.missingAssets w html doc)
    /\ (count_occ JS.eq_dec
          (Reporter.console (Validator.assetGroup w html doc r))
          (Reporter.failLine (js "Missing asset: " ++ p))
        = count_occ JS.eq_dec (Reporter.console r)
            (Reporter.failLine (js "Missing asset: " ++ p))
          + count_occ JS.eq_dec (Validator.missingAssets w html doc) p)%nat.
Proof.
  intros w html doc r p.
  split; [apply NoDup_localAssets|].
  split; [apply NoDup_count_occ, NoDup_missingAssets|].
  split.
  - unfold Validator.assetGroup. cbv zeta.
    rewrite (failed_pass_or_each _ (fun a => js "Missing asset: " ++ a)
               (fun _ => None)).
    reflexivity.
  - rewrite console_assetGroup, !count_occ_app.
    rewrite (count_occ_cons_neq _ _ (headerLine_not_failLine _ _)).
    simpl count_occ at 2. f_equal.
    destruct (Validator.missingAssets w html doc) as [|x l] eqn:E.
    + rewrite (count_occ_cons_neq _ _ (passLine_not_failLine _ _)).
      reflexivity.
    + symmetry.
      apply (count_occ_map (fun a => Reporter.failLine (js "Missing asset: " ++ a))
               JS.eq_dec JS.eq_dec (failLine_inj (js "Missing asset: "))).
Qed.

(** C9 on a page that refers three times to the same missing image and once
    to a missing style sheet, with nothing on disk: two failures, one for
    each path. *)
Lemma C9_missing_asset_example :
  Validator.localAssets Samples.repeatedAssetHtml Samples.repeatedAssetDoc
  = [js "img/missing.png"; js "css/site.css"]
  /\ Reporter.failed
       (Validator.assetGroup (Validator.mkWorld (fun _ => None) (fun _ => false))
          Samples.repeatedAssetHtml Samples.repeatedAssetDoc Reporter.init) = 2
  /\ count_occ JS.eq_dec
       (Reporter.console
          (Validator.assetGroup (Validator.mkWorld (fun _ => None) (fun _ => false))
             Samples.repeatedAssetHtml Samples.repeatedAssetDoc Reporter.init))
       (Reporter.failLine (js "Missing asset: " ++ js "img/missing.png")) = 1%nat.
Proof.
  destruct (C9_missing_asset_reported_once
              (Validator.mkWorld (fun _ => None) (fun _ => false))
              Samples.repeatedAssetHtml Samples.repeatedAssetDoc Reporter.init
              (js "img/missing.png")) as (_ & _ & E3 & E4).
  split; [vm_compute; reflexivity|].
  split; [rewrite E3; vm_compute; reflexivity|].
  rewrite E4. vm_compute. reflexivity.
Defined.

(* ================================================================== *)
(** * C10: the meta facts *)
(* ================================================================== *)

Section MetaFacts.
Import Reporter Dom Validator.
Variable defaultMessage : Zod.rule -> option Zod.value -> JS.str.


Lemma metaData_eq doc :
  metaData doc
  = map (fun f => (fst (fst f),
                   Zod.VStr (JS.orEmpty (read (snd f) (select doc (snd (fst f)))))))
      metaFields.
Proof. reflexivity. Qed.








End MetaFacts.



(* ================================================================== *)
(** * C2: which check groups of the prober catch an exception *)
(* ================================================================== *)

Section Isolation.
Import Reporter Prober.
Local Open Scope prober_scope.
Variable b : browser.

Lemma removeFirst_head name l : removeFirst name (name :: l) = l.
Proof. simpl. rewrite eqb_refl. reflexivity. Qed.












(** An exception that leaves a loop body leaves the loop. *)
Lemma forOf_escapes {A} (f : A -> P unit) x xs s e s' :
  f x s = (Thrown e, s') -> forOf (x :: xs) f s = (Thrown e, s').
Proof. intros H. simpl. unfold bind. rewrite H. reflexivity. Qed.


End Isolation.




(* ================================================================== *)
(** * Every outcome is a line of the console, and a place of the script *)
(* ================================================================== *)

Section AccountingFacts.
Import Reporter Accounting.

Lemma lineKind_passLine l : lineKind (passLine l) = Some KPass.
Proof. reflexivity. Qed.

Lemma lineKind_failLine l : lineKind (failLine l) = Some KFail.
Proof. reflexivity. Qed.

Lemma lineKind_warnLine l : lineKind (warnLine l) = Some KWarn.
Proof. reflexivity. Qed.

Lemma lineKind_detailLine d : lineKind (detailLine d) = None.
Proof. reflexivity. Qed.

Lemma shown_app a b : shown (a ++ b) = shown a ++ shown b.
Proof. unfold shown. apply flat_map_app. Qed.

Lemma shown_snoc a l :
  shown (a ++ [l])
  = shown a ++ match lineKind l with Some k => [k] | None => [] end.
Proof.
  rewrite shown_app. unfold shown at 2. cbn [flat_map].
  rewrite app_nil_r. reflexivity.
Qed.

Lemma shown_logDetail d r :
  shown (console (logDetail d r)) = shown (console r).
Proof.
  destruct d as [d|]; [|reflexivity]. unfold logDetail.
  destruct (JS.truthy d); [|reflexivity].
  unfold log. cbn [console]. rewrite shown_snoc, lineKind_detailLine.
  apply app_nil_r.
Qed.

Lemma tally_app a b c : tally (a ++ b) c = tally b (tally a c).
Proof. unfold tally. apply fold_left_app. Qed.

Lemma passes_app a b : passes (a ++ b) = (passes a + passes b)%nat.
Proof. unfold passes. rewrite filter_app, length_app. reflexivity. Qed.

Lemma others_app a b : others (a ++ b) = (others a + others b)%nat.
Proof. unfold others. rewrite filter_app, length_app. reflexivity. Qed.

Lemma tally_counts ks : forall p f w,
  exists f' w',
    tally ks (p, f, w) = (p + N.of_nat (passes ks), f', w')
    /\ f' + w' = f + w + N.of_nat (others ks).
Proof.
  induction ks as [|k ks IH]; intros p f w.
  - exists f, w. simpl. split; [f_equal; f_equal; lia | lia].
  - destruct k; simpl.
    + destruct (IH (p + 1) f w) as (f' & w' & E & S).
      exists f', w'. unfold tally in *. rewrite E. split; [|exact S].
      unfold passes. simpl. f_equal. f_equal. lia.
    + destruct (IH p (f + 1) w) as (f' & w' & E & S).
      exists f', w'. unfold tally in *. rewrite E. split.
      * reflexivity.
      * unfold others in *. simpl. lia.
    + destruct (IH p f (w + 1)) as (f' & w' & E & S).
      exists f', w'. unfold tally in *. rewrite E. split.
      * reflexivity.
      * unfold others in *. simpl. lia.
Qed.

Lemma Steps_trans ks2 r1 r2 :
  Steps ks2 r1 r2 -> forall ks1 r, Steps ks1 r r1 -> Steps (ks1 ++ ks2) r r2.
Proof.
  induction 1; intros ks1 r0 Hr.
  - rewrite app_nil_r. exact Hr.
  - rewrite app_assoc. apply StepsPass. auto.
  - rewrite app_assoc. apply StepsFail. auto.
  - rewrite app_assoc. apply StepsWarn. auto.
  - apply StepsLog; auto.
Qed.

Lemma Steps_counters ks r r' :
  Steps ks r r' -> counters r' = tally ks (counters r).
Proof.
  induction 1.
  - reflexivity.
  - rewrite tally_app, <- IHSteps. apply counters_pass.
  - rewrite tally_app, <- IHSteps. apply counters_fail.
  - rewrite tally_app, <- IHSteps. apply counters_warn.
  - rewrite counters_log. exact IHSteps.
Qed.

Lemma Steps_shown ks r r' :
  Steps ks r r' -> shown (console r') = shown (console r) ++ ks.
Proof.
  induction 1.
  - symmetry. apply app_nil_r.
  - unfold pass, log. cbn [console].
    rewrite shown_snoc, lineKind_passLine, IHSteps, <- app_assoc. reflexivity.
  - unfold fail. rewrite shown_logDetail. unfold log. cbn [console].
    rewrite shown_snoc, lineKind_failLine, IHSteps, <- app_assoc. reflexivity.
  - unfold warn. rewrite shown_logDetail. unfold log. cbn [console].
    rewrite shown_snoc, lineKind_warnLine, IHSteps, <- app_assoc. reflexivity.
  - unfold log. cbn [console]. rewrite shown_snoc, H, IHSteps.
    apply app_nil_r.
Qed.

(** From the first state, the counters are the tally of the console. *)
Lemma Steps_audit ks r :
  Steps ks init r -> counters r = tally (shown (console r)) (0, 0, 0).
Proof.
  intros H. rewrite (Steps_shown _ _ _ H). simpl.
  apply (Steps_counters _ _ _ H).
Qed.

Lemma slots_app n1 n2 ks1 ks2 :
  slots n1 ks1 -> slots n2 ks2 -> slots (n1 + n2) (ks1 ++ ks2).
Proof.
  unfold slots. rewrite passes_app, others_app. lia.
Qed.

Lemma Reach_refl r : Reach 0 r r.
Proof.
  exists []. split; [apply StepsNil|]. unfold slots, passes, others. simpl. lia.
Qed.

Lemma Reach_log n r line r' :
  lineKind line = None -> Reach n r r' -> Reach n r (log line r').
Proof.
  intros L (ks & S & Sl). exists ks. split; [|exact Sl].
  apply StepsLog; assumption.
Qed.

Lemma Reach_pass n r l r' : Reach n r r' -> Reach (S n) r (pass l r').
Proof.
  intros (ks & St & Sl). exists (ks ++ [KPass]). split.
  - apply StepsPass, St.
  - unfold slots in *. rewrite passes_app, others_app.
    unfold passes, others in *. simpl. lia.
Qed.

(** A failure fills as many places as one likes. *)
Lemma Reach_fail_any n n' r l d r' :
  (n <= n')%nat -> Reach n r r' -> Reach n' r (fail l d r').
Proof.
  intros Le (ks & St & Sl). exists (ks ++ [KFail]). split.
  - apply StepsFail, St.
  - unfold slots in *. rewrite passes_app, others_app.
    unfold passes, others in *. simpl. lia.
Qed.

Lemma Reach_warn_any n n' r l d r' :
  (n <= n')%nat -> Reach n r r' -> Reach n' r (warn l d r').
Proof.
  intros Le (ks & St & Sl). exists (ks ++ [KWarn]). split.
  - apply StepsWarn, St.
  - unfold slots in *. rewrite passes_app, others_app.
    unfold passes, others in *. simpl. lia.
Qed.

Lemma Reach_fail n r l d r' : Reach n r r' -> Reach (S n) r (fail l d r').
Proof. apply Reach_fail_any. lia. Qed.

Lemma Reach_warn n r l d r' : Reach n r r' -> Reach (S n) r (warn l d r').
Proof. apply Reach_warn_any. lia. Qed.

Lemma Reach_check n r l c d r' :
  Reach n r r' -> Reach (S n) r (check l c d r').
Proof.
  intros H. unfold check. destruct c; [apply Reach_pass | apply Reach_fail]; exact H.
Qed.

(** A loop of failures fills no place, or any number of them when it runs
    once or more. *)
Lemma Reach_each_fail {A} (lbl : A -> JS.str) (det : A -> option JS.str) l :
  forall n r r',
    Reach n r r' -> Reach n r (forEach (fun x => fail (lbl x) (det x)) l r').
Proof.
  unfold forEach. induction l as [|x l IH]; intros n r r' H; simpl; [exact H|].
  apply IH. apply Reach_fail_any with (n := n); [lia | exact H].
Qed.

Lemma Reach_each_fail_cons {A} (lbl : A -> JS.str) (det : A -> option JS.str)
  x l n r r' :
  Reach n r r' ->
  Reach (S n) r (forEach (fun x => fail (lbl x) (det x)) (x :: l) r').
Proof.
  intros H. unfold forEach. simpl.
  apply (Reach_each_fail lbl det l). apply Reach_fail. exact H.
Qed.

Lemma Reach_header n t r r' :
  Reach n r r' -> Reach n r (Validator.header t r').
Proof. apply Reach_log. reflexivity. Qed.

End AccountingFacts.

(** Splits a goal [Reach n r (f ... r')] along the calls of the script. *)
Ltac reach :=
  repeat first
    [ assumption
    | match goal with
      | |- Accounting.Reach _ _ (Reporter.pass _ _) => apply Reach_pass
      | |- Accounting.Reach _ _ (Reporter.fail _ _ _) => apply Reach_fail
      | |- Accounting.Reach _ _ (Reporter.warn _ _ _) => apply Reach_warn
      | |- Accounting.Reach _ _ (Reporter.check _ _ _ _) => apply Reach_check
      | |- Accounting.Reach _ _ (Validator.header _ _) => apply Reach_header
      | |- Accounting.Reach _ _ (Reporter.forEach _ (_ :: _) _) =>
          apply Reach_each_fail_cons
      end ].

Section ValidatorAccounting.
Import Reporter Validator Accounting.
Variable parse : JS.str -> Dom.document.
Variable parseSelector : JS.str -> option Dom.selector.
Variable defaultMessage : Zod.rule -> option Zod.value -> JS.str.

Lemma Reach_reportIssues ok prefix detail issues n r r' :
  Reach n r r' -> Reach (S n) r (reportIssues ok prefix detail issues r').
Proof.
  intros H. unfold reportIssues. destruct issues as [|i issues].
  - apply Reach_pass, H.
  - apply (Reach_each_fail_cons (fun i => prefix ++ Zod.path i)
             (fun i => Some (detail i))), H.
Qed.

Lemma Reach_eachCard cards : forall i n r r',
  Reach n r r' -> Reach n r (eachCard i cards r').
Proof.
  induction cards as [|c cards IH]; intros i n r r' H; simpl; [exact H|].
  apply IH. unfold checkCard. destruct (cardIncomplete c); [|exact H].
  apply Reach_fail_any with (n := n); [lia | exact H].
Qed.

Lemma Reach_metaGroup doc n r r' :
  Reach n r r' -> Reach (2 + n) r (metaGroup defaultMessage doc r').
Proof.
  intros H. unfold metaGroup. cbv zeta.
  apply Reach_check, Reach_reportIssues, Reach_header, H.
Qed.

Lemma Reach_sectionGroup doc n r r' :
  Reach n r r' -> Reach (1 + n) r (sectionGroup defaultMessage doc r').
Proof.
  intros H. unfold sectionGroup. cbv zeta.
  apply Reach_reportIssues, Reach_header, H.
Qed.

Lemma Reach_contentGroup doc n r r' :
  Reach n r r' -> Reach (2 + n) r (contentGroup defaultMessage doc r').
Proof.
  intros H. unfold contentGroup, agentCardsCheck. cbv zeta.
  apply Reach_pass, Reach_eachCard, Reach_reportIssues, Reach_header, H.
Qed.

Lemma Reach_assetGroup w html doc n r r' :
  Reach n r r' -> Reach (1 + n) r (assetGroup w html doc r').
Proof.
  intros H. unfold assetGroup. cbv zeta.
  destruct (missingAssets w html doc) as [|a l].
  - apply Reach_pass, Reach_header, H.
  - apply (Reach_each_fail_cons (fun a => js "Missing asset: " ++ a)
             (fun _ => None)), Reach_header, H.
Qed.

Lemma Reach_reportLinks l n r r' :
  Reach n r r' -> Reach (2 + n) r (reportLinks l r').
Proof.
  intros H. unfold reportLinks. cbv zeta.
  assert (H1 : Reach (S n) r
                 (match anchorLinks l with
                  | [] => pass (js "All anchor links resolve to existing IDs") r'
                  | x :: l0 =>
                      forEach (fun x => fail (js "Broken anchor: " ++ x) None)
                        (x :: l0) r'
                  end)).
  { destruct (anchorLinks l).
    - apply Reach_pass, H.
    - apply (Reach_each_fail_cons (fun x => js "Broken anchor: " ++ x)
               (fun _ => None)), H. }
  destruct (relativeLinks l).
  - apply Reach_pass, H1.
  - apply (Reach_each_fail_cons (fun x => js "Broken relative link: " ++ x)
             (fun _ => None)), H1.
Qed.

Lemma Reach_imageGroup doc n r r' :
  Reach n r r' -> Reach (2 + n) r (imageGroup doc r').
Proof.
  intros H. unfold imageGroup. cbv zeta.
  generalize (collectImgIssues doc). intros issues.
  assert (H1 : Reach (S n) r
                 (match missingAlt issues with
                  | [] => pass (js "All images have alt attributes")
                            (header (js "6. Images") r')
                  | x :: l0 =>
                      forEach (fun i => fail (js "Missing alt: " ++ i) None)
                        (x :: l0) (header (js "6. Images") r')
                  end)).
  { destruct (missingAlt issues).
    - apply Reach_pass, Reach_header, H.
    - apply (Reach_each_fail_cons (fun i => js "Missing alt: " ++ i)
               (fun _ => None)), Reach_header, H. }
  destruct (lazyWithoutDimensions issues).
  - apply Reach_pass, H1.
  - apply (Reach_each_fail_cons
             (fun i => js "Lazy image without dimensions: " ++ i)
             (fun _ => Some (js "Browser may not load images in collapsed containers"))),
      H1.
Qed.

Lemma Reach_translationGroup doc n r r' :
  Reach n r r' -> Reach (9 + n) r (translationGroup defaultMessage doc r').
Proof.
  intros H. unfold translationGroup, localStorageCheck, defaultLangCheck.
  cbv zeta. do 8 apply Reach_check.
  apply Reach_reportIssues, Reach_header, H.
Qed.

Lemma Reach_chatGroup doc n r r' :
  Reach n r r' -> Reach (2 + n) r (chatGroup doc r').
Proof.
  intros H. unfold chatGroup, ptChatCheck, enChatCheck. cbv zeta.
  destruct (ptChatMatch (allJs doc)), (enChatMatch (allJs doc)); reach.
Qed.

Lemma Reach_legalGroup doc n r r' :
  Reach n r r' -> Reach (7 + n) r (legalGroup doc r').
Proof.
  intros H. unfold legalGroup. cbv zeta. do 7 apply Reach_check.
  apply Reach_header, H.
Qed.

Lemma Reach_qualityGroup html doc n r r' :
  Reach n r r' -> Reach (5 + n) r (qualityGroup html doc r').
Proof.
  intros H. unfold qualityGroup. cbv zeta.
  destruct (Regex.test todoRe html),
    (Regex.test emDashRe (Dom.text (Dom.select doc [[Dom.Tag (js "body")]]))),
    (JS.includes html (js "5511999999999")),
    (0 <? count (Dom.select doc
                   [[Dom.Tag (js "footer")];
                    [Dom.Tag (js "a"); Dom.AttrEq (js "href") (js "#")]]));
    reach.
Qed.

Lemma Reach_cdnGroup html n r r' :
  Reach n r r' -> Reach (6 + n) r (cdnGroup html r').
Proof.
  intros H. unfold cdnGroup, forEach, requiredCDNs. cbv zeta.
  cbn [fold_left]. do 6 apply Reach_check. apply Reach_header, H.
Qed.

(** A summary branch only prints. *)
Lemma Steps_summary ks r r' :
  Steps ks r r' -> Steps ks r (reportOf (summary r')).
Proof.
  intros H. unfold summary. cbv zeta.
  assert (HL : Steps ks r (logResults r')).
  { unfold logResults. repeat (apply StepsLog; [reflexivity|]). exact H. }
  destruct (0 <? failed (logResults r')); [apply StepsLog; [reflexivity|exact HL]|].
  destruct (0 <? warnings (logResults r'));
    (apply StepsLog; [reflexivity|exact HL]).
Qed.

(** The groups before the links are checked. *)
Lemma Reach_beforeLinks w html r :
  Reach 6 r
    (header (js "5. Internal Links")
       (assetGroup w html (parse html)
          (contentGroup defaultMessage (parse html)
             (sectionGroup defaultMessage (parse html)
                (metaGroup defaultMessage (parse html) r))))).
Proof.
  apply Reach_header.
  apply (Reach_assetGroup w html (parse html) 5).
  apply (Reach_contentGroup (parse html) 3).
  apply (Reach_sectionGroup (parse html) 2).
  apply (Reach_metaGroup (parse html) 0).
  apply Reach_refl.
Qed.

(** The groups of a run that reaches the summary. *)
Lemma Reach_groups w html links r :
  Reach 39 r
    (cdnGroup html
       (qualityGroup html (parse html)
          (legalGroup (parse html)
             (chatGroup (parse html)
                (translationGroup defaultMessage (parse html)
                   (imageGroup (parse html)
                      (reportLinks links
                         (header (js "5. Internal Links")
                            (assetGroup w html (parse html)
                               (contentGroup defaultMessage (parse html)
                                  (sectionGroup defaultMessage (parse html)
                                     (metaGroup defaultMessage (parse html) r)))))))))))).
Proof.
  apply (Reach_cdnGroup html 33).
  apply (Reach_qualityGroup html (parse html) 28).
  apply (Reach_legalGroup (parse html) 21).
  apply (Reach_chatGroup (parse html) 19).
  apply (Reach_translationGroup (parse html) 10).
  apply (Reach_imageGroup (parse html) 8).
  apply (Reach_reportLinks links 6).
  apply Reach_beforeLinks.
Qed.

Lemma Steps_runFrom w r :
  exists ks, Steps ks r (reportOf (runFrom parse parseSelector defaultMessage w r)).
Proof.
  unfold runFrom. destruct (readFile w (js "index.html")) as [html|];
    [|exists []; apply StepsNil].
  cbv zeta.
  destruct (brokenLinks parseSelector w (parse html)) as [links|].
  - destruct (Reach_groups w html links r) as (ks & St & _).
    exists ks. apply Steps_summary, St.
  - destruct (Reach_beforeLinks w html r) as (ks & St & _).
    exists ks. exact St.
Qed.

Lemma Reach_runFrom w r code r' :
  runFrom parse parseSelector defaultMessage w r = Exited code r' ->
  exists ks, Steps ks r r' /\ slots 39 ks.
Proof.
  unfold runFrom. destruct (readFile w (js "index.html")) as [html|];
    [|discriminate].
  cbv zeta.
  destruct (brokenLinks parseSelector w (parse html)) as [links|];
    [|discriminate].
  intros E. destruct (Reach_groups w html links r) as (ks & St & Sl).
  exists ks. split; [|exact Sl].
  apply Steps_summary in St. rewrite E in St. exact St.
Qed.

End ValidatorAccounting.

Section ProberAccounting.
Import Reporter Prober Accounting.
Local Open Scope prober_scope.
Variable b : browser.

Lemma PReach_still {A} (c : P A) :
  (forall s, rep (snd (c s)) = rep s) -> PReach 0 c.
Proof.
  intros H s. exists []. rewrite H. split; [apply StepsNil|].
  unfold passes, others. simpl. split; [lia|reflexivity].
Qed.

Lemma PReach_ret {A} (a : A) : PReach 0 (ret a).
Proof. apply PReach_still. reflexivity. Qed.

Lemma PReach_await {A} (o : outcome A) : PReach 0 (await o).
Proof. apply PReach_still. reflexivity. Qed.

Lemma PReach_newContext n : PReach 0 (newContext n).
Proof. apply PReach_still. reflexivity. Qed.

Lemma PReach_closeContext n : PReach 0 (closeContext n).
Proof. apply PReach_still. reflexivity. Qed.

Lemma PReach_report n f :
  (forall r, Reach n r (f r)) -> PReach n (report f).
Proof.
  intros H s. destruct (H (rep s)) as (ks & St & Sl & Se).
  exists ks. simpl. split; [exact St|]. split; [exact Sl|]. intros _. exact Se.
Qed.

Lemma PReach_bind {A B} n1 n2 n (c : P A) (f : A -> P B) :
  PReach n1 c -> (forall a, PReach n2 (f a)) -> n = (n1 + n2)%nat ->
  PReach n (bind c f).
Proof.
  intros Hc Hf -> s. unfold bind.
  destruct (Hc s) as (k1 & S1 & L1 & E1).
  destruct (c s) as [[a|e] s']; simpl in *.
  - destruct (Hf a s') as (k2 & S2 & L2 & E2).
    exists (k1 ++ k2). split; [eapply Steps_trans; eauto|].
    rewrite passes_app, others_app. split; [lia|].
    intros T O. specialize (E1 eq_refl). specialize (E2 T). lia.
  - exists k1. split; [exact S1|]. split; [lia|discriminate].
Qed.

(** A handler that records a failure makes up for the places of the body
    that threw. *)
Lemma PReach_tryCatch_fail n (c : P unit) (l : JS.str -> JS.str)
  (d : JS.str -> option JS.str) :
  PReach n c ->
  PReach n (tryCatch c (fun message => report (fail (l message) (d message)))).
Proof.
  intros Hc s. unfold tryCatch.
  destruct (Hc s) as (k1 & S1 & L1 & E1).
  destruct (c s) as [[a|e] s']; simpl in *.
  - exists k1. auto.
  - exists (k1 ++ [KFail]). split; [apply StepsFail, S1|].
    rewrite passes_app, others_app. unfold passes, others. simpl.
    split; [unfold passes in L1; lia | lia].
Qed.

Lemma PReach_passOrFail c ok ko d : PReach 1 (passOrFail c ok ko d).
Proof.
  apply PReach_report. intros r. destruct c; reach; apply Reach_refl.
Qed.

Lemma PReach_passOrFailEach l ok ko d : PReach 1 (passOrFailEach l ok ko d).
Proof.
  apply PReach_report. intros r. destruct l.
  - apply Reach_pass, Reach_refl.
  - apply (Reach_each_fail_cons ko d), Reach_refl.
Qed.

Lemma PReach_header t : PReach 0 (header t).
Proof.
  apply PReach_report. intros r. apply Reach_log; [reflexivity|apply Reach_refl].
Qed.

End ProberAccounting.

(** Splits a goal [PReach n c] along the statements of [c]; the places of
    the parts are added up at the end. *)
Ltac preach :=
  repeat first
    [ match goal with
      | |- Accounting.PReach _ (Prober.bind _ _) =>
          eapply PReach_bind; [|intros ?|]
      end
    | apply PReach_ret | apply PReach_await | apply PReach_newContext
    | apply PReach_closeContext | apply PReach_passOrFail
    | apply PReach_passOrFailEach | apply PReach_header
    | match goal with
      | |- Accounting.PReach _ (Prober.report _) =>
          apply (PReach_report 1); intros ?;
          repeat match goal with
                 | |- Accounting.Reach _ _ ((if ?c then _ else _) _) => destruct c
                 | |- Accounting.Reach _ _
                        ((match ?x with Some _ => _ | None => _ end) _) =>
                     destruct x
                 end; reach; apply Reach_refl
      end
    | match goal with |- @eq nat _ _ => reflexivity end ].

Section ProberGroups.
Import Reporter Prober Accounting.
Local Open Scope prober_scope.
Variable b : browser.

Lemma PReach_loadCheck pg : PReach 2 (loadCheck b pg).
Proof.
  unfold loadCheck.
  apply (PReach_bind 0 2 2); [apply PReach_newContext|intros ?|reflexivity].
  apply (PReach_bind 2 0 2); [|intros ?; apply PReach_closeContext|reflexivity].
  apply (PReach_tryCatch_fail 2 (loadProbe b pg)
           (fun _ => rname pg ++ js " load") (fun m => Some m)).
  unfold loadProbe. preach.
Qed.

Lemma PReach_loadGroup : PReach 6 (loadGroup b).
Proof.
  unfold loadGroup. cbn [forOf PAGES].
  eapply PReach_bind;
    [apply (PReach_report 0); intros r;
     apply Reach_log; [reflexivity|apply Reach_refl]
    |intros ?|reflexivity].
  repeat (eapply PReach_bind; [apply PReach_loadCheck|intros ?|]);
    first [apply PReach_ret | reflexivity].
Qed.

Lemma PReach_layoutCheck vp : PReach 4 (layoutCheck b vp).
Proof. unfold layoutCheck. preach. Qed.

Lemma PReach_layoutGroup : PReach 16 (layoutGroup b).
Proof.
  unfold layoutGroup. cbn [forOf VIEWPORTS].
  eapply PReach_bind; [apply PReach_header|intros ?|reflexivity].
  repeat (eapply PReach_bind; [apply PReach_layoutCheck|intros ?|]);
    first [apply PReach_ret | reflexivity].
Qed.

Lemma PReach_imageGroup : PReach 1 (imageGroup b).
Proof. unfold imageGroup. preach. Qed.

Lemma PReach_langGroup : PReach 4 (langGroup b).
Proof. unfold langGroup. preach. Qed.

Lemma PReach_animGroup : PReach 4 (animGroup b).
Proof. unfold animGroup. preach. Qed.

Lemma PReach_interGroup : PReach 4 (interGroup b).
Proof. unfold interGroup. preach. Qed.

Lemma PReach_perfGroup : PReach 2 (perfGroup b).
Proof. unfold perfGroup. cbv zeta. preach. Qed.

Lemma PReach_body : PReach 37 (body b).
Proof.
  unfold body, groups.
  eapply PReach_bind;
    [apply (PReach_report 0); intros r;
     apply Reach_log; [reflexivity|apply Reach_refl]
    |intros ?|reflexivity].
  eapply PReach_bind; [apply PReach_await|intros ?|reflexivity].
  eapply PReach_bind; [apply PReach_loadGroup|intros ?|reflexivity].
  eapply PReach_bind; [apply PReach_layoutGroup|intros ?|reflexivity].
  eapply PReach_bind; [apply PReach_imageGroup|intros ?|reflexivity].
  eapply PReach_bind; [apply PReach_langGroup|intros ?|reflexivity].
  eapply PReach_bind; [apply PReach_animGroup|intros ?|reflexivity].
  eapply PReach_bind; [apply PReach_interGroup|intros ?|reflexivity].
  apply PReach_perfGroup.
Qed.

Lemma Steps_prober_summary ks r r' :
  Steps ks r r' -> Steps ks r (snd (summary r')).
Proof.
  intros H. unfold summary. cbv zeta.
  assert (HL : Steps ks r (logResults r')).
  { unfold logResults. repeat (apply StepsLog; [reflexivity|]). exact H. }
  destruct (0 <? failed (logResults r')); [apply StepsLog; [reflexivity|exact HL]|].
  destruct (0 <? warnings (logResults r'));
    (apply StepsLog; [reflexivity|exact HL]).
Qed.

Lemma Steps_prober_runFrom s :
  exists ks, Steps ks (rep s) (rep (stateOf (runFrom b s))).
Proof.
  unfold runFrom. destruct (PReach_body s) as (ks & St & _).
  exists ks. destruct (body b s) as [[u|e] s']; simpl in *; [|exact St].
  apply Steps_prober_summary in St.
  destruct (summary (rep s')) as [code r]. exact St.
Qed.

Lemma Reach_prober_runFrom s code s' :
  runFrom b s = Exited code s' ->
  exists ks, Steps ks (rep s) (rep s') /\ slots 37 ks.
Proof.
  unfold runFrom. destruct (PReach_body s) as (ks & St & Sl & Se).
  destruct (body b s) as [[u|e] s1]; simpl in *; [|discriminate].
  apply Steps_prober_summary in St.
  destruct (summary (rep s1)) as [c r]. intros E. inversion E; subst.
  exists ks. split; [exact St|]. split; [exact Sl|exact (Se eq_refl)].
Qed.

End ProberGroups.

(* ================================================================== *)
(** * The console and the counters of a whole run *)
(* ================================================================== *)

(** X1. In a run of either script the console is a faithful record of the
    counters: read the lines of the console in order, count the lines that
    begin like a line of [pass], of [fail] and of [warn], and the three
    counts are the counters [passed], [failed] and [warnings] the summary
    prints. This holds however the run ends, also after an exception. *)
Theorem console_tells_the_counters :
  (forall parse parseSelector defaultMessage w,
     let r := Validator.reportOf
                (Validator.run parse parseSelector defaultMessage w) in
     Reporter.counters r
     = Accounting.tally (Accounting.shown (Reporter.console r)) (0, 0, 0))
  /\ (forall b,
        let r := Prober.rep (Prober.stateOf (Prober.run b)) in
        Reporter.counters r
        = Accounting.tally (Accounting.shown (Reporter.console r)) (0, 0, 0)).
Proof.
  split.
  - intros parse parseSelector defaultMessage w r.
    destruct (Steps_runFrom parse parseSelector defaultMessage w Reporter.init)
      as (ks & St).
    apply (Steps_audit ks). exact St.
  - intros b r.
    destruct (Steps_prober_runFrom b Prober.start) as (ks & St).
    apply (Steps_audit ks). exact St.
Qed.

Section PassCounts.
Import Reporter Accounting.

(** The counters after the outcomes [ks], from the first state. *)
Lemma slots_counters n ks r :
  Steps ks init r -> slots n ks ->
  passed r <= N.of_nat n
  /\ (failed r = 0 -> warnings r = 0 -> passed r = N.of_nat n).
Proof.
  intros St (Le & Eq). apply Steps_counters in St.
  destruct (tally_counts ks 0 0 0) as (f' & w' & E & Sum).
  unfold counters in St. simpl in St. rewrite E in St.
  injection St as Hp Hf Hw. subst f' w'. split; [lia|].
  intros F W. rewrite Hp. f_equal. apply Eq. lia.
Qed.

End PassCounts.

(** X2. The validator has 39 places for a pass. A run that reaches the
    summary never counts more than 39 passes, and a run without a failure
    and without a warning counts exactly 39: a clean page is reported as
    39 passed, 0 failed, 0 warnings. *)
Theorem validator_clean_run_counts_39 parse parseSelector defaultMessage w
  code r :
  Validator.run parse parseSelector defaultMessage w = Validator.Exited code r ->
  Reporter.passed r <= 39
  /\ (Reporter.failed r = 0 -> Reporter.warnings r = 0 ->
      Reporter.passed r = 39).
Proof.
  intros E. apply Reach_runFrom in E as (ks & St & Sl).
  apply (slots_counters 39 ks r St Sl).
Qed.

Lemma validator_clean_run_witness :
  Reporter.passed
    (Validator.reportOf
       (Validator.run (fun _ => Healthy.doc) Samples.idSelector Healthy.message
          Healthy.files)) = 39.
Proof.
  apply (validator_clean_run_counts_39 (fun _ => Healthy.doc)
           Samples.idSelector Healthy.message Healthy.files 0%Z).
  - vm_compute. reflexivity.
  - vm_compute. reflexivity.
  - vm_compute. reflexivity.
Defined.

(** X3. The prober has 37 places for a pass: two for each of the three
    routes, four for each of the four viewports, and 15 in the other five
    groups. A run that reaches the summary never counts more than 37
    passes, and one without a failure and without a warning counts exactly
    37. *)
Theorem prober_clean_run_counts_37 b code s :
  Prober.run b = Prober.Exited code s ->
  Reporter.passed (Prober.rep s) <= 37
  /\ (Reporter.failed (Prober.rep s) = 0 ->
      Reporter.warnings (Prober.rep s) = 0 ->
      Reporter.passed (Prober.rep s) = 37).
Proof.
  intros E. apply Reach_prober_runFrom in E as (ks & St & Sl).
  apply (slots_counters 37 ks (Prober.rep s) St Sl).
Qed.

Lemma prober_clean_run_witness :
  Reporter.passed (Prober.rep (Prober.stateOf (Prober.run Healthy.site))) = 37.
Proof.
  apply (prober_clean_run_counts_37 Healthy.site 0%Z).
  - vm_compute. reflexivity.
  - vm_compute. reflexivity.
  - vm_compute. reflexivity.
Defined.

Section ExitOnConsole.
Import Reporter Accounting.

Lemma tally_failures ks : forall c,
  snd (fst (tally ks c))
  = snd (fst c) + N.of_nat (List.length (filter isFailure ks)).
Proof.
  unfold tally. induction ks as [|k ks IH]; intros [[p f] w].
  - simpl. lia.
  - cbn [fold_left]. rewrite IH. destruct k; simpl; lia.
Qed.

Lemma In_failure ks :
  In KFail ks <-> (0 < List.length (filter isFailure ks))%nat.
Proof.
  split.
  - intros H. assert (I : In KFail (filter isFailure ks))
      by (apply filter_In; split; [exact H|reflexivity]).
    destruct (filter isFailure ks); [destruct I|simpl; lia].
  - intros H. destruct (filter isFailure ks) as [|k l] eqn:F;
      [simpl in H; lia|].
    assert (I : In k (filter isFailure ks)) by (rewrite F; left; reflexivity).
    apply filter_In in I as [I K]. destruct k; try discriminate. exact I.
Qed.

(** With the counters told by the console, a failure is on record exactly
    when the console shows one. *)
Lemma failed_on_console r :
  counters r = tally (shown (console r)) (0, 0, 0) ->
  (summarize r = Failure <-> In KFail (shown (console r))).
Proof.
  intros A. pose proof (tally_failures (shown (console r)) (0, 0, 0)) as T.
  rewrite <- A in T. unfold counters in T. cbn [fst snd] in T.
  rewrite In_failure. unfold summarize.
  destruct (0 <? failed r) eqn:F.
  - apply N.ltb_lt in F. split; [intros _; lia|reflexivity].
  - apply N.ltb_ge in F. split.
    + destruct (0 <? warnings r); discriminate.
    + intros H. lia.
Qed.

End ExitOnConsole.

(** X23. The exit code can be read off the console. A run of either script
    ends with exit code 1 exactly when it ends in an exception or its
    console shows the line of a failure; so a run that prints its summary
    and no failure line exits with code 0, warnings or not. *)
Theorem exit_code_is_on_the_console :
  (forall parse parseSelector defaultMessage w,
     Validator.exitOf (Validator.run parse parseSelector defaultMessage w) = 1%Z
     <-> (exists r,
            Validator.run parse parseSelector defaultMessage w
            = Validator.Uncaught r)
         \/ In Reporter.KFail
              (Accounting.shown
                 (Reporter.console
                    (Validator.reportOf
                       (Validator.run parse parseSelector defaultMessage w)))))
  /\ (forall b,
        Prober.exitOf (Prober.run b) = 1%Z
        <-> (exists m s, Prober.run b = Prober.Fatal m s)
            \/ In Reporter.KFail
                 (Accounting.shown
                    (Reporter.console
                       (Prober.rep (Prober.stateOf (Prober.run b)))))).
Proof.
  split.
  - intros parse parseSelector defaultMessage w.
    destruct (Steps_runFrom parse parseSelector defaultMessage w Reporter.init)
      as (ks & St).
    apply Steps_audit in St. unfold Validator.run in *.
    destruct (Validator.runFrom parse parseSelector defaultMessage w
                Reporter.init) as [code r|r] eqn:E.
    + cbn [Validator.exitOf Validator.reportOf] in *.
      rewrite (validator_run_exit _ _ _ _ _ _ _ E).
      rewrite <- (failed_on_console r St). split.
      * intros H. right. destruct (Reporter.summarize r);
          [discriminate|discriminate|reflexivity].
      * intros [(r' & H)|H]; [discriminate|]. rewrite H. reflexivity.
    + split; [intros _; left; eauto|reflexivity].
  - intros b.
    destruct (Steps_prober_runFrom b Prober.start) as (ks & St).
    apply Steps_audit in St. unfold Prober.run in *.
    destruct (Prober.runFrom b Prober.start) as [code s|m s] eqn:E.
    + cbn [Prober.exitOf Prober.stateOf] in *.
      rewrite (prober_run_exit _ _ _ _ E).
      rewrite <- (failed_on_console (Prober.rep s) St). split.
      * intros H. right. destruct (Reporter.summarize (Prober.rep s));
          [discriminate|discriminate|reflexivity].
      * intros [(m & s' & H)|H]; [discriminate|]. rewrite H. reflexivity.
    + split; [intros _; left; eauto|reflexivity].
Qed.

(* ================================================================== *)
(** * The internal links *)
(* ================================================================== *)

Section LinkFacts.
Import Reporter Dom Validator Links.
Variable parse : JS.str -> document.
Variable parseSelector : JS.str -> option selector.
Variable defaultMessage : Zod.rule -> option Zod.value -> JS.str.

(** What [$('tag[a]')] selects has the attribute. *)
Lemma select_has_attr doc t a e :
  In e (select doc [[Tag t; HasAttr a]]) -> attr a e <> None.
Proof.
  unfold select. intros H. apply filter_In in H as [_ H].
  unfold matches in H. simpl in H. unfold matchCompound in H. simpl in H.
  unfold attr. destruct (lookup a (attribs e)); [discriminate|].
  rewrite andb_false_r in H. discriminate.
Qed.

Lemma endsWith_snoc s c : JS.endsWith (s ++ [c]) [c] = true.
Proof.
  unfold JS.endsWith. rewrite rev_app_distr. simpl.
  rewrite N.eqb_refl. reflexivity.
Qed.

Lemma endsWith_last s c :
  JS.endsWith s [c] = true -> exists d, s = d ++ [c].
Proof.
  unfold JS.endsWith. simpl. intros H.
  destruct (rev s) as [|x t] eqn:E; [discriminate|].
  rewrite andb_true_r in H. apply N.eqb_eq in H. subst x.
  exists (rev t). rewrite <- (rev_involutive s), E. reflexivity.
Qed.

(** The pattern [\/$] matches at the last character only. *)
Lemma search_trailing_slash d : forall pre,
  Regex.searchFrom trailingSlashRe pre (d ++ [47])
  = Some (Regex.mkFound (rev pre ++ d) [47] None []).
Proof.
  induction d as [|c d IH]; intros pre.
  - simpl. rewrite app_nil_r. reflexivity.
  - rewrite searchFrom_eq. simpl app.
    assert (M : Regex.m trailingSlashRe (c :: d ++ [47]) None
                  (fun rest cap => Some (rest, cap)) = None).
    { cbn [Regex.m trailingSlashRe Regex.Char].
      destruct (47 =? c); [|reflexivity]. destruct d; reflexivity. }
    rewrite M, IH. simpl. rewrite <- app_assoc. reflexivity.
Qed.

Lemma search_no_trailing_slash s : forall pre,
  JS.endsWith s [47] = false ->
  Regex.searchFrom trailingSlashRe pre s = None.
Proof.
  induction s as [|c s IH]; intros pre H; [reflexivity|].
  rewrite searchFrom_eq. cbn [Regex.m trailingSlashRe Regex.Char].
  assert (Hs : s <> [] -> JS.endsWith s [47] = false).
  { intros Ne. destruct (JS.endsWith s [47]) eqn:E; [|reflexivity].
    apply endsWith_last in E as [d ->].
    rewrite <- H. change (c :: d ++ [47]) with ((c :: d) ++ [47]).
    symmetry. apply endsWith_snoc. }
  destruct (47 =? c) eqn:C.
  - destruct s as [|x s].
    + apply N.eqb_eq in C. subst c. discriminate.
    + apply IH, Hs. discriminate.
  - destruct s as [|x s]; [reflexivity|]. apply IH, Hs. discriminate.
Qed.

Lemma replace_trailing_slash href :
  Regex.replace trailingSlashRe (js "/index.html") href = indexPath href.
Proof.
  unfold Regex.replace, Regex.exec, indexPath.
  destruct (JS.endsWith href (js "/")) eqn:E.
  - apply endsWith_last in E as [d ->].
    rewrite search_trailing_slash. simpl. rewrite <- app_assoc. reflexivity.
  - rewrite search_no_trailing_slash; [reflexivity|exact E].
Qed.

Lemma not_hash_prefix href :
  JS.startsWith href (js "#") = false -> JS.eqb href (js "#") = false.
Proof.
  intros H. destruct (JS.eqb href (js "#")) eqn:E; [|reflexivity].
  apply eqb_eq in E. subst href. discriminate.
Qed.

(** One turn of the loop, by the kind of the link. *)
Lemma checkLink_eq w doc acc e href :
  attr (js "href") e = Some href ->
  checkLink parseSelector w doc acc e
  = if unparsable parseSelector href then None
    else Some (mkLinks
                 (anchorLinks acc
                  ++ (if dangling parseSelector doc href then [href] else []))
                 (relativeLinks acc
                  ++ (if brokenPath w href then [href] else []))).
Proof.
  intros A. unfold checkLink. rewrite A. cbv zeta.
  unfold unparsable, dangling, brokenPath, isFragment, isLocalPath.
  rewrite replace_trailing_slash.
  destruct (JS.startsWith href (js "#")) eqn:H1.
  - destruct (JS.eqb href (js "#")) eqn:H2; cbn [negb andb].
    + rewrite !andb_false_r, !app_nil_r. destruct acc; reflexivity.
    + destruct (parseSelector (js "#" ++ JS.slice1 href)) as [sel|];
        [|reflexivity].
      destruct (nonEmpty (select doc sel)); cbn [negb];
        rewrite !app_nil_r; [destruct acc|]; reflexivity.
  - rewrite (not_hash_prefix _ H1). cbn [negb andb].
    destruct (JS.startsWith href (js "http")); cbn [negb andb];
      [rewrite !app_nil_r; destruct acc; reflexivity|].
    destruct (JS.startsWith href (js "mailto:")); cbn [negb andb];
      [rewrite !app_nil_r; destruct acc; reflexivity|].
    destruct (existsSync w (indexPath href)); cbn [negb andb];
      [rewrite !app_nil_r; destruct acc; reflexivity|].
    destruct (existsSync w href); cbn [negb andb]; rewrite !app_nil_r;
      [destruct acc; reflexivity|reflexivity].
Qed.

Lemma eachLink_eq w doc links : forall acc,
  (forall e, In e links -> attr (js "href") e <> None) ->
  eachLink parseSelector w doc acc links
  = if existsb (unparsable parseSelector) (hrefsOf links) then None
    else Some (mkLinks
                 (anchorLinks acc
                  ++ filter (dangling parseSelector doc) (hrefsOf links))
                 (relativeLinks acc ++ filter (brokenPath w) (hrefsOf links))).
Proof.
  induction links as [|e links IH]; intros acc Ha.
  - simpl. rewrite !app_nil_r. destruct acc; reflexivity.
  - destruct (attr (js "href") e) as [href|] eqn:A;
      [|exfalso; apply (Ha e); [left; reflexivity|exact A]].
    cbn [eachLink]. rewrite (checkLink_eq w doc acc e href A).
    unfold hrefsOf. cbn [flat_map]. rewrite A. cbn [app existsb filter].
    fold (hrefsOf links).
    destruct (unparsable parseSelector href); [reflexivity|].
    rewrite IH by (intros e' I; apply Ha; right; exact I).
    cbn [orb anchorLinks relativeLinks].
    destruct (existsb (unparsable parseSelector) (hrefsOf links));
      [reflexivity|].
    destruct (dangling parseSelector doc href), (brokenPath w href);
      cbn [app]; rewrite <- ?app_assoc; reflexivity.
Qed.

Lemma brokenLinks_eq w doc :
  brokenLinks parseSelector w doc
  = if existsb (unparsable parseSelector) (hrefs doc) then None
    else Some (mkLinks (filter (dangling parseSelector doc) (hrefs doc))
                 (filter (brokenPath w) (hrefs doc))).
Proof.
  unfold brokenLinks, hrefs. rewrite eachLink_eq; [reflexivity|].
  intros e. apply select_has_attr.
Qed.

End LinkFacts.

(** X4. The two lists the link group reports. The broken anchors are the
    links to a fragment [#name] (other than the bare [#]) whose selector
    selects nothing; the broken relative links are the links that are no
    fragment, no [http] and no [mailto:] address and for which neither the
    path (with [index.html] after a final slash) nor the path as written
    exists. Both lists are in document order, and a link that occurs twice
    is listed twice. *)
Theorem link_group_lists parseSelector w doc l :
  Validator.brokenLinks parseSelector w doc = Some l ->
  Validator.anchorLinks l
  = filter (Links.dangling parseSelector doc) (Links.hrefs doc)
  /\ Validator.relativeLinks l = filter (Links.brokenPath w) (Links.hrefs doc).
Proof.
  rewrite brokenLinks_eq.
  destruct (existsb _ _); [discriminate|].
  intros E. injection E as <-. split; reflexivity.
Qed.

(** X5. The path the script looks for behind a relative link:
    [href.replace(/\/$/, '/index.html')] adds [index.html] to a path that
    ends in a slash and leaves every other path as it is (a slash inside the
    path does not count). *)
Theorem trailing_slash_gets_index href :
  (forall d, href = d ++ js "/" ->
     Regex.replace Validator.trailingSlashRe (js "/index.html") href
     = d ++ js "/index.html")
  /\ (JS.endsWith href (js "/") = false ->
      Regex.replace Validator.trailingSlashRe (js "/index.html") href = href).
Proof.
  rewrite replace_trailing_slash. unfold Links.indexPath. split.
  - intros d ->. change (js "/") with [47]. rewrite endsWith_snoc.
    rewrite <- app_assoc. reflexivity.
  - intros ->. reflexivity.
Qed.

Lemma trailing_slash_witness :
  Regex.replace Validator.trailingSlashRe (js "/index.html") (js "/privacidade/")
  = js "/privacidade/index.html"
  /\ Regex.replace Validator.trailingSlashRe (js "/index.html")
       (js "legal/termos.html")
     = js "legal/termos.html".
Proof.
  split.
  - apply (proj1 (trailing_slash_gets_index (js "/privacidade/"))
             (js "/privacidade")).
    reflexivity.
  - apply (proj2 (trailing_slash_gets_index (js "legal/termos.html"))).
    reflexivity.
Defined.

Lemma link_group_lists_witness :
  exists l,
    Validator.brokenLinks Cases.strictIdSelector Cases.linksFiles Cases.linksDoc
    = Some l
    /\ Validator.anchorLinks l = [js "#nada"; js "#nada"]
    /\ Validator.relativeLinks l = [js "termos.html"].
Proof.
  destruct (Validator.brokenLinks Cases.strictIdSelector Cases.linksFiles
              Cases.linksDoc) as [l|] eqn:E; [|vm_compute in E; discriminate].
  exists l. split; [reflexivity|].
  destruct (link_group_lists Cases.strictIdSelector Cases.linksFiles
              Cases.linksDoc l E) as [A R].
  rewrite A, R. split; vm_compute; reflexivity.
Defined.

Section AbortFacts.
Import Reporter Dom Validator Links.
Variable parse : JS.str -> document.
Variable parseSelector : JS.str -> option selector.
Variable defaultMessage : Zod.rule -> option Zod.value -> JS.str.

Lemma summary_exits r : exists code r', summary r = Exited code r'.
Proof.
  unfold summary. cbv zeta.
  destruct (0 <? failed (logResults r)); [eauto|].
  destruct (0 <? warnings (logResults r)); eauto.
Qed.

End AbortFacts.

(** X6. When the validator ends in an exception. A run ends without its
    summary in exactly two cases: [index.html] cannot be read, and then
    nothing has been printed; or some [a[href]] of the page has a fragment
    (other than the bare [#]) from which no selector can be built, and then
    the run stops inside the link group, after the heading of that group,
    with the groups 1 to 4 reported and no later group, no result line and
    no banner. Every other run reaches the summary. *)
Theorem validator_aborts_exactly parse parseSelector defaultMessage w r :
  Validator.run parse parseSelector defaultMessage w = Validator.Uncaught r
  <->
  (Validator.readFile w (js "index.html") = None /\ r = Reporter.init)
  \/ (exists html,
        Validator.readFile w (js "index.html") = Some html
        /\ existsb (Links.unparsable parseSelector) (Links.hrefs (parse html))
           = true
        /\ r = Validator.header (js "5. Internal Links")
                 (Validator.assetGroup w html (parse html)
                    (Validator.contentGroup defaultMessage (parse html)
                       (Validator.sectionGroup defaultMessage (parse html)
                          (Validator.metaGroup defaultMessage (parse html)
                             Reporter.init))))).
Proof.
  unfold Validator.run, Validator.runFrom.
  destruct (Validator.readFile w (js "index.html")) as [html|].
  - cbv zeta. rewrite brokenLinks_eq.
    destruct (existsb (Links.unparsable parseSelector)
                (Links.hrefs (parse html))) eqn:E.
    + split.
      * intros H. injection H as <-. right. exists html. auto.
      * intros [[H _]|(h & H & _ & ->)]; [discriminate|].
        injection H as <-. reflexivity.
    + split.
      * intros H.
        match type of H with
        | Validator.summary ?x = _ =>
            destruct (summary_exits x) as (c & r' & S)
        end.
        rewrite S in H. discriminate.
      * intros [[H _]|(h & H & F & _)]; [discriminate|].
        injection H as <-. rewrite E in F. discriminate.
  - split.
    + intros H. injection H as <-. left. auto.
    + intros [[_ ->]|(h & H & _)]; [reflexivity|discriminate].
Qed.

(** The route link [#!/planos] stops the run: exit code 1, and the last
    line printed is the heading of the link group. *)
Lemma validator_aborts_example :
  Validator.exitOf
    (Validator.run (fun _ => Cases.routeDoc) Cases.strictIdSelector
       Healthy.message Cases.linksFiles) = 1%Z
  /\ last (Reporter.console
             (Validator.reportOf
                (Validator.run (fun _ => Cases.routeDoc) Cases.strictIdSelector
                   Healthy.message Cases.linksFiles))) []
     = [10] ++ Reporter.ESC ++ js "[1m5. Internal Links" ++ Reporter.ESC
       ++ js "[0m".
Proof.
  pose (x := Validator.run (fun _ => Cases.routeDoc) Cases.strictIdSelector
               Healthy.message Cases.linksFiles).
  assert (U : x = Validator.Uncaught (Validator.reportOf x)).
  { apply (proj2 (validator_aborts_exactly (fun _ => Cases.routeDoc)
                    Cases.strictIdSelector Healthy.message Cases.linksFiles
                    (Validator.reportOf x))).
    right. exists (js "<html>"). repeat split; vm_compute; reflexivity. }
  fold x. split; [rewrite U; reflexivity | vm_compute; reflexivity].
Defined.

(** The route link [#/planos] does not: its selector is the id [/planos],
    the link is reported as a broken anchor, and the run reaches its
    summary with one failure. *)
Example slash_route_reaches_the_summary :
  exists r,
    Validator.run (fun _ => Cases.slashRouteDoc) Cases.strictIdSelector
      Healthy.message Cases.linksFiles = Validator.Exited 1%Z r
    /\ In (Reporter.failLine (js "Broken anchor: #/planos"))
         (Reporter.console r).
Proof.
  eexists. split; [vm_compute; reflexivity|].
  vm_compute. tauto.
Qed.

(* ================================================================== *)
(** * The local assets *)
(* ================================================================== *)

Section AssetMembership.
Import Reporter Dom Validator Links.

Lemma In_setAdd a x s : In a (setAdd x s) <-> a = x \/ In a s.
Proof.
  unfold setAdd. destruct (JS.arrayIncludes s x) eqn:E.
  - split; [auto|]. intros [->|H]; [|exact H].
    apply arrayIncludes_spec. exact E.
  - rewrite in_app_iff. simpl. intuition.
Qed.

(** A loop that adds to the set what [pick] finds. *)
Lemma In_fold_pick {A} (pick : A -> option JS.str)
  (f : list JS.str -> A -> list JS.str) :
  (forall s e, f s e = match pick e with Some a => setAdd a s | None => s end) ->
  forall l s a,
    In a (fold_left f l s) <-> In a s \/ exists e, In e l /\ pick e = Some a.
Proof.
  intros Hf. induction l as [|e l IH]; intros s a; simpl.
  - split; [auto|]. intros [H|(e & [] & _)]. exact H.
  - rewrite IH, Hf. split.
    + intros [H|(e' & I & P)].
      * destruct (pick e) as [x|] eqn:P; [|auto].
        apply In_setAdd in H as [->|H]; [|auto].
        right. exists e. auto.
      * right. exists e'. auto.
    + intros [H|(e' & [<-|I] & P)].
      * left. destruct (pick e); [apply In_setAdd|]; auto.
      * left. rewrite P. apply In_setAdd. auto.
      * right. exists e'. auto.
Qed.

Lemma addImgSrc_pick s e :
  addImgSrc s e = match imgAsset e with Some a => setAdd a s | None => s end.
Proof.
  unfold addImgSrc, imgAsset. destruct (attr (js "src") e); [|reflexivity].
  destruct (_ && _); reflexivity.
Qed.

Lemma addLinkHref_pick s e :
  addLinkHref s e = match linkAsset e with Some a => setAdd a s | None => s end.
Proof.
  unfold addLinkHref, linkAsset. destruct (attr (js "href") e); [|reflexivity].
  destruct (_ && _); reflexivity.
Qed.

Lemma addUrlMatch_pick s mt :
  addUrlMatch s mt = match cssAsset mt with Some a => setAdd a s | None => s end.
Proof.
  unfold addUrlMatch, cssAsset. cbv zeta. destruct (_ && _); reflexivity.
Qed.

Lemma In_localAssets html doc a :
  In a (localAssets html doc)
  <-> (exists e, In e (select doc [[Tag (js "img"); HasAttr (js "src")]])
                 /\ imgAsset e = Some a)
      \/ (exists e, In e (select doc [[Tag (js "link"); HasAttr (js "href")]])
                    /\ linkAsset e = Some a)
      \/ (exists mt, In mt (Regex.matchAll urlRe html) /\ cssAsset mt = Some a).
Proof.
  unfold localAssets. cbv zeta.
  rewrite (In_fold_pick cssAsset addUrlMatch addUrlMatch_pick).
  rewrite (In_fold_pick linkAsset addLinkHref addLinkHref_pick).
  rewrite (In_fold_pick imgAsset addImgSrc addImgSrc_pick).
  simpl. tauto.
Qed.

Lemma imgAsset_local e a :
  imgAsset e = Some a -> JS.startsWith a (js "http") = false.
Proof.
  unfold imgAsset. destruct (attr (js "src") e) as [s|]; [|discriminate].
  destruct (JS.startsWith s (js "http")) eqn:H.
  - rewrite andb_false_r. discriminate.
  - destruct (_ && _); [|discriminate]. intros E. injection E as <-. exact H.
Qed.

Lemma linkAsset_local e a :
  linkAsset e = Some a -> JS.startsWith a (js "http") = false.
Proof.
  unfold linkAsset. destruct (attr (js "href") e) as [s|]; [|discriminate].
  destruct (JS.startsWith s (js "http")) eqn:H.
  - rewrite andb_false_r. discriminate.
  - destruct (_ && _); [|discriminate]. intros E. injection E as <-. exact H.
Qed.

Lemma cssAsset_local mt a :
  cssAsset mt = Some a -> JS.startsWith a (js "http") = false.
Proof.
  unfold cssAsset. cbv zeta.
  destruct (JS.startsWith _ (js "http")) eqn:H; [discriminate|].
  destruct (negb _ && _); [|discriminate]. intros E. injection E as <-. exact H.
Qed.

End AssetMembership.

(** X7. What the asset group looks for on disk. A path is among the local
    assets exactly when the page refers to it in one of three ways: as the
    [src] of an [img], non-empty and starting with neither [http] nor
    [data:]; as the [href] of a [link], non-empty and starting with
    neither [http] nor [#]; or as the address of a [url(...)] in the text of
    the page, starting with neither [http] nor [data:]. No address that
    starts with [http] is ever looked for on disk. *)
Theorem local_assets_are_the_local_references html doc a :
  (In a (Validator.localAssets html doc)
   <-> (exists e,
          In e (Dom.select doc [[Dom.Tag (js "img"); Dom.HasAttr (js "src")]])
          /\ Links.imgAsset e = Some a)
       \/ (exists e,
             In e (Dom.select doc [[Dom.Tag (js "link"); Dom.HasAttr (js "href")]])
             /\ Links.linkAsset e = Some a)
       \/ (exists mt,
             In mt (Regex.matchAll Validator.urlRe html)
             /\ Links.cssAsset mt = Some a))
  /\ (In a (Validator.localAssets html doc) ->
      JS.startsWith a (js "http") = false).
Proof.
  split; [apply In_localAssets|].
  intros H. apply In_localAssets in H as [(e & _ & P)|[(e & _ & P)|(mt & _ & P)]].
  - exact (imgAsset_local e a P).
  - exact (linkAsset_local e a P).
  - exact (cssAsset_local mt a P).
Qed.

Section AfterAssets.
Import Reporter Dom Validator Accounting.
Variable parse : JS.str -> document.
Variable parseSelector : JS.str -> option selector.
Variable defaultMessage : Zod.rule -> option Zod.value -> JS.str.

Lemma Steps_console ks r r' :
  Steps ks r r' -> exists extra, console r' = console r ++ extra.
Proof.
  induction 1 as [r|ks r r' l _ [x IH]|ks r r' l d _ [x IH]
                 |ks r r' l d _ [x IH]|ks r r' line _ _ [x IH]].
  - exists []. symmetry. apply app_nil_r.
  - exists (x ++ [passLine l]). unfold pass, log. cbn [console].
    rewrite IH, app_assoc. reflexivity.
  - unfold fail, logDetail. destruct d as [d|].
    + destruct (JS.truthy d).
      * exists (x ++ [failLine l; detailLine d]). unfold log. cbn [console].
        rewrite IH, <- !app_assoc. reflexivity.
      * exists (x ++ [failLine l]). unfold log. cbn [console].
        rewrite IH, app_assoc. reflexivity.
    + exists (x ++ [failLine l]). unfold log. cbn [console].
      rewrite IH, app_assoc. reflexivity.
  - unfold warn, logDetail. destruct d as [d|].
    + destruct (JS.truthy d).
      * exists (x ++ [warnLine l; detailLine d]). unfold log. cbn [console].
        rewrite IH, <- !app_assoc. reflexivity.
      * exists (x ++ [warnLine l]). unfold log. cbn [console].
        rewrite IH, app_assoc. reflexivity.
    + exists (x ++ [warnLine l]). unfold log. cbn [console].
      rewrite IH, app_assoc. reflexivity.
  - exists (x ++ [line]). unfold log. cbn [console].
    rewrite IH, app_assoc. reflexivity.
Qed.

Lemma Steps_grows ks r r' : Steps ks r r' -> grows r r'.
Proof.
  induction 1.
  - apply grows_refl.
  - apply grows_pass. assumption.
  - apply grows_fail. assumption.
  - apply grows_warn. assumption.
  - apply grows_log. assumption.
Qed.

(** What a run does once the asset group is through. *)
Lemma Steps_after_assets w html r :
  readFile w (js "index.html") = Some html ->
  exists ks,
    Steps ks
      (assetGroup w html (parse html)
         (contentGroup defaultMessage (parse html)
            (sectionGroup defaultMessage (parse html)
               (metaGroup defaultMessage (parse html) r))))
      (reportOf (runFrom parse parseSelector defaultMessage w r)).
Proof.
  intros E. unfold runFrom. rewrite E. cbv zeta.
  set (r4 := assetGroup w html (parse html) _).
  destruct (brokenLinks parseSelector w (parse html)) as [links|].
  - assert (H : Reach 33 r4
                  (cdnGroup html
                     (qualityGroup html (parse html)
                        (legalGroup (parse html)
                           (chatGroup (parse html)
                              (translationGroup defaultMessage (parse html)
                                 (imageGroup (parse html)
                                    (reportLinks links
                                       (header (js "5. Internal Links") r4))))))))).
    { apply (Reach_cdnGroup html 27).
      apply (Reach_qualityGroup html (parse html) 22).
      apply (Reach_legalGroup (parse html) 15).
      apply (Reach_chatGroup (parse html) 13).
      apply (Reach_translationGroup defaultMessage (parse html) 4).
      apply (Reach_imageGroup (parse html) 2).
      apply (Reach_reportLinks links 0).
      apply Reach_header, Reach_refl. }
    destruct H as (ks & St & _). exists ks. apply Steps_summary, St.
  - exists []. apply StepsLog; [reflexivity|apply StepsNil].
Qed.

(** With a failure on record, a run ends with exit code 1. *)
Lemma exit_after_failure w r :
  0 < failed (reportOf (runFrom parse parseSelector defaultMessage w r)) ->
  exitOf (runFrom parse parseSelector defaultMessage w r) = 1%Z.
Proof.
  destruct (runFrom parse parseSelector defaultMessage w r) as [code r'|r']
    eqn:E; [|reflexivity].
  cbn [reportOf exitOf]. intros F.
  rewrite (validator_run_exit _ _ _ _ _ _ _ E).
  unfold summarize. apply N.ltb_lt in F. rewrite F. reflexivity.
Qed.

End AfterAssets.

(** X8. A missing file fails the run. When [index.html] can be read and
    one of the local assets of the page is not on disk, the console of the
    run has the line of the failure [Missing asset: path], and the process
    ends with exit code 1, whatever the other groups find and also when the
    run ends in an exception. *)
Theorem missing_asset_fails_the_run parse parseSelector defaultMessage w html a :
  Validator.readFile w (js "index.html") = Some html ->
  In a (Validator.localAssets html (parse html)) ->
  Validator.existsSync w a = false ->
  In (Reporter.failLine (js "Missing asset: " ++ a))
    (Reporter.console
       (Validator.reportOf (Validator.run parse parseSelector defaultMessage w)))
  /\ Validator.exitOf (Validator.run parse parseSelector defaultMessage w) = 1%Z.
Proof.
  intros E I X. unfold Validator.run.
  destruct (Steps_after_assets parse parseSelector defaultMessage w html
              Reporter.init E) as (ks & St).
  set (r3 := Validator.contentGroup defaultMessage (parse html) _) in St.
  assert (M : In a (Validator.missingAssets w html (parse html))).
  { unfold Validator.missingAssets. apply filter_In. split; [exact I|].
    rewrite X. reflexivity. }
  split.
  - destruct (Steps_console _ _ _ St) as [extra ->].
    apply in_or_app. left. rewrite console_assetGroup.
    apply in_or_app. right. apply in_or_app. right.
    destruct (Validator.missingAssets w html (parse html)) as [|x l];
      [destruct M|].
    apply (in_map (fun a => Reporter.failLine (js "Missing asset: " ++ a))).
    exact M.
  - apply exit_after_failure.
    apply Steps_grows in St. destruct St as (_ & F & _).
    eapply N.lt_le_trans; [|exact F].
    unfold Validator.assetGroup. cbv zeta.
    destruct (Validator.missingAssets w html (parse html)) as [|x l];
      [destruct M|].
    pose proof (counters_forEach_fail (fun a => js "Missing asset: " ++ a)
                  (fun _ => None) (x :: l)
                  (Validator.header (js "4. Asset Files") r3)) as C.
    apply counters_inv in C as (_ & C & _). rewrite C.
    unfold Validator.count. simpl List.length. lia.
Qed.

Lemma missing_asset_witness :
  In (Reporter.failLine (js "Missing asset: img/missing.png"))
    (Reporter.console
       (Validator.reportOf
          (Validator.run (fun _ => Samples.repeatedAssetDoc) Samples.idSelector
             Healthy.message (Samples.siteFiles None))))
  /\ Validator.exitOf
       (Validator.run (fun _ => Samples.repeatedAssetDoc) Samples.idSelector
          Healthy.message (Samples.siteFiles None)) = 1%Z.
Proof.
  apply (missing_asset_fails_the_run (fun _ => Samples.repeatedAssetDoc)
           Samples.idSelector Healthy.message (Samples.siteFiles None)
           (js "<html><head><meta name='viewport'></head><body></body></html>")
           (js "img/missing.png")).
  - reflexivity.
  - vm_compute. left. reflexivity.
  - reflexivity.
Defined.

(* ================================================================== *)
(** * The name an image is reported under *)
(* ================================================================== *)

Section FileName.
Import Dom Validator Links Regex.

Lemma afterLastSlash_None s : afterLastSlash s = None -> ~ In 47 s.
Proof.
  induction s as [|y s IH]; [intros _ []|].
  cbn [afterLastSlash]. destruct (afterLastSlash s); [discriminate|].
  destruct (47 =? y) eqn:Y; [discriminate|].
  apply N.eqb_neq in Y. intros _ [H|H]; [congruence|].
  apply IH; [reflexivity|exact H].
Qed.

Lemma afterLastSlash_Some s r :
  afterLastSlash s = Some r ->
  (exists d, s = d ++ 47 :: r) /\ ~ In 47 r.
Proof.
  revert r. induction s as [|c s IH]; intros r H; cbn [afterLastSlash] in H;
    [discriminate|].
  destruct (afterLastSlash s) as [x|] eqn:E.
  - injection H as <-. destruct (IH x eq_refl) as ([d ->] & N).
    split; [exists (c :: d); reflexivity | exact N].
  - destruct (47 =? c) eqn:C; [|discriminate]. injection H as <-.
    apply N.eqb_eq in C. subst c. split; [exists []; reflexivity|].
    apply afterLastSlash_None, E.
Qed.

Lemma dot_oneLine c s :
  oneLine (c :: s) = true ->
  negb ((c =? 10) || (c =? 13) || (c =? 8232) || (c =? 8233)) = true
  /\ oneLine s = true.
Proof.
  unfold oneLine, isLineTerminator. simpl. apply andb_true_iff.
Qed.

(** The greedy [.*] gives back characters until a [/] follows: the match
    ends behind the last [/]. *)
Lemma star_dirPart s : forall fuel,
  oneLine s = true -> (List.length s <= fuel)%nat ->
  starLoop (m dot) true
    (fun s' cap' => m (Char 47) s' cap' (fun rest cap => Some (rest, cap)))
    fuel s None
  = match afterLastSlash s with Some r => Some (r, None) | None => None end.
Proof.
  induction s as [|c s IH]; intros fuel L F.
  - destruct fuel; reflexivity.
  - destruct fuel as [|fuel]; [simpl in F; lia|].
    apply dot_oneLine in L as [D L].
    cbn [starLoop]. cbn [m dot]. rewrite D.
    assert (Lt : (List.length s <? List.length (c :: s))%nat = true).
    { apply Nat.ltb_lt. simpl. lia. }
    rewrite Lt, IH by (simpl in F; auto; lia).
    cbn [afterLastSlash].
    destruct (afterLastSlash s); [reflexivity|].
    cbn [m Char]. destruct (47 =? c); reflexivity.
Qed.

Lemma m_dirPart s :
  oneLine s = true ->
  m dirPartRe s None (fun rest cap => Some (rest, cap))
  = match afterLastSlash s with Some r => Some (r, None) | None => None end.
Proof.
  intros L. unfold dirPartRe. cbn [m].
  apply star_dirPart; [exact L|lia].
Qed.

Lemma afterLastSlash_tail c s :
  afterLastSlash (c :: s) = None -> afterLastSlash s = None.
Proof. cbn [afterLastSlash]. destruct (afterLastSlash s); [discriminate|reflexivity]. Qed.

Lemma search_dirPart_none s : forall pre,
  oneLine s = true -> afterLastSlash s = None ->
  searchFrom dirPartRe pre s = None.
Proof.
  induction s as [|c s IH]; intros pre L A.
  - reflexivity.
  - rewrite searchFrom_eq, (m_dirPart _ L), A.
    apply IH; [apply (dot_oneLine c s L)|apply (afterLastSlash_tail c), A].
Qed.

Lemma replace_dirPart s :
  oneLine s = true ->
  replace dirPartRe [] s
  = match afterLastSlash s with Some r => r | None => s end.
Proof.
  intros L. unfold replace, exec. destruct (afterLastSlash s) as [r|] eqn:A.
  - rewrite searchFrom_eq, (m_dirPart _ L), A. reflexivity.
  - rewrite search_dirPart_none by assumption. reflexivity.
Qed.

End FileName.

(** X9. The name an image is reported under, [src.replace(/.*\//, '')], is
    the file name of the source: for a source without a line terminator it
    is what follows the last [/], and the whole source when there is none.
    So the name holds no [/], and the source is a directory part, empty or
    ending in [/], followed by the name. *)
Theorem image_name_is_the_file_name e :
  Links.oneLine (JS.orEmpty (Dom.attr (js "src") e)) = true ->
  ~ In 47 (Validator.fileName e)
  /\ exists dir,
       JS.orEmpty (Dom.attr (js "src") e) = dir ++ Validator.fileName e
       /\ (dir = [] \/ exists d, dir = d ++ js "/").
Proof.
  intros L. unfold Validator.fileName. rewrite (replace_dirPart _ L).
  destruct (Links.afterLastSlash _) as [r|] eqn:A.
  - apply afterLastSlash_Some in A as ([d E] & N).
    split; [exact N|]. exists (d ++ js "/"). split.
    + rewrite E, <- app_assoc. reflexivity.
    + right. exists d. reflexivity.
  - split; [apply afterLastSlash_None, A|].
    exists []. split; [reflexivity|left; reflexivity].
Qed.

Lemma image_name_witness :
  ~ In 47 (Validator.fileName
             (Dom.mkElement [] (js "img") [(js "src", js "img/banks/logo.svg")] []))
  /\ exists dir,
       js "img/banks/logo.svg"
       = dir ++ Validator.fileName
                  (Dom.mkElement [] (js "img")
                     [(js "src", js "img/banks/logo.svg")] [])
       /\ (dir = [] \/ exists d, dir = d ++ js "/").
Proof.
  apply (image_name_is_the_file_name
           (Dom.mkElement [] (js "img") [(js "src", js "img/banks/logo.svg")] [])).
  reflexivity.
Defined.

(* ================================================================== *)
(** * The address inside a CSS [url(...)] *)
(* ================================================================== *)

Section CssFacts.
Import Regex Validator Links.

Lemma Matches_Seq a b s s2 :
  Matches (Seq a b) s s2 -> exists s1, Matches a s s1 /\ Matches b s1 s2.
Proof. intros H. inversion H; subst. eauto. Qed.

Lemma Matches_Chr p s s' :
  Matches (Chr p) s s' -> exists c, s = c :: s' /\ p c = true.
Proof. intros H. inversion H; subst. eauto. Qed.

Lemma Matches_Lit l : forall s s', Matches (Lit l) s s' -> s = l ++ s'.
Proof.
  induction l as [|c l IH]; intros s s' H; simpl in H.
  - inversion H; subst. reflexivity.
  - apply Matches_Seq in H as (s1 & H1 & H2).
    apply Matches_Chr in H1 as (x & -> & E). apply N.eqb_eq in E. subst x.
    rewrite (IH _ _ H2). reflexivity.
Qed.

Lemma Matches_Opt_Chr p s s' :
  Matches (Opt (Chr p)) s s' ->
  s = s' \/ exists c, s = c :: s' /\ p c = true.
Proof.
  intros H. inversion H; subst.
  - right. apply Matches_Chr. assumption.
  - left.
    match goal with
    | X : Matches Eps _ _ |- _ => inversion X; subst; reflexivity
    end.
Qed.

Lemma Matches_Star_Chr r s s' :
  Matches r s s' ->
  forall g p, r = Star g (Chr p) ->
  exists cs, s = cs ++ s' /\ forallb p cs = true.
Proof.
  induction 1 as [s|p c s Hp|a b s s1 s2 _ _ _ _|a b s s1 _ _|a b s s1 _ _
                 |g a s|g a s s1 s2 H1 _ L _ IH2|a s s1 _ _|];
    intros g' p' E; try discriminate.
  - exists []. split; reflexivity.
  - injection E as -> ->.
    apply Matches_Chr in H1 as (c & -> & Hc).
    destruct (IH2 g' p' eq_refl) as (cs & -> & F).
    exists (c :: cs). split; [reflexivity|]. simpl. rewrite Hc. exact F.
Qed.

Lemma quote_char c :
  (c =? 39) || (c =? 34) = true -> [c] = [39] \/ [c] = [34].
Proof.
  intros H. apply orb_true_iff in H as [H|H]; apply N.eqb_eq in H; subst;
    auto.
Qed.

(** What the pattern of the asset group matches. *)
Lemma urlRe_shape t rest :
  Matches urlRe t rest ->
  exists q1 body q2,
    t = js "url(" ++ q1 ++ body ++ q2 ++ js ")" ++ rest
    /\ optionalQuote q1 /\ optionalQuote q2
    /\ body <> [] /\ forallb addressChar body = true.
Proof.
  unfold urlRe. intros H.
  apply Matches_Seq in H as (s1 & H1 & H).
  apply Matches_Lit in H1. subst t.
  apply Matches_Seq in H as (s2 & H2 & H).
  apply Matches_Seq in H as (s3 & H3 & H).
  apply Matches_Seq in H as (s4 & H4 & H5).
  apply Matches_Chr in H5 as (c5 & -> & E5). apply N.eqb_eq in E5. subst c5.
  inversion H3 as [| | | | | | |a x y G|]; subst. unfold Plus in G.
  apply Matches_Seq in G as (s5 & G1 & G2).
  apply Matches_Chr in G1 as (b & -> & Hb).
  destruct (Matches_Star_Chr _ _ _ G2 _ _ eq_refl) as (bs & -> & Hbs).
  assert (Q1 : exists q1, s1 = q1 ++ b :: bs ++ s3 /\ optionalQuote q1).
  { apply Matches_Opt_Chr in H2 as [->|(c & -> & Hc)].
    - exists []. split; [reflexivity|left; reflexivity].
    - exists [c]. split; [reflexivity|]. right. apply quote_char, Hc. }
  assert (Q2 : exists q2, s3 = q2 ++ 41 :: rest /\ optionalQuote q2).
  { apply Matches_Opt_Chr in H4 as [->|(c & -> & Hc)].
    - exists []. split; [reflexivity|left; reflexivity].
    - exists [c]. split; [reflexivity|]. right. apply quote_char, Hc. }
  destruct Q1 as (q1 & -> & O1). destruct Q2 as (q2 & -> & O2).
  exists q1, (b :: bs), q2. split; [|split; [exact O1|split; [exact O2|]]].
  - reflexivity.
  - split; [discriminate|]. simpl. unfold addressChar at 1.
    rewrite Hb. exact Hbs.
Qed.

(** Every match of [matchAll] is the match of a search in a part of the
    text. *)
Lemma In_matchAllFrom r mt : forall fuel s,
  In mt (matchAllFrom fuel r s) ->
  exists s' f, exec r s' = Some f /\ matched f = mt.
Proof.
  induction fuel as [|fuel IH]; intros s H; [destruct H|].
  cbn [matchAllFrom] in H. destruct (exec r s) as [f|] eqn:E; [|destruct H].
  destruct H as [H|H]; [exists s, f; auto|].
  destruct (matched f) as [|x m0]; destruct (after f) as [|y a0];
    try (destruct H; fail); eapply IH; eassumption.
Qed.

Lemma addressChar_head b :
  addressChar b = true ->
  (b =? 39) || (b =? 34) = false /\ (41 =? b) = false.
Proof.
  unfold addressChar. rewrite negb_true_iff. intros H.
  apply orb_false_iff in H as [H _]. apply orb_false_iff in H as [H H41].
  split; [exact H|]. rewrite N.eqb_sym. exact H41.
Qed.

(** The first [replace] takes [url(] and the quote behind it away. *)
Lemma replace_urlOpen q1 b bs tail :
  optionalQuote q1 -> addressChar b = true ->
  replace urlOpenRe [] (js "url(" ++ q1 ++ b :: bs ++ tail) = b :: bs ++ tail.
Proof.
  intros O Hb. apply addressChar_head in Hb as [Hq _].
  unfold replace, exec. rewrite searchFrom_eq.
  destruct O as [-> | [-> | ->]]; cbn; rewrite ?Hq; reflexivity.
Qed.

(** The second [replace] finds nothing before the end of the address. *)
Lemma search_urlClose q2 body : forall pre,
  optionalQuote q2 -> forallb addressChar body = true ->
  searchFrom urlCloseRe pre (body ++ q2 ++ [41])
  = Some (mkFound (rev pre ++ body) (q2 ++ [41]) None []).
Proof.
  induction body as [|b body IH]; intros pre O F.
  - rewrite app_nil_r. destruct O as [-> | [-> | ->]]; reflexivity.
  - cbn [forallb] in F. apply andb_true_iff in F as [Hb F].
    apply addressChar_head in Hb as [Hq H41].
    rewrite searchFrom_eq.
    assert (M : m urlCloseRe ((b :: body) ++ q2 ++ [41]) None
                  (fun rest cap => Some (rest, cap)) = None).
    { unfold urlCloseRe, Opt, quote, Char. cbn [m app]. rewrite Hq, H41.
      reflexivity. }
    rewrite M. cbn [app]. rewrite (IH (b :: pre) O F).
    cbn [rev]. rewrite <- app_assoc. reflexivity.
Qed.

Lemma replace_urlClose q2 body :
  optionalQuote q2 -> forallb addressChar body = true ->
  replace urlCloseRe [] (body ++ q2 ++ [41]) = body.
Proof.
  intros O F. unfold replace, exec. rewrite (search_urlClose q2 body [] O F).
  cbn. rewrite !app_nil_r. reflexivity.
Qed.

End CssFacts.

(** X10. The address of a CSS [url(...)]. Every match that the asset group
    takes from the text of the page has the form [url(], an optional quote,
    a non-empty address without quote, closing parenthesis or white space,
    an optional quote, and [)]; the two [replace] calls of the script leave
    exactly the address, the text the group of the pattern captures. The
    two quotes need not be the same. *)
Theorem css_address_is_extracted html mt :
  In mt (Regex.matchAll Validator.urlRe html) ->
  exists q1 body q2,
    mt = js "url(" ++ q1 ++ body ++ q2 ++ js ")"
    /\ Links.optionalQuote q1 /\ Links.optionalQuote q2
    /\ body <> [] /\ forallb Links.addressChar body = true
    /\ Regex.replace Validator.urlCloseRe []
         (Regex.replace Validator.urlOpenRe [] mt) = body.
Proof.
  intros H. unfold Regex.matchAll in H.
  apply In_matchAllFrom in H as (s' & f & E & <-).
  unfold Regex.exec in E.
  apply searchFrom_sound in E as (p & t & _ & M & _ & T).
  apply urlRe_shape in M as (q1 & body & q2 & Et & O1 & O2 & Ne & F).
  assert (Em : Regex.matched f = js "url(" ++ q1 ++ body ++ q2 ++ js ")").
  { apply (app_inv_tail (Regex.after f)). rewrite T, Et.
    rewrite <- !app_assoc. reflexivity. }
  exists q1, body, q2. rewrite Em.
  split; [reflexivity|]. split; [exact O1|]. split; [exact O2|].
  split; [exact Ne|]. split; [exact F|].
  destruct body as [|b bs]; [congruence|].
  cbn [forallb] in F. apply andb_true_iff in F as [Hb Fbs].
  change ((b :: bs) ++ q2 ++ js ")") with (b :: bs ++ q2 ++ js ")").
  rewrite (replace_urlOpen q1 b bs (q2 ++ js ")") O1 Hb).
  apply (replace_urlClose q2 (b :: bs) O2).
  cbn [forallb]. rewrite Hb. exact Fbs.
Qed.

Lemma css_address_witness :
  exists q1 body q2,
    js "url(img/missing.png)" = js "url(" ++ q1 ++ body ++ q2 ++ js ")"
    /\ Links.optionalQuote q1 /\ Links.optionalQuote q2
    /\ body <> [] /\ forallb Links.addressChar body = true
    /\ Regex.replace Validator.urlCloseRe []
         (Regex.replace Validator.urlOpenRe [] (js "url(img/missing.png)"))
       = body.
Proof.
  apply (css_address_is_extracted Samples.repeatedAssetHtml
           (js "url(img/missing.png)")).
  vm_compute. left. reflexivity.
Defined.

(* ================================================================== *)
(** * The groups that check a shape *)
(* ================================================================== *)

Section ShapeFacts.
Import Reporter Dom Validator Shapes.
Variable defaultMessage : Zod.rule -> option Zod.value -> JS.str.

(** The issues name the violated fields, in the order of the schema. *)
Lemma safeParse_paths (s : Zod.schema) obj :
  map Zod.path (Zod.safeParse defaultMessage s obj)
  = map Zod.key (filter (fun f => Zod.violates f obj) s).
Proof.
  induction s as [|f s IH]; [reflexivity|].
  cbn [Zod.safeParse filter]. unfold Zod.violates at 1.
  destruct (Zod.get (Zod.key f) obj) as [v|].
  - destruct (Zod.conforms (Zod.shape f) v); cbn [negb map]; rewrite IH;
      reflexivity.
  - cbn [map]. rewrite IH. reflexivity.
Qed.

Lemma counters_reportIssues ok prefix detail issues r :
  counters (reportIssues ok prefix detail issues r)
  = (passed r + (match issues with [] => 1 | _ => 0 end),
     failed r + count issues, warnings r).
Proof.
  unfold reportIssues. destruct issues as [|i l].
  - rewrite counters_pass. unfold count. simpl List.length.
    f_equal. f_equal. lia.
  - rewrite (counters_forEach_fail (fun i => prefix ++ Zod.path i)
               (fun i => Some (detail i)) (i :: l) r).
    f_equal. f_equal. lia.
Qed.

Lemma console_fail_grows l d r :
  exists extra, console (fail l d r) = console r ++ failLine l :: extra.
Proof.
  unfold fail, logDetail, log. destruct d as [d|]; cbn [console].
  - destruct (JS.truthy d); cbn [console].
    + exists [detailLine d]. rewrite <- app_assoc. reflexivity.
    + exists []. reflexivity.
  - exists []. reflexivity.
Qed.

(** Every element of a loop of failures has its line. *)
Lemma In_console_forEach_fail {A} (lbl : A -> JS.str)
  (det : A -> option JS.str) l : forall r x,
  In x l ->
  In (failLine (lbl x)) (console (forEach (fun x => fail (lbl x) (det x)) l r)).
Proof.
  assert (Keep : forall l r line,
            In line (console r) ->
            In line (console (forEach (fun x => fail (lbl x) (det x)) l r))).
  { unfold forEach. induction l0 as [|y l0 IH]; intros r line H; [exact H|].
    simpl. apply IH.
    destruct (console_fail_grows (lbl y) (det y) r) as [extra ->].
    apply in_or_app. left. exact H. }
  induction l as [|y l IH]; intros r x H; [destruct H|].
  destruct H as [->|H].
  - unfold forEach. simpl. apply (Keep l).
    destruct (console_fail_grows (lbl x) (det x) r) as [extra ->].
    apply in_or_app. right. left. reflexivity.
  - unfold forEach. simpl. apply IH. exact H.
Qed.

Lemma section_paths doc :
  map Zod.path (Zod.safeParse defaultMessage Zod.SectionSchema (sections doc))
  = map fst (filter (absent doc) landmarks).
Proof.
  rewrite safeParse_paths. unfold sections, landmarks, absent.
  cbn [filter snd fst].
  generalize (nonEmpty (select doc [[Id (js "hero")]])).
  generalize (nonEmpty (select doc [[Id (js "sobre")]])).
  generalize (nonEmpty (select doc [[Id (js "como-funciona")]])).
  generalize (nonEmpty (select doc [[Id (js "faq")]])).
  generalize (nonEmpty (select doc [[Id (js "posicionamento")]])).
  generalize (nonEmpty (select doc [[Id (js "bottom-cta")]])).
  generalize (nonEmpty (select doc [[Tag (js "footer")]])).
  intros [] [] [] [] [] [] []; reflexivity.
Qed.

End ShapeFacts.

(** X11. The section group names exactly the landmarks that are absent.
    Of the seven landmarks ([#hero], [#sobre], [#como-funciona], [#faq],
    [#posicionamento], [#bottom-cta] and [footer]) the group reports those
    that select nothing, in this order, one failure [Missing section: key]
    each; it counts a single pass when none is absent, and never a pass
    beside a failure. *)
Theorem section_group_names_absent_landmarks defaultMessage doc r :
  map Zod.path
    (Zod.safeParse defaultMessage Zod.SectionSchema (Validator.sections doc))
  = map fst (filter (Shapes.absent doc) Shapes.landmarks)
  /\ Reporter.counters (Validator.sectionGroup defaultMessage doc r)
     = (Reporter.passed r
        + (match filter (Shapes.absent doc) Shapes.landmarks with
           | [] => 1
           | _ => 0
           end),
        Reporter.failed r
        + Validator.count (filter (Shapes.absent doc) Shapes.landmarks),
        Reporter.warnings r)
  /\ (forall k,
        In k (map fst (filter (Shapes.absent doc) Shapes.landmarks)) ->
        In (Reporter.failLine (js "Missing section: " ++ k))
          (Reporter.console (Validator.sectionGroup defaultMessage doc r))).
Proof.
  pose proof (section_paths defaultMessage doc) as P.
  split; [exact P|]. split.
  - unfold Validator.sectionGroup. cbv zeta.
    rewrite counters_reportIssues.
    assert (L : Validator.count
                  (Zod.safeParse defaultMessage Zod.SectionSchema
                     (Validator.sections doc))
                = Validator.count (filter (Shapes.absent doc) Shapes.landmarks)).
    { unfold Validator.count. f_equal.
      rewrite <- (length_map Zod.path), P, length_map. reflexivity. }
    rewrite L. f_equal. f_equal. f_equal.
    destruct (Zod.safeParse defaultMessage Zod.SectionSchema
                (Validator.sections doc)) as [|i l];
      destruct (filter (Shapes.absent doc) Shapes.landmarks) as [|x l'];
      try reflexivity; discriminate P.
  - intros k H. rewrite <- P in H. apply in_map_iff in H as (i & <- & I).
    unfold Validator.sectionGroup, Validator.reportIssues. cbv zeta.
    destruct (Zod.safeParse defaultMessage Zod.SectionSchema
                (Validator.sections doc)) as [|i0 l]; [destruct I|].
    apply (In_console_forEach_fail
             (fun i => js "Missing section: " ++ Zod.path i)
             (fun i => Some (Zod.message i))).
    exact I.
Qed.

Section ContentFacts.
Import Reporter Dom Validator Shapes.
Variable defaultMessage : Zod.rule -> option Zod.value -> JS.str.

Lemma content_paths c :
  map Zod.path (Zod.safeParse defaultMessage Zod.ContentSchema (contentObject c))
  = map (fun x => fst (fst x)) (filter below (minimums c)).
Proof.
  rewrite safeParse_paths. destruct c as [n1 n2 n3 n4 n5 n6].
  cbv -[N.leb N.ltb]. rewrite !N.ltb_antisym.
  destruct (10 <=? n1), (10 <=? n2), (5 <=? n3), (3 <=? n4), (2 <=? n5),
    (10 <=? n6); reflexivity.
Qed.

End ContentFacts.

(** X12. The account of the content group. The shape check asks for at
    least 10 agent cards, 10 agent tabs, 5 FAQ items, 3 steps, 2 forms and
    10 bank logos; it names the counts below their minimum, in this order,
    whatever messages zod has. The group counts one pass for the shape when
    no count is below, one failure for each count that is, one failure for
    each incomplete agent card, and one more pass in every case. A card that
    carries the class [flex-wrap] itself, with a label, a title, a body and
    three [span] children, is not among the incomplete ones; a card with the
    same parts whose only [flex-wrap] element is above it is. *)
Theorem content_group_account defaultMessage doc r :
  map Zod.path
    (Zod.safeParse defaultMessage Zod.ContentSchema
       (Validator.contentObject (Validator.content doc)))
  = map (fun x => fst (fst x))
      (filter Shapes.below (Shapes.minimums (Validator.content doc)))
  /\ Reporter.counters (Validator.contentGroup defaultMessage doc r)
     = (Reporter.passed r
        + (match filter Shapes.below (Shapes.minimums (Validator.content doc)) with
           | [] => 1
           | _ => 0
           end) + 1,
        Reporter.failed r
        + Validator.count
            (filter Shapes.below (Shapes.minimums (Validator.content doc)))
        + Validator.count
            (filter Validator.cardIncomplete
               (Dom.select doc [[Dom.Class (js "sobre-card")]])),
        Reporter.warnings r)
  /\ filter Validator.cardIncomplete
       (Dom.select Cases.wrapCardDoc [[Dom.Class (js "sobre-card")]]) = []
  /\ Validator.count
       (filter Validator.cardIncomplete
          (Dom.select Cases.wrappedCardDoc [[Dom.Class (js "sobre-card")]]))
     = 1.
Proof.
  pose proof (content_paths defaultMessage (Validator.content doc)) as P.
  split; [exact P|].
  split; [|split; vm_compute; reflexivity].
  unfold Validator.contentGroup, Validator.agentCardsCheck. cbv zeta.
  rewrite counters_pass.
  match goal with
  | |- context [Validator.eachCard 0 ?cards ?r0] =>
      destruct (counters_inv _ _ _ _ (counters_eachCard cards 0 r0))
        as (-> & -> & ->)
  end.
  match goal with
  | |- context [Validator.reportIssues ?ok ?pre ?det ?iss ?r0] =>
      destruct (counters_inv _ _ _ _ (counters_reportIssues ok pre det iss r0))
        as (-> & -> & ->)
  end.
  assert (L : Validator.count
                (Zod.safeParse defaultMessage Zod.ContentSchema
                   (Validator.contentObject (Validator.content doc)))
              = Validator.count
                  (filter Shapes.below (Shapes.minimums (Validator.content doc)))).
  { unfold Validator.count. f_equal.
    rewrite <- (length_map Zod.path), P, length_map. reflexivity. }
  rewrite L. f_equal. f_equal. f_equal. f_equal.
  destruct (Zod.safeParse defaultMessage Zod.ContentSchema
              (Validator.contentObject (Validator.content doc))) as [|i l];
    destruct (filter Shapes.below (Shapes.minimums (Validator.content doc)))
      as [|x l'];
    try reflexivity; discriminate P.
Qed.

Section TranslationFacts.
Import Reporter Dom Validator Shapes.
Variable defaultMessage : Zod.rule -> option Zod.value -> JS.str.



End TranslationFacts.


(* ================================================================== *)
(** * The quality group *)
(* ================================================================== *)

Section QualityFacts.
Import Reporter Validator.

(** A word occurs in the lowered text exactly when the text has a part
    that lowers to the word. *)
Lemma includes_lowered s p :
  JS.includes (JS.toLowerCase s) p = true
  <-> exists x, JS.occursIn x s /\ JS.toLowerCase x = p.
Proof.
  rewrite includes_spec. unfold JS.occursIn, JS.toLowerCase. split.
  - intros (pre & post & E).
    apply map_eq_app in E as (s1 & s2 & -> & <- & E).
    apply map_eq_app in E as (x & s3 & -> & <- & <-).
    exists x. split; [exists s1, s3; reflexivity|reflexivity].
  - intros (x & (pre & post & ->) & <-).
    exists (map JS.lowerChar pre), (map JS.lowerChar post).
    rewrite !map_app. reflexivity.
Qed.

(** A finding of the quality group other than the old name is a warning or
    a pass. *)
Lemma warn_or_pass (c : bool) l1 d l2 r :
  failed (if c then warn l1 d r else pass l2 r) = failed r
  /\ passed (if c then warn l1 d r else pass l2 r)
     + warnings (if c then warn l1 d r else pass l2 r)
     = passed r + warnings r + 1.
Proof.
  destruct c.
  - destruct (counters_inv _ _ _ _ (counters_warn l1 d r)) as (-> & -> & ->).
    split; lia.
  - destruct (counters_inv _ _ _ _ (counters_pass l2 r)) as (-> & -> & ->).
    split; lia.
Qed.

End QualityFacts.

(** X14. The quality group. The old name of the product is looked for
    without regard to the case of ASCII letters: the check fails exactly
    when some part of the text of [index.html] lowers to [aleah]. It is the
    only finding of the group that counts as a failure; notes left in the
    page, em dashes, the placeholder number and the placeholder links each
    count as a warning or a pass, so none of them changes the exit code. *)
Theorem quality_group_fails_on_the_old_name_only html doc r :
  (JS.includes (JS.toLowerCase html) (js "aleah") = true
   <-> exists x, JS.occursIn x html /\ JS.toLowerCase x = js "aleah")
  /\ Reporter.failed (Validator.qualityGroup html doc r)
     = Reporter.failed r
       + (if JS.includes (JS.toLowerCase html) (js "aleah") then 1 else 0)
  /\ Reporter.passed (Validator.qualityGroup html doc r)
     + Reporter.warnings (Validator.qualityGroup html doc r)
     = Reporter.passed r + Reporter.warnings r
       + (if JS.includes (JS.toLowerCase html) (js "aleah") then 4 else 5).
Proof.
  split; [apply includes_lowered|].
  unfold Validator.qualityGroup. cbv zeta.
  set (r0 := Validator.header _ r).
  set (r1 := Reporter.check _ _ _ r0).
  match goal with
  | |- context [if Regex.test Validator.todoRe html then ?a else ?b] =>
      set (r2 := if Regex.test Validator.todoRe html then a else b)
  end.
  match goal with
  | |- context [if Regex.test Validator.emDashRe ?t then ?a else ?b] =>
      set (r3 := if Regex.test Validator.emDashRe t then a else b)
  end.
  match goal with
  | |- context [if JS.includes html ?n then ?a else ?b] =>
      set (r4 := if JS.includes html n then a else b)
  end.
  assert (H0 : Reporter.counters r0 = Reporter.counters r)
    by apply counters_log.
  apply counters_inv in H0 as (P0 & F0 & W0).
  assert (H1 : Reporter.failed r1
               = Reporter.failed r0
                 + (if JS.includes (JS.toLowerCase html) (js "aleah")
                    then 1 else 0)
               /\ Reporter.passed r1 + Reporter.warnings r1
                  = Reporter.passed r0 + Reporter.warnings r0
                    + (if JS.includes (JS.toLowerCase html) (js "aleah")
                       then 0 else 1)).
  { unfold r1, Reporter.check.
    destruct (JS.includes (JS.toLowerCase html) (js "aleah")); cbn [negb].
    - match goal with
      | |- context [Reporter.fail ?l ?d r0] =>
          destruct (counters_inv _ _ _ _ (counters_fail l d r0))
            as (-> & -> & ->)
      end.
      split; lia.
    - match goal with
      | |- context [Reporter.pass ?l r0] =>
          destruct (counters_inv _ _ _ _ (counters_pass l r0))
            as (-> & -> & ->)
      end.
      split; lia. }
  destruct H1 as (F1 & P1).
  destruct (warn_or_pass (Regex.test Validator.todoRe html)
              (js "Found TODO/FIXME/HACK comments in HTML") None
              (js "No TODO/FIXME/HACK comments") r1) as (F2 & P2).
  fold r2 in F2, P2.
  match goal with
  | r3 := (if ?c then Reporter.warn ?l1 ?d r2 else Reporter.pass ?l2 r2) |- _ =>
      destruct (warn_or_pass c l1 d l2 r2) as (F3 & P3)
  end.
  fold r3 in F3, P3.
  match goal with
  | r4 := (if ?c then Reporter.warn ?l1 ?d r3 else Reporter.pass ?l2 r3) |- _ =>
      destruct (warn_or_pass c l1 d l2 r3) as (F4 & P4)
  end.
  fold r4 in F4, P4.
  match goal with
  | |- context [if ?c then Reporter.warn ?l1 ?d r4 else Reporter.pass ?l2 r4] =>
      destruct (warn_or_pass c l1 d l2 r4) as (F5 & P5)
  end.
  destruct (JS.includes (JS.toLowerCase html) (js "aleah")); split; lia.
Qed.

(* ================================================================== *)
(** * The browsing contexts of a run of the prober *)
(* ================================================================== *)

Section ContextFacts.
Import Reporter Prober Contexts.
Local Open Scope prober_scope.
Variable b : browser.

Lemma Still_ret {A} (a : A) : Still (ret a).
Proof. intros s. reflexivity. Qed.

Lemma Still_await {A} (o : outcome A) : Still (await o).
Proof. intros s. reflexivity. Qed.

Lemma Still_report f : Still (report f).
Proof. intros s. reflexivity. Qed.

Lemma Still_bind {A B} (c : P A) (f : A -> P B) :
  Still c -> (forall a, Still (f a)) -> Still (bind c f).
Proof.
  intros Hc Hf s. unfold bind. specialize (Hc s).
  destruct (c s) as [[a|e] s']; simpl in *; [|exact Hc].
  rewrite Hf. exact Hc.
Qed.

Lemma Still_tryCatch {A} (c : P A) (h : JS.str -> P A) :
  Still c -> (forall e, Still (h e)) -> Still (tryCatch c h).
Proof.
  intros Hc Hh s. unfold tryCatch. specialize (Hc s).
  destruct (c s) as [[a|e] s']; simpl in *; [exact Hc|].
  rewrite Hh. exact Hc.
Qed.

Lemma Inside_close n : Inside n (closeContext n).
Proof.
  intros s rest H. simpl. rewrite H. apply removeFirst_head.
Qed.

Lemma Inside_bind {A B} n (c : P A) (f : A -> P B) :
  Still c -> (forall a, Inside n (f a)) -> Inside n (bind c f).
Proof.
  intros Hc Hf s rest H. unfold bind. specialize (Hc s).
  destruct (c s) as [[a|e] s']; simpl in *.
  - apply Hf. rewrite Hc. exact H.
  - rewrite Hc. exact H.
Qed.

Lemma Balanced_open {A} n (c : P A) :
  Inside n c -> Balanced (bind (newContext n) (fun _ => c)).
Proof.
  intros Hc s. unfold bind, newContext.
  specialize (Hc (mkState (rep s) (n :: contexts s)) (contexts s) eq_refl).
  destruct (c _) as [[a|e] s']; simpl in *; [exact Hc|].
  right. exists n. exact Hc.
Qed.

Lemma Balanced_still {A} (c : P A) : Still c -> Balanced c.
Proof.
  intros Hc s. specialize (Hc s). destruct (fst (c s)); auto.
Qed.

Lemma Balanced_bind {A B} (c : P A) (f : A -> P B) :
  Balanced c -> (forall a, Balanced (f a)) -> Balanced (bind c f).
Proof.
  intros Hc Hf s. unfold bind. specialize (Hc s).
  destruct (c s) as [[a|e] s']; simpl in *; [|exact Hc].
  specialize (Hf a s'). rewrite Hc in Hf. exact Hf.
Qed.

Lemma Balanced_forOf {A} (xs : list A) (f : A -> P unit) :
  (forall x, Balanced (f x)) -> Balanced (forOf xs f).
Proof.
  intros Hf. induction xs as [|x xs IH]; simpl.
  - apply Balanced_still, Still_ret.
  - apply Balanced_bind; [apply Hf | intros _; exact IH].
Qed.

End ContextFacts.

(** Proves that a computation without [newContext] and [closeContext] is
    [Still]. *)
Ltac still :=
  repeat match goal with
         | |- Contexts.Still (Prober.bind _ _) => apply Still_bind; [|intros ?]
         | |- Contexts.Still (Prober.tryCatch _ _) =>
             apply Still_tryCatch; [|intros ?]
         | |- Contexts.Still (Prober.await _) => apply Still_await
         | |- Contexts.Still (Prober.ret _) => apply Still_ret
         | |- Contexts.Still (Prober.report _) => apply Still_report
         | |- Contexts.Still (Prober.passOrFail _ _ _ _) => apply Still_report
         | |- Contexts.Still (Prober.passOrFailEach _ _ _ _) =>
             apply Still_report
         | |- Contexts.Still (Prober.header _) => apply Still_report
         end.

(** Follows a group from [newContext] to its [closeContext]. *)
Ltac inside :=
  repeat match goal with
         | |- Contexts.Inside _ (Prober.closeContext _) => apply Inside_close
         | |- Contexts.Inside _ (Prober.bind _ _) =>
             apply Inside_bind; [still|intros ?]
         end.

Ltac balanced :=
  repeat match goal with
         | |- Contexts.Balanced (Prober.bind (Prober.newContext _) _) =>
             apply Balanced_open; inside
         | |- Contexts.Balanced (Prober.bind _ _) =>
             apply Balanced_bind; [|intros ?]
         | |- Contexts.Balanced (Prober.forOf _ _) =>
             apply Balanced_forOf; intros ?
         | |- Contexts.Balanced (Prober.header _) =>
             apply Balanced_still, Still_report
         | |- Contexts.Balanced (Prober.report _) =>
             apply Balanced_still, Still_report
         | |- Contexts.Balanced (Prober.await _) =>
             apply Balanced_still, Still_await
         end.

Section ContextsOfRun.
Import Reporter Prober Contexts.
Local Open Scope prober_scope.
Variable b : browser.

Lemma Balanced_body : Balanced (body b).
Proof.
  unfold body, groups, loadGroup, layoutGroup, imageGroup, langGroup,
    animGroup, interGroup, perfGroup.
  cbv zeta. balanced.
  - unfold loadCheck, loadProbe. balanced.
  - unfold layoutCheck. balanced.
Qed.

End ContextsOfRun.

(** X15. The browsing contexts of a run. A run of the prober that reaches
    its summary has closed every browsing context it opened; a run that
    ends in the top-level handler has at most one context still open (none
    when the launch of the browser is what failed). No group has a
    [finally], so the context of the group that threw is the one left. *)
Theorem prober_contexts_are_closed b :
  match Prober.run b with
  | Prober.Exited _ s => Prober.contexts s = []
  | Prober.Fatal _ s =>
      Prober.contexts s = [] \/ exists n, Prober.contexts s = [n]
  end.
Proof.
  unfold Prober.run, Prober.runFrom.
  pose proof (Balanced_body b Prober.start) as H.
  destruct (Prober.body b Prober.start) as [[u|e] s']; simpl in H.
  - destruct (Prober.summary (Prober.rep s')) as [code r]. exact H.
  - exact H.
Qed.

(* ================================================================== *)
(** * The page-load group and the performance group *)
(* ================================================================== *)

Section LoadFacts.
Import Reporter Prober Contexts.
Local Open Scope prober_scope.
Variable b : browser.

Lemma passOrFail_counts c ok ko d s :
  exists r',
    passOrFail c ok ko d s = (Returned tt, mkState r' (contexts s))
    /\ counters r'
       = (passed (rep s) + (if c then 1 else 0),
          failed (rep s) + (if c then 0 else 1), warnings (rep s)).
Proof.
  unfold passOrFail, report. eexists. split; [reflexivity|].
  destruct c; [rewrite counters_pass|rewrite counters_fail];
    f_equal; f_equal; lia.
Qed.

Lemma passOrFailEach_counts l ok ko d s :
  exists r',
    passOrFailEach l ok ko d s = (Returned tt, mkState r' (contexts s))
    /\ counters r'
       = (passed (rep s) + (match l with [] => 1 | _ => 0 end),
          failed (rep s) + Validator.count l, warnings (rep s)).
Proof.
  unfold passOrFailEach, report. eexists. split; [reflexivity|].
  destruct l as [|x l].
  - rewrite counters_pass. unfold Validator.count. simpl List.length.
    f_equal. f_equal. lia.
  - rewrite (counters_forEach_fail ko d (x :: l) (rep s)).
    f_equal. f_equal. lia.
Qed.

Lemma is200 (status : option Z) :
  (match status with Some 200%Z => 1 | _ => 0 end
   = if match status with Some 200%Z => true | _ => false end then 1 else 0)
  /\ (match status with Some 200%Z => 0 | _ => 1 end
      = if match status with Some 200%Z => true | _ => false end then 0 else 1).
Proof.
  destruct status as [[|p|p]|]; try (split; reflexivity).
  do 8 (destruct p as [p|p|]; try (split; reflexivity)).
Qed.

(** One route: the loop body returns, with the context closed, and adds
    the passes and the failures of the route. *)
Lemma loadCheck_counts pg s :
  exists r',
    loadCheck b pg s = (Returned tt, mkState r' (contexts s))
    /\ counters r'
       = (passed (rep s) + routePasses b pg,
          failed (rep s) + routeFailures b pg, warnings (rep s)).
Proof.
  unfold loadCheck, loadProbe, tryCatch, bind, newContext, closeContext,
    await, routePasses, routeFailures.
  destruct (loadGoto b (BASE_URL b ++ rpath pg)) as [status|e].
  - match goal with
    | |- context [passOrFail ?c ?ok ?ko ?d ?s0] =>
        destruct (passOrFail_counts c ok ko d s0) as (r1 & -> & C1)
    end.
    match goal with
    | |- context [passOrFailEach ?l ?ok ?ko ?d ?s0] =>
        destruct (passOrFailEach_counts l ok ko d s0) as (r2 & -> & C2)
    end.
    cbn [fst snd rep contexts] in *. rewrite removeFirst_head.
    exists r2. split; [reflexivity|]. rewrite C2.
    apply counters_inv in C1 as (-> & -> & ->).
    destruct (is200 status) as [-> ->].
    apply f_equal2; [apply f_equal2|]; lia.
  - unfold report. cbn [fst snd rep contexts]. rewrite removeFirst_head.
    eexists. split; [reflexivity|].
    rewrite counters_fail. f_equal. f_equal. lia.
Qed.

Lemma forOf_load_counts routes : forall s,
  exists r',
    forOf routes (loadCheck b) s = (Returned tt, mkState r' (contexts s))
    /\ counters r'
       = (passed (rep s) + fold_right N.add 0 (map (routePasses b) routes),
          failed (rep s) + fold_right N.add 0 (map (routeFailures b) routes),
          warnings (rep s)).
Proof.
  induction routes as [|pg routes IH]; intros s.
  - exists (rep s). split; [destruct s; reflexivity|].
    unfold counters. simpl. rewrite !N.add_0_r. reflexivity.
  - cbn [forOf map fold_right]. unfold bind.
    destruct (loadCheck_counts pg s) as (r1 & -> & C1).
    destruct (IH (mkState r1 (contexts s))) as (r2 & E2 & C2).
    cbn [rep contexts] in *. exists r2. split; [exact E2|]. rewrite C2.
    apply counters_inv in C1 as (-> & -> & ->).
    apply f_equal2; [apply f_equal2|]; lia.
Qed.

End LoadFacts.

Section SessionFacts.
Import Reporter Prober Contexts.
Local Open Scope prober_scope.
Variable b : browser.
Variable o : Session.setup.

(** The [try] of one route returns, inside the context, with the passes
    and the failures of the route. *)
Lemma loadTry_counts pg s :
  exists r',
    tryCatch (loadProbe b pg)
      (fun message => report (fail (rname pg ++ js " load") (Some message))) s
    = (Returned tt, mkState r' (contexts s))
    /\ counters r'
       = (passed (rep s) + routePasses b pg,
          failed (rep s) + routeFailures b pg, warnings (rep s)).
Proof.
  unfold loadProbe, tryCatch, bind, await, routePasses, routeFailures.
  destruct (loadGoto b (BASE_URL b ++ rpath pg)) as [status|e].
  - match goal with
    | |- context [passOrFail ?c ?ok ?ko ?d ?s0] =>
        destruct (passOrFail_counts c ok ko d s0) as (r1 & -> & C1)
    end.
    match goal with
    | |- context [passOrFailEach ?l ?ok ?ko ?d ?s0] =>
        destruct (passOrFailEach_counts l ok ko d s0) as (r2 & -> & C2)
    end.
    cbn [fst snd rep contexts] in *.
    exists r2. split; [reflexivity|]. rewrite C2.
    apply counters_inv in C1 as (-> & -> & ->).
    destruct (is200 status) as [-> ->].
    apply f_equal2; [apply f_equal2|]; lia.
  - unfold report. cbn [fst snd rep contexts].
    eexists. split; [reflexivity|].
    rewrite counters_fail. f_equal. f_equal. lia.
Qed.

(** A route whose three awaits return is probed as in [Prober]. *)
Lemma loadCheck_quiet pg s :
  Session.trouble o (rname pg) = None ->
  Session.loadCheck b o pg s = loadCheck b pg s.
Proof.
  unfold Session.trouble, Session.loadCheck, Session.newContext,
    Session.newPage, Session.closeContext, loadCheck, bind, await.
  destruct (Session.opens o (rname pg)) as [[]|e]; [|discriminate].
  destruct (Session.pages o (rname pg)) as [[]|e]; [|discriminate].
  destruct (Session.closes o (rname pg)) as [[]|e]; [|discriminate].
  intros _. reflexivity.
Qed.

(** A route with an await that rejects: the loop body throws what the await
    threw. Nothing is counted when the context or its page cannot be had;
    the route is counted in full when only [close] rejects. The context is
    left open unless it was never opened. *)
Lemma loadCheck_trouble pg s st e :
  Session.trouble o (rname pg) = Some (st, e) ->
  exists r',
    Session.loadCheck b o pg s
    = (Thrown e,
       mkState r'
         (match st with
          | Session.Opening => contexts s
          | _ => rname pg :: contexts s
          end))
    /\ counters r'
       = (passed (rep s)
          + (match st with Session.Closing => routePasses b pg | _ => 0 end),
          failed (rep s)
          + (match st with Session.Closing => routeFailures b pg | _ => 0 end),
          warnings (rep s)).
Proof.
  unfold Session.trouble, Session.loadCheck, Session.newContext,
    Session.newPage, Session.closeContext, bind, await, newContext.
  destruct (Session.opens o (rname pg)) as [[]|e1].
  - destruct (Session.pages o (rname pg)) as [[]|e2].
    + destruct (Session.closes o (rname pg)) as [[]|e3]; [discriminate|].
      intros H. injection H as <- <-.
      match goal with
      | |- context [tryCatch ?c ?h ?s0] =>
          destruct (loadTry_counts pg s0) as (r1 & -> & C1)
      end.
      cbn [rep contexts] in *. exists r1. split; [reflexivity|exact C1].
    + intros H. injection H as <- <-.
      exists (rep s). split; [reflexivity|].
      unfold counters. rewrite !N.add_0_r. reflexivity.
  - intros H. injection H as <- <-.
    exists (rep s). split; [destruct s; reflexivity|].
    unfold counters. rewrite !N.add_0_r. reflexivity.
Qed.

Lemma forOf_quiet routes : forall s,
  (forall q, In q routes -> Session.trouble o (rname q) = None) ->
  forOf routes (Session.loadCheck b o) s = forOf routes (loadCheck b) s.
Proof.
  induction routes as [|pg routes IH]; intros s Q; [reflexivity|].
  cbn [forOf]. unfold bind.
  rewrite (loadCheck_quiet pg s (Q pg (or_introl eq_refl))).
  destruct (loadCheck b pg s) as [[[]|e] s1]; [|reflexivity].
  apply IH. intros q Hq. apply Q. right. exact Hq.
Qed.

(** The loop up to the first route with an await that rejects. *)
Lemma forOf_trouble before pg after st e : forall s,
  (forall q, In q before -> Session.trouble o (rname q) = None) ->
  Session.trouble o (rname pg) = Some (st, e) ->
  exists r',
    forOf (before ++ pg :: after) (Session.loadCheck b o) s
    = (Thrown e,
       mkState r'
         (match st with
          | Session.Opening => contexts s
          | _ => rname pg :: contexts s
          end))
    /\ counters r'
       = (passed (rep s)
          + fold_right N.add 0 (map (routePasses b) before)
          + (match st with Session.Closing => routePasses b pg | _ => 0 end),
          failed (rep s)
          + fold_right N.add 0 (map (routeFailures b) before)
          + (match st with Session.Closing => routeFailures b pg | _ => 0 end),
          warnings (rep s)).
Proof.
  induction before as [|q before IH]; intros s Q T.
  - cbn [app forOf map fold_right]. unfold bind.
    destruct (loadCheck_trouble pg s st e T) as (r1 & -> & C1).
    exists r1. split; [reflexivity|]. rewrite C1.
    apply f_equal2; [apply f_equal2|]; lia.
  - cbn [app forOf map fold_right]. unfold bind.
    rewrite (loadCheck_quiet q s (Q q (or_introl eq_refl))).
    destruct (loadCheck_counts b q s) as (r1 & -> & C1).
    destruct (IH (mkState r1 (contexts s))
                (fun x Hx => Q x (or_intror Hx)) T) as (r2 & E2 & C2).
    cbn [rep contexts] in *. exists r2. split; [exact E2|]. rewrite C2.
    apply counters_inv in C1 as (-> & -> & ->).
    apply f_equal2; [apply f_equal2|]; lia.
Qed.

(** Either no route is in trouble, or there is a first one. *)
Lemma first_trouble (routes : list route) :
  (forall q, In q routes -> Session.trouble o (rname q) = None)
  \/ exists before pg after st e,
       routes = before ++ pg :: after
       /\ (forall q, In q before -> Session.trouble o (rname q) = None)
       /\ Session.trouble o (rname pg) = Some (st, e).
Proof.
  induction routes as [|pg routes IH].
  - left. intros q [].
  - destruct (Session.trouble o (rname pg)) as [[st e]|] eqn:T.
    + right. exists [], pg, routes, st, e. repeat split; auto.
      intros q [].
    + destruct IH as [Q|(before & p & after & st & e & -> & Q & T')].
      * left. intros q [<-|Hq]; auto.
      * right. exists (pg :: before), p, after, st, e. repeat split; auto.
        intros q [<-|Hq]; auto.
Qed.

End SessionFacts.

(** X16. The account of the page-load group. The group returns exactly
    when, for each of the three routes, [browser.newContext],
    [context.newPage] and [context.close] return; it then leaves the browsing
    contexts as they were, and each route adds on its own: when its
    navigation throws, one failure and nothing else; otherwise a pass or a
    failure for the status (a pass for 200 only) and, for the errors of the
    page, a pass when there is none and one failure for each error. A route
    that answers 404 is still checked for errors, and the routes after it are
    still probed. When one of the three awaits rejects, the group throws
    what the first such await threw and no later route is probed: the routes
    before are counted as above, the route itself adds nothing when its
    context or its page cannot be had and is counted in full when only
    [close] rejects, and its context is left open unless it was never
    opened. *)
Theorem load_group_account b o s :
  (fst (Session.loadGroup b o s) = Prober.Returned tt
   <-> forall pg, In pg Prober.PAGES ->
                  Session.trouble o (Prober.rname pg) = None)
  /\ ((forall pg, In pg Prober.PAGES ->
                  Session.trouble o (Prober.rname pg) = None) ->
      exists r',
        Session.loadGroup b o s
        = (Prober.Returned tt, Prober.mkState r' (Prober.contexts s))
        /\ Reporter.counters r'
           = (Reporter.passed (Prober.rep s)
              + fold_right N.add 0 (map (Contexts.routePasses b) Prober.PAGES),
              Reporter.failed (Prober.rep s)
              + fold_right N.add 0 (map (Contexts.routeFailures b) Prober.PAGES),
              Reporter.warnings (Prober.rep s)))
  /\ (forall before pg after st e,
        Prober.PAGES = before ++ pg :: after ->
        (forall q, In q before -> Session.trouble o (Prober.rname q) = None) ->
        Session.trouble o (Prober.rname pg) = Some (st, e) ->
        exists r',
          Session.loadGroup b o s
          = (Prober.Thrown e,
             Prober.mkState r'
               (match st with
                | Session.Opening => Prober.contexts s
                | _ => Prober.rname pg :: Prober.contexts s
                end))
          /\ Reporter.counters r'
             = (Reporter.passed (Prober.rep s)
                + fold_right N.add 0 (map (Contexts.routePasses b) before)
                + (match st with
                   | Session.Closing => Contexts.routePasses b pg
                   | _ => 0
                   end),
                Reporter.failed (Prober.rep s)
                + fold_right N.add 0 (map (Contexts.routeFailures b) before)
                + (match st with
                   | Session.Closing => Contexts.routeFailures b pg
                   | _ => 0
                   end),
                Reporter.warnings (Prober.rep s))).
Proof.
  assert (Quiet : (forall pg, In pg Prober.PAGES ->
                     Session.trouble o (Prober.rname pg) = None) ->
                  exists r',
                    Session.loadGroup b o s
                    = (Prober.Returned tt,
                       Prober.mkState r' (Prober.contexts s))
                    /\ Reporter.counters r'
                       = (Reporter.passed (Prober.rep s)
                          + fold_right N.add 0
                              (map (Contexts.routePasses b) Prober.PAGES),
                          Reporter.failed (Prober.rep s)
                          + fold_right N.add 0
                              (map (Contexts.routeFailures b) Prober.PAGES),
                          Reporter.warnings (Prober.rep s))).
  { intros Q. unfold Session.loadGroup, Prober.bind, Prober.report.
    rewrite (forOf_quiet b o Prober.PAGES _ Q).
    match goal with
    | |- context [Prober.forOf _ _ ?s0] =>
        destruct (forOf_load_counts b Prober.PAGES s0) as (r' & E & C)
    end.
    exists r'. split; [exact E|exact C]. }
  assert (Trouble : forall before pg after st e,
            Prober.PAGES = before ++ pg :: after ->
            (forall q, In q before ->
                       Session.trouble o (Prober.rname q) = None) ->
            Session.trouble o (Prober.rname pg) = Some (st, e) ->
            exists r',
              Session.loadGroup b o s
              = (Prober.Thrown e,
                 Prober.mkState r'
                   (match st with
                    | Session.Opening => Prober.contexts s
                    | _ => Prober.rname pg :: Prober.contexts s
                    end))
              /\ Reporter.counters r'
                 = (Reporter.passed (Prober.rep s)
                    + fold_right N.add 0 (map (Contexts.routePasses b) before)
                    + (match st with
                       | Session.Closing => Contexts.routePasses b pg
                       | _ => 0
                       end),
                    Reporter.failed (Prober.rep s)
                    + fold_right N.add 0 (map (Contexts.routeFailures b) before)
                    + (match st with
                       | Session.Closing => Contexts.routeFailures b pg
                       | _ => 0
                       end),
                    Reporter.warnings (Prober.rep s))).
  { intros before pg after st e EP Q T.
    unfold Session.loadGroup, Prober.bind, Prober.report. rewrite EP.
    match goal with
    | |- context [Prober.forOf _ _ ?s0] =>
        destruct (forOf_trouble b o before pg after st e s0 Q T)
          as (r' & E & C)
    end.
    exists r'. split; [exact E|exact C]. }
  split; [|split; [exact Quiet|exact Trouble]].
  split.
  - intros R.
    destruct (first_trouble o Prober.PAGES)
      as [Q|(before & pg & after & st & e & EP & Q & T)]; [exact Q|].
    destruct (Trouble before pg after st e EP Q T) as (r' & E & _).
    rewrite E in R. discriminate R.
  - intros Q. destruct (Quiet Q) as (r' & -> & _). reflexivity.
Qed.

(** On a healthy site whose second context cannot be closed, the group
    throws after the second route: four passes, the context of the privacy
    policy still open, and the third route not probed. *)
Lemma load_group_witness :
  exists r',
    Session.loadGroup Healthy.site Session.stuck Prober.start
    = (Prober.Thrown (js "Target page, context or browser has been closed"),
       Prober.mkState r' [js "Privacy Policy"])
    /\ Reporter.counters r' = (4, 0, 0).
Proof.
  destruct (proj2 (proj2 (load_group_account Healthy.site Session.stuck
                            Prober.start))
              [Prober.mkRoute (js "Home") (js "/")]
              (Prober.mkRoute (js "Privacy Policy") (js "/privacidade/"))
              [Prober.mkRoute (js "Privacy PDF")
                 (js "/legal/politica-privacidade.html")]
              Session.Closing
              (js "Target page, context or browser has been closed")
              eq_refl)
    as (r' & E & C).
  - intros q [<-|[]]. vm_compute. reflexivity.
  - vm_compute. reflexivity.
  - exists r'. split; [exact E|]. rewrite C. vm_compute. reflexivity.
Defined.

Section PerfFacts.
Import Reporter Prober.
Local Open Scope prober_scope.
Variable b : browser.

Lemma bind_returns {A B} (c : P A) (f : A -> P B) s x s' :
  bind c f s = (Returned x, s') ->
  exists a s1, c s = (Returned a, s1) /\ f a s1 = (Returned x, s').
Proof.
  unfold bind. destruct (c s) as [[a|e] s1]; [|discriminate].
  intros H. exists a, s1. auto.
Qed.

(** A run that reaches the summary went through the performance group. *)
Lemma body_ends_with_perf s s' :
  body b s = (Returned tt, s') ->
  exists s1, grows (rep s) (rep s1) /\ perfGroup b s1 = (Returned tt, s').
Proof.
  intros H. unfold body, groups in H.
  apply bind_returns in H as (a0 & s0 & E0 & H).
  apply bind_returns in H as (a1 & s1 & E1 & H).
  apply bind_returns in H as (a2 & s2 & E2 & H).
  apply bind_returns in H as (a3 & s3 & E3 & H).
  apply bind_returns in H as (a4 & s4 & E4 & H).
  apply bind_returns in H as (a5 & s5 & E5 & H).
  apply bind_returns in H as (a6 & s6 & E6 & H).
  apply bind_returns in H as (a7 & s7 & E7 & H).
  exists s7. split; [|exact H].
  assert (g0 : grows (rep s) (rep s0)).
  { unfold report in E0. injection E0 as _ <-. cbn [rep].
    apply grows_log, grows_refl. }
  assert (g1 : grows (rep s0) (rep s1)).
  { unfold await in E1. injection E1 as _ <-. apply grows_refl. }
  pose proof (growing_loadGroup b s1) as g2. rewrite E2 in g2.
  pose proof (growing_layoutGroup b s2) as g3. rewrite E3 in g3.
  pose proof (growing_imageGroup b s3) as g4. rewrite E4 in g4.
  pose proof (growing_langGroup b s4) as g5. rewrite E5 in g5.
  pose proof (growing_animGroup b s5) as g6. rewrite E6 in g6.
  pose proof (growing_interGroup b s6) as g7. rewrite E7 in g7.
  simpl in *.
  repeat (eapply grows_trans; [eassumption|]). apply grows_refl.
Qed.

(** What the performance group records when it returns. *)
Lemma perfGroup_records s s' :
  perfGroup b s = (Returned tt, s') ->
  ((5000 <= endTime b - startTime b)%Z -> failed (rep s) < failed (rep s'))
  /\ ((3000 <= endTime b - startTime b)%Z ->
      failed (rep s) + warnings (rep s) < failed (rep s') + warnings (rep s')).
Proof.
  unfold perfGroup, header, bind, newContext, closeContext, await, report.
  cbv zeta. cbn [fst snd rep contexts].
  destruct (perfGoto b) as [u|e]; [|discriminate].
  destruct (resourceProbe b) as [res|e]; [|discriminate].
  cbn [fst snd rep contexts]. intros H. injection H as <-. cbn [rep].
  set (r0 := log _ (rep s)).
  assert (R0 : counters r0 = counters (rep s)) by apply counters_log.
  apply counters_inv in R0 as (P0 & F0 & W0).
  destruct (endTime b - startTime b <? 3000)%Z eqn:T1.
  - apply Z.ltb_lt in T1. split; intros; lia.
  - destruct (endTime b - startTime b <? 5000)%Z eqn:T2.
    + apply Z.ltb_lt in T2. split; [intros; lia|]. intros _.
      match goal with
      | |- context [(if ?c then pass ?l1 else warn ?l2 ?d2) (warn ?l ?d r0)] =>
          pose proof (counters_warn l d r0) as C1;
          assert (G : grows (warn l d r0)
                        ((if c then pass l1 else warn l2 d2) (warn l d r0)))
            by (destruct c; [apply grows_pass|apply grows_warn];
                apply grows_refl)
      end.
      apply counters_inv in C1 as (P1 & F1 & W1).
      destruct G as (_ & GF & GW). lia.
    + match goal with
      | |- context [(if ?c then pass ?l1 else warn ?l2 ?d2) (fail ?l ?d r0)] =>
          pose proof (counters_fail l d r0) as C1;
          assert (G : grows (fail l d r0)
                        ((if c then pass l1 else warn l2 d2) (fail l d r0)))
            by (destruct c; [apply grows_pass|apply grows_warn];
                apply grows_refl)
      end.
      apply counters_inv in C1 as (P1 & F1 & W1).
      destruct G as (_ & GF & GW). split; intros; lia.
Qed.

End PerfFacts.

(** X17. A slow page. When the navigation of the performance group takes
    5000 ms or more, a run of the prober that reaches its summary ends in
    FAILED with exit code 1, whatever the other groups find; when it takes
    3000 ms or more, the run does not end in ALL BROWSER CHECKS PASSED. A
    load time below 3000 ms is the only one that passes. *)
Theorem slow_page_is_reported b code s :
  Prober.run b = Prober.Exited code s ->
  ((5000 <= Prober.endTime b - Prober.startTime b)%Z ->
   code = 1%Z /\ Reporter.summarize (Prober.rep s) = Reporter.Failure)
  /\ ((3000 <= Prober.endTime b - Prober.startTime b)%Z ->
      Reporter.summarize (Prober.rep s) <> Reporter.Success).
Proof.
  intros E. pose proof (prober_run_exit b Prober.start code s E) as X.
  unfold Prober.run, Prober.runFrom in E.
  destruct (Prober.body b Prober.start) as [[[]|e] s'] eqn:B; [|discriminate].
  apply body_ends_with_perf in B as (s1 & G1 & Pf).
  apply perfGroup_records in Pf as (Slow & Warm).
  pose proof (grows_prober_summary (Prober.rep s') (Prober.rep s')
                (grows_refl _)) as (_ & GF & GW).
  destruct (Prober.summary (Prober.rep s')) as [c r].
  injection E as -> <-. cbn [Prober.rep snd] in *.
  destruct G1 as (_ & G1F & G1W).
  unfold Reporter.summarize in *. split.
  - intros T. specialize (Slow T).
    assert (F : (0 <? Reporter.failed r) = true) by (apply N.ltb_lt; lia).
    rewrite F in *. split; [exact X|reflexivity].
  - intros T. specialize (Warm T).
    destruct (0 <? Reporter.failed r) eqn:F; [discriminate|].
    apply N.ltb_ge in F.
    assert (W : (0 <? Reporter.warnings r) = true) by (apply N.ltb_lt; lia).
    rewrite W. discriminate.
Qed.

(** A healthy site that loads in 6250 ms ends with exit code 1. *)
Lemma slow_page_witness : Prober.exitOf (Prober.run Cases.slowSite) = 1%Z.
Proof.
  destruct (Prober.run Cases.slowSite) as [code s|m s] eqn:E;
    [|vm_compute in E; discriminate].
  cbn [Prober.exitOf].
  apply (proj1 (slow_page_is_reported Cases.slowSite code s E)).
  vm_compute. discriminate.
Defined.

(* ================================================================== *)
(** * The script of the page *)
(* ================================================================== *)

Section SiteFacts.
Import Site.
Local Open Scope nat_scope.

Lemma length_forEachFrom {A B} (f : nat -> A -> B) l : forall i,
  List.length (forEachFrom f i l) = List.length l.
Proof.
  induction l as [|x l IH]; intros i; simpl; [reflexivity|].
  rewrite IH. reflexivity.
Qed.

Lemma nth_forEachFrom {A B} (f : nat -> A -> B) (a : A) (d : B) l :
  forall i j,
    j < List.length l ->
    nth j (forEachFrom f i l) d = f (i + j) (nth j l a).
Proof.
  induction l as [|x l IH]; intros i j H; simpl in H; [lia|].
  destruct j as [|j]; simpl.
  - rewrite Nat.add_0_r. reflexivity.
  - rewrite IH by lia. f_equal. lia.
Qed.

(** A callback that does not read the element gives the same flags on
    lists of the same length. *)
Lemma forEachFrom_blind {A B C} (g : nat -> C) (l : list A) :
  forall (l' : list B) i,
    List.length l = List.length l' ->
    forEachFrom (fun i _ => g i) i l = forEachFrom (fun i _ => g i) i l'.
Proof.
  induction l as [|x l IH]; intros [|y l'] i H; simpl in *;
    try discriminate; [reflexivity|].
  f_equal. apply IH. lia.
Qed.

Lemma length_show index l : List.length (show index l) = List.length l.
Proof. apply length_forEachFrom. Qed.

Lemma countOn_from c {T} (l : list T) : forall i,
  countOn (forEachFrom (fun i _ => same i (Some c)) i l)
  = if (i <=? c) && (c <? i + List.length l) then 1 else 0.
Proof.
  unfold countOn. induction l as [|x l IH]; intros i.
  - simpl. destruct (i <=? c) eqn:Ha; [|reflexivity].
    destruct (c <? i + 0) eqn:Hb; [|reflexivity].
    apply Nat.leb_le in Ha. apply Nat.ltb_lt in Hb. lia.
  - cbn [forEachFrom same filter]. destruct (i =? c) eqn:E.
    + unfold id at 1. cbn [List.length]. rewrite IH.
      apply Nat.eqb_eq in E. subst i.
      assert (Ha : (S c <=? c) = false) by (apply Nat.leb_gt; lia).
      assert (Hb : (c <=? c) = true) by (apply Nat.leb_le; lia).
      assert (Hc : (c <? c + S (List.length l)) = true)
        by (apply Nat.ltb_lt; lia).
      rewrite Ha, Hb, Hc. reflexivity.
    + unfold id at 1. rewrite IH. apply Nat.eqb_neq in E.
      cbn [List.length].
      replace (S i + List.length l) with (i + S (List.length l)) by lia.
      destruct (S i <=? c) eqn:Ha, (i <=? c) eqn:Hb; try reflexivity.
      * apply Nat.leb_le in Ha. apply Nat.leb_gt in Hb. lia.
      * apply Nat.leb_gt in Ha. apply Nat.leb_le in Hb. lia.
Qed.

Lemma countOn_show c l :
  countOn (show (Some c) l) = if c <? List.length l then 1 else 0.
Proof. unfold show, forEachIndexed. rewrite countOn_from. reflexivity. Qed.

End SiteFacts.

Section HeroFacts.
Import Site.
Local Open Scope nat_scope.

Lemma turns_state convs k :
  convs <> [] ->
  currentConv (turns k (initHeroCarousel convs))
  = Some (k mod List.length convs)
  /\ List.length (conversations (turns k (initHeroCarousel convs)))
     = List.length convs
  /\ (0 < k ->
      conversations (turns k (initHeroCarousel convs))
      = show (Some (k mod List.length convs)) convs).
Proof.
  intros Ne.
  assert (L : List.length convs <> 0) by (destruct convs; simpl; congruence).
  induction k as [|k (C & Len & Sh)].
  - simpl. rewrite Nat.Div0.mod_0_l. repeat split. lia.
  - cbn [turns]. unfold nextConversation, showConversation. cbv zeta.
    cbn [currentConv conversations]. rewrite C, Len. unfold succMod.
    destruct (List.length convs =? 0) eqn:Z;
      [apply Nat.eqb_eq in Z; contradiction|].
    assert (M : (k mod List.length convs + 1) mod List.length convs
                = S k mod List.length convs).
    { rewrite Nat.Div0.add_mod_idemp_l. f_equal. lia. }
    rewrite M. split; [reflexivity|]. split.
    + rewrite length_show. exact Len.
    + intros _. unfold show, forEachIndexed.
      apply forEachFrom_blind. exact Len.
Qed.

End HeroFacts.

(** X18. The conversation carousel of the hero (initHeroCarousel). On a
    page with conversations the interval shows them in order and starts
    again after the last: after [k] turns the current index is [k] modulo
    their number, and from the first turn on exactly one conversation has
    the class [active], the current one. On a page without conversations
    the index is [NaN] from the first turn on. *)
Theorem hero_carousel_cycles convs k :
  (convs <> [] ->
   Site.currentConv (Site.turns k (Site.initHeroCarousel convs))
   = Some (k mod List.length convs)%nat
   /\ ((0 < k)%nat ->
       Site.conversations (Site.turns k (Site.initHeroCarousel convs))
       = Site.show (Some (k mod List.length convs)%nat) convs
       /\ Site.countOn
            (Site.conversations (Site.turns k (Site.initHeroCarousel convs)))
          = 1%nat))
  /\ (convs = [] -> (0 < k)%nat ->
      Site.currentConv (Site.turns k (Site.initHeroCarousel convs)) = None).
Proof.
  split.
  - intros Ne. destruct (turns_state convs k Ne) as (C & Len & Sh).
    split; [exact C|]. intros K. split; [exact (Sh K)|].
    rewrite (Sh K), countOn_show.
    assert (L : List.length convs <> 0%nat)
      by (destruct convs; simpl; congruence).
    pose proof (Nat.mod_upper_bound k (List.length convs) L) as B.
    apply Nat.ltb_lt in B. rewrite B. reflexivity.
  - intros -> K. destruct k as [|k]; [lia|]. clear K.
    induction k as [|k IH]; [reflexivity|].
    cbn [Site.turns] in *. unfold Site.nextConversation at 1.
    cbv zeta. cbn [Site.currentConv Site.showConversation].
    unfold Site.showConversation. cbn [Site.currentConv].
    rewrite IH. reflexivity.
Qed.

(** Four conversations: after six turns the third one is shown. *)
Lemma hero_carousel_witness :
  Site.currentConv
    (Site.turns 6 (Site.initHeroCarousel [true; false; false; false]))
  = Some 2%nat
  /\ Site.conversations
       (Site.turns 6 (Site.initHeroCarousel [true; false; false; false]))
     = [false; false; true; false].
Proof.
  destruct (proj1 (hero_carousel_cycles [true; false; false; false] 6))
    as (C & S); [discriminate|].
  split; [exact C|]. apply S. lia.
Defined.

Section TestimonialFacts.
Import Site.
Local Open Scope nat_scope.

Lemma show_blind index (l l' : list bool) :
  List.length l = List.length l' -> show index l = show index l'.
Proof. intros H. unfold show, forEachIndexed. apply forEachFrom_blind, H. Qed.

Lemma steady_init sl ds : steady sl ds (initTestimonialsCarousel sl ds).
Proof.
  unfold steady, initTestimonialsCarousel, startAutoplay. simpl.
  split; [exists 0; auto|auto].
Qed.

Lemma steady_step sl ds t e :
  possible ds e = true -> steady sl ds t ->
  steady sl ds (step t e) /\ shown sl ds (step t e).
Proof.
  intros V ((id & T & R) & Ls & Ld). destruct e as [|i].
  - unfold step, nextTestimonial, showTestimonial, steady, shown. cbv zeta.
    cbn [autoplayTimer timers slides dots currentTestimonial].
    rewrite !length_show. repeat split; eauto using show_blind.
  - unfold step. simpl in V. rewrite Ld, V.
    unfold clickDot, resetAutoplay, startAutoplay, showTestimonial, steady,
      shown.
    cbn [autoplayTimer timers slides dots currentTestimonial nextTimer].
    rewrite !length_show, T, R. unfold clearInterval.
    cbn [filter]. rewrite Nat.eqb_refl. cbn [negb].
    repeat split; eauto using show_blind.
Qed.

Lemma steady_after sl ds events : forall t,
  forallb (possible ds) events = true -> steady sl ds t ->
  steady sl ds (after events t)
  /\ (events <> [] -> shown sl ds (after events t)).
Proof.
  induction events as [|e events IH]; intros t V S.
  - split; [exact S|congruence].
  - cbn [forallb] in V. apply andb_true_iff in V as [Ve V].
    destruct (steady_step sl ds t e Ve S) as [S1 Sh1].
    unfold after. cbn [fold_left]. fold (after events (step t e)).
    destruct (IH (step t e) V S1) as [S2 Sh2]. split; [exact S2|].
    intros _. destruct events as [|e' events]; [exact Sh1|].
    apply Sh2. discriminate.
Qed.

(** With no more dots than slides the index stays on a slide. *)
Lemma inRange_after (sl ds : list bool) events : forall t,
  sl <> [] -> List.length ds <= List.length sl ->
  forallb (possible ds) events = true ->
  List.length (slides t) = List.length sl ->
  List.length (dots t) = List.length ds ->
  (exists c, currentTestimonial t = Some c /\ c < List.length sl) ->
  exists c, currentTestimonial (after events t) = Some c
            /\ c < List.length sl.
Proof.
  intros t Ne Le. revert t.
  assert (L : List.length sl <> 0) by (destruct sl; simpl; congruence).
  induction events as [|e events IH]; intros t V Ls Ld (c & C & B).
  - exists c. auto.
  - cbn [forallb] in V. apply andb_true_iff in V as [Ve V].
    unfold after. cbn [fold_left]. fold (after events (step t e)).
    apply IH; [exact V| | |].
    + destruct e as [|i]; unfold step; cbn [possible] in Ve.
      * unfold nextTestimonial, showTestimonial. cbv zeta. cbn [slides].
        rewrite length_show. exact Ls.
      * rewrite Ld, Ve. cbn [clickDot resetAutoplay startAutoplay
                              showTestimonial slides].
        rewrite length_show. exact Ls.
    + destruct e as [|i]; unfold step; cbn [possible] in Ve.
      * unfold nextTestimonial, showTestimonial. cbv zeta. cbn [dots].
        rewrite length_show. exact Ld.
      * rewrite Ld, Ve. cbn [clickDot resetAutoplay startAutoplay
                              showTestimonial dots].
        rewrite length_show. exact Ld.
    + destruct e as [|i]; unfold step; cbn [possible] in Ve.
      * unfold nextTestimonial, showTestimonial. cbv zeta.
        cbn [currentTestimonial]. rewrite C, Ls. unfold succMod.
        destruct (List.length sl =? 0) eqn:Z;
          [apply Nat.eqb_eq in Z; contradiction|].
        eexists. split; [reflexivity|]. apply Nat.mod_upper_bound, L.
      * rewrite Ld, Ve. cbn [clickDot resetAutoplay startAutoplay
                              showTestimonial currentTestimonial].
        apply Nat.ltb_lt in Ve. exists i. split; [reflexivity|lia].
Qed.

End TestimonialFacts.

(** X19. The testimonial carousel (initTestimonialsCarousel), after any
    sequence of turns of its interval and of clicks on its dots. Exactly
    one interval is running, the one [autoplayTimer] holds: a click clears
    the interval before it starts the next, so clicks never make the
    carousel turn faster. After the first event the slides and the dots
    carry the class [active] at the current index and nowhere else. On a
    page with slides and no more dots than slides, the index is the index of
    a slide, and exactly one slide is active. *)
Theorem testimonial_carousel_is_steady sl ds events :
  forallb (Site.possible ds) events = true ->
  (exists id,
     Site.autoplayTimer (Site.after events (Site.initTestimonialsCarousel sl ds))
     = Some id
     /\ Site.timers (Site.after events (Site.initTestimonialsCarousel sl ds))
        = [id])
  /\ (events <> [] ->
      Site.slides (Site.after events (Site.initTestimonialsCarousel sl ds))
      = Site.show
          (Site.currentTestimonial
             (Site.after events (Site.initTestimonialsCarousel sl ds))) sl
      /\ Site.dots (Site.after events (Site.initTestimonialsCarousel sl ds))
         = Site.show
             (Site.currentTestimonial
                (Site.after events (Site.initTestimonialsCarousel sl ds))) ds)
  /\ (sl <> [] -> (List.length ds <= List.length sl)%nat ->
      exists c,
        Site.currentTestimonial
          (Site.after events (Site.initTestimonialsCarousel sl ds)) = Some c
        /\ (c < List.length sl)%nat
        /\ (events <> [] ->
            Site.countOn
              (Site.slides
                 (Site.after events (Site.initTestimonialsCarousel sl ds)))
            = 1%nat)).
Proof.
  intros V.
  destruct (steady_after sl ds events (Site.initTestimonialsCarousel sl ds) V
              (steady_init sl ds)) as ((T & _ & _) & Sh).
  split; [exact T|]. split; [exact Sh|].
  intros Ne Le.
  destruct (inRange_after sl ds events (Site.initTestimonialsCarousel sl ds)
              Ne Le V eq_refl eq_refl) as (c & C & B).
  { exists 0%nat. split; [reflexivity|]. destruct sl; simpl; [congruence|lia]. }
  exists c. split; [exact C|]. split; [exact B|].
  intros E. destruct (Sh E) as [S _]. rewrite S, C, countOn_show.
  apply Nat.ltb_lt in B. rewrite B. reflexivity.
Qed.

(** Three slides and three dots: a click on the last dot, a turn of the
    interval, a click on the second dot. *)
Lemma testimonial_carousel_witness :
  Site.timers
    (Site.after [Site.ClickDot 2; Site.Tick; Site.ClickDot 1]
       (Site.initTestimonialsCarousel [true; false; false] [true; false; false]))
  = [2%nat]
  /\ Site.slides
       (Site.after [Site.ClickDot 2; Site.Tick; Site.ClickDot 1]
          (Site.initTestimonialsCarousel [true; false; false]
             [true; false; false]))
     = [false; true; false].
Proof.
  destruct (testimonial_carousel_is_steady [true; false; false]
              [true; false; false]
              [Site.ClickDot 2; Site.Tick; Site.ClickDot 1] eq_refl)
    as ((id & T & R) & Sh & _).
  split.
  - rewrite R. f_equal. vm_compute in T. congruence.
  - destruct Sh as [S _]; [discriminate|]. rewrite S. reflexivity.
Defined.

Section FaqFacts.
Import Site.
Local Open Scope nat_scope.

(** The flags after a click, one by one. *)
Lemma nth_clickQuestion item items j :
  nth j (clickQuestion item items) false
  = (j =? item) && (j <? List.length items) && negb (nth j items false).
Proof.
  unfold clickQuestion, toggleOpen, closeOthers, forEachIndexed.
  destruct (j <? List.length items) eqn:L.
  - apply Nat.ltb_lt in L.
    rewrite (nth_forEachFrom _ false false) by (rewrite length_forEachFrom; exact L).
    rewrite (nth_forEachFrom _ false false) by exact L.
    simpl. destruct (j =? item); reflexivity.
  - apply Nat.ltb_ge in L. rewrite nth_overflow
      by (rewrite !length_forEachFrom; exact L).
    rewrite andb_false_r. reflexivity.
Qed.

Lemma length_clickQuestion item items :
  List.length (clickQuestion item items) = List.length items.
Proof.
  unfold clickQuestion, toggleOpen, closeOthers, forEachIndexed.
  rewrite !length_forEachFrom. reflexivity.
Qed.

(** Flags of which no two are set count one at most. *)
Lemma countOn_at_most_one l :
  (forall j1 j2,
     nth j1 l false = true -> nth j2 l false = true -> j1 = j2) ->
  countOn l <= 1.
Proof.
  unfold countOn. induction l as [|x l IH]; intros H; simpl; [lia|].
  destruct x; unfold id at 1; simpl.
  - assert (Z : List.length (filter id l) = 0).
    { destruct (filter id l) as [|y f] eqn:F; [reflexivity|].
      assert (I : In y (filter id l)) by (rewrite F; left; reflexivity).
      apply filter_In in I as [I Y]. unfold id in Y. subst y.
      apply (In_nth _ _ false) in I as (j & _ & N).
      specialize (H 0 (S j) eq_refl N). discriminate. }
    rewrite Z. lia.
  - apply IH. intros j1 j2 H1 H2.
    specialize (H (S j1) (S j2) H1 H2). lia.
Qed.

Lemma nth_ext_bool (l l' : list bool) :
  List.length l = List.length l' ->
  (forall j, nth j l false = nth j l' false) -> l = l'.
Proof.
  intros L H. apply (nth_ext l l' false false L). intros j _. apply H.
Qed.

End FaqFacts.

(** X20. The accordion of the FAQ (initFAQ). After a click on a question at
    most one item is open, whatever was open before: every other item is
    closed, and the item of the question is open exactly when it was closed
    before. A second click on the same question puts that item back as it
    was before the first, with every other item closed. *)
Theorem faq_accordion_keeps_one_open item items :
  (Site.countOn (Site.clickQuestion item items) <= 1)%nat
  /\ (forall j,
        nth j (Site.clickQuestion item items) false
        = (j =? item)%nat && (j <? List.length items)%nat
          && negb (nth j items false))
  /\ Site.clickQuestion item (Site.clickQuestion item items)
     = Site.closeOthers item items.
Proof.
  split; [|split].
  - apply countOn_at_most_one. intros j1 j2.
    rewrite !nth_clickQuestion. intros H1 H2.
    apply andb_true_iff in H1 as [H1 _]. apply andb_true_iff in H1 as [H1 _].
    apply andb_true_iff in H2 as [H2 _]. apply andb_true_iff in H2 as [H2 _].
    apply Nat.eqb_eq in H1, H2. congruence.
  - apply nth_clickQuestion.
  - apply nth_ext_bool.
    + rewrite !length_clickQuestion. unfold Site.closeOthers, Site.forEachIndexed.
      rewrite length_forEachFrom. reflexivity.
    + intros j. rewrite !nth_clickQuestion, length_clickQuestion.
      unfold Site.closeOthers, Site.forEachIndexed.
      destruct (j <? List.length items)%nat eqn:L.
      * apply Nat.ltb_lt in L.
        rewrite (nth_forEachFrom _ false false) by exact L. simpl.
        destruct (j =? item)%nat, (nth j items false); reflexivity.
      * apply Nat.ltb_ge in L.
        rewrite andb_false_r. symmetry. apply nth_overflow.
        rewrite length_forEachFrom. exact L.
Qed.

Section FormFacts.
Import Site.

Lemma trimStart_spaces s :
  forallb JS.isSpace s = true -> JS.trimStart s = [].
Proof.
  induction s as [|c s IH]; [reflexivity|]. simpl.
  intros H. apply andb_true_iff in H as [C H]. rewrite C. apply IH, H.
Qed.

Lemma trimStart_nil s : JS.trimStart s = [] -> forallb JS.isSpace s = true.
Proof.
  induction s as [|c s IH]; [reflexivity|]. simpl.
  destruct (JS.isSpace c); [exact IH|discriminate].
Qed.

(** What [trimStart] leaves is empty or starts with a character that is no
    white space. *)
Lemma trimStart_head s :
  JS.trimStart s = []
  \/ exists c t, JS.trimStart s = c :: t /\ JS.isSpace c = false.
Proof.
  induction s as [|c s IH]; [left; reflexivity|]. simpl.
  destruct (JS.isSpace c) eqn:C; [exact IH|].
  right. exists c, s. auto.
Qed.

(** [s.trim()] is empty exactly for a string of white space. *)
Lemma trim_blank s : JS.truthy (JS.trim s) = negb (forallb JS.isSpace s).
Proof.
  unfold JS.trim. destruct (forallb JS.isSpace s) eqn:B.
  - rewrite (trimStart_spaces s B). reflexivity.
  - destruct (trimStart_head s) as [E|(c & t & E & C)].
    + apply trimStart_nil in E. congruence.
    + rewrite E. simpl rev.
      destruct (JS.trimStart (rev t ++ [c])) as [|x u] eqn:T.
      * apply trimStart_nil in T. rewrite forallb_app in T.
        apply andb_true_iff in T as [_ T]. simpl in T. rewrite C in T.
        discriminate.
      * simpl. destruct (rev u ++ [x]) eqn:R; [|reflexivity].
        destruct (rev u); discriminate.
Qed.

End FormFacts.

(** X21. The two forms (initWaitlistForm, initHeroForm). A submission
    whose field holds nothing but white space changes nothing. Any other
    submission, whatever the text, replaces the content of the form by the
    message of success, which has no field; the handler run again on that
    form throws on the missing field. *)
Theorem form_submission success value html :
  (forallb JS.isSpace value = true ->
   Site.submit success (Site.mkForm (Some value) html)
   = Some (Site.mkForm (Some value) html))
  /\ (forallb JS.isSpace value = false ->
      Site.submit success (Site.mkForm (Some value) html)
      = Some (Site.mkForm None success)
      /\ Site.submit success (Site.mkForm None success) = None).
Proof.
  unfold Site.submit. cbn [Site.input]. rewrite trim_blank. split.
  - intros ->. reflexivity.
  - intros ->. split; reflexivity.
Qed.

Lemma form_submission_witness :
  Site.submitWaitlist (Site.mkForm (Some (js "   ")) (js "<input>"))
  = Some (Site.mkForm (Some (js "   ")) (js "<input>"))
  /\ Site.submitHero (Site.mkForm (Some (js " 11 99999-0000 ")) (js "<input>"))
     = Some (Site.mkForm None Site.heroSuccess).
Proof.
  split.
  - apply (proj1 (form_submission Site.waitlistSuccess (js "   ") (js "<input>"))).
    reflexivity.
  - apply (proj2 (form_submission Site.heroSuccess (js " 11 99999-0000 ")
                    (js "<input>"))).
    reflexivity.
Defined.

Section PageLoadFacts.
Import Site.
Local Open Scope nat_scope.

Lemma initFAQFrom_spec items : forall i,
  snd (initFAQFrom i items) = forallb id items
  /\ (forallb id items = true ->
      fst (initFAQFrom i items) = seq i (List.length items)).
Proof.
  induction items as [|x items IH]; intros i; [split; reflexivity|].
  simpl. destruct x; simpl.
  - destruct (IH (S i)) as [Hs Hf]. destruct (initFAQFrom (S i) items).
    simpl in *. split; [exact Hs|]. intros H. rewrite (Hf H). reflexivity.
  - split; [reflexivity|discriminate].
Qed.

End PageLoadFacts.

(** X22. One FAQ item without a question disables both forms. The handler
    of DOMContentLoaded sets up the FAQ before the forms, and [initFAQ]
    throws on the first item that has no [.faq-question]. So a form gets
    its [submit] listener exactly when it is on the page and every FAQ item
    has its question; and when they all have, every question gets its
    [click] listener. *)
Theorem forms_need_a_complete_faq p :
  Site.waitlistSubmit (Site.onLoad p)
  = Site.hasWaitlistForm p && forallb id (Site.faqItems p)
  /\ Site.heroSubmit (Site.onLoad p)
     = Site.hasHeroForm p && forallb id (Site.faqItems p)
  /\ (forallb id (Site.faqItems p) = true ->
      Site.questions (Site.onLoad p)
      = seq 0 (List.length (Site.faqItems p))).
Proof.
  unfold Site.onLoad, Site.initFAQ.
  destruct (initFAQFrom_spec (Site.faqItems p) 0%nat) as [Hs Hf].
  destruct (Site.initFAQFrom 0 (Site.faqItems p)) as [qs ok]. simpl in *.
  rewrite <- Hs. destruct ok; simpl.
  - rewrite !andb_true_r. repeat split. intros _. apply Hf. congruence.
  - rewrite !andb_false_r. repeat split. discriminate.
Qed.
